(** * RAG-GO: the document/vector store, the chunker and the chat archive

    A shallow embedding of the Go packages [processor], [storage] and [api]
    of RAG-GO, and the properties of its storage-and-retrieval engine.

    Conventions of the embedding:
    - a Go [string] is a byte string: Rocq's [string], one [ascii] per byte;
    - a Go [int] is a [Z] (lengths of values held in memory stay far below
      the 64-bit bound, so no wrap-around is written for them); a [uint32]
      and a [byte] are [Z]s with their wrap-around written out;
    - a [float32] is an IEEE-754 binary32 value, a [spec_float] handled with
      the operations of [SpecFloat] at precision 24 and maximal exponent 128;
    - a Go call that may panic (an index out of range) returns [Panic]; a
      call that returns an [error] returns [Fail]. *)

From Stdlib Require Import ZArith String Ascii List Lia Bool.
From Stdlib Require Import Floats.SpecFloat.
From Stdlib Require Import Sorting.Sorted Sorting.Permutation.
From stdpp Require Import gmap strings list pretty.

Open Scope Z_scope.

(** ** Go values: errors and results *)

Module Go.

(** The [error] values the code builds or tests.  [Wrap msg cause] is
    [fmt.Errorf(msg + ": %w", cause)]; [Errorf msg arg] is a message
    formatted with [%s] or [%v], which wraps nothing. *)
Inductive error : Type :=
| ErrNotExist
| ErrPermission
| ErrKeyNotFound
| ErrDBClosed
| ErrSyntax
| ErrorsNew (msg : string)
| Errorf (msg : string) (arg : string)
| Wrap (msg : string) (cause : error).

(** [os.IsNotExist(err)]: true of the bare system error only (it does not
    unwrap). *)
Definition IsNotExist (e : error) : bool :=
  match e with ErrNotExist => true | _ => false end.

(** [errors.Is(err, badger.ErrKeyNotFound)]: follows the [%w] chain. *)
Fixpoint IsKeyNotFound (e : error) : bool :=
  match e with
  | ErrKeyNotFound => true
  | Wrap _ c => IsKeyNotFound c
  | _ => false
  end.

(** [err.Error()], the text [%v] prints.  The texts of the system and Badger
    errors stand for what the platform prints there. *)
Fixpoint Error (e : error) : string :=
  match e with
  | ErrNotExist => "no such file or directory"
  | ErrPermission => "permission denied"
  | ErrKeyNotFound => "Key not found"
  | ErrDBClosed => "DB Closed"
  | ErrSyntax => "invalid character"
  | ErrorsNew msg => msg
  | Errorf msg arg => msg +:+ ": " +:+ arg
  | Wrap msg cause => msg +:+ ": " +:+ Error cause
  end.

(** What a call that returns [(T, error)] can do. *)
Inductive result (A : Type) : Type :=
| Ok (a : A)
| Fail (e : error)
| Panic.
Arguments Ok {A} a.
Arguments Fail {A} e.
Arguments Panic {A}.

Definition bind {A B : Type} (r : result A) (k : A -> result B) : result B :=
  match r with
  | Ok a => k a
  | Fail e => Fail e
  | Panic => Panic
  end.

(** [l[i]] on a slice: out of range panics. *)
Definition index {A : Type} (l : list A) (i : nat) : result A :=
  match l !! i with
  | Some x => Ok x
  | None => Panic
  end.

(** [l[i] = x] on a slice: out of range panics. *)
Definition assign {A : Type} (l : list A) (i : nat) (x : A) : result (list A) :=
  if decide (i < length l)%nat then Ok (<[i:=x]> l) else Panic.

(** [len(s)] of a string, as an [int]. *)
Definition len (s : string) : Z := Z.of_nat (String.length s).

(** The value of a byte. *)
Definition code (c : ascii) : Z := Z.of_nat (nat_of_ascii c).

Definition between (lo hi : Z) (c : ascii) : bool := (lo <=? code c) && (code c <=? hi).

(** [utf8.ValidString(s)]: [s] is a sequence of well-formed UTF-8 encodings
    (no stray or missing continuation byte, no overlong form, no surrogate,
    nothing above U+10FFFF).  These are the strings [encoding/json] writes
    and reads back as they are; in any other string it replaces each
    offending byte by U+FFFD. *)
Fixpoint ValidString (s : string) : bool :=
  match s with
  | EmptyString => true
  | String c0 rest =>
      if code c0 <? 128 then ValidString rest
      else
        match rest with
        | EmptyString => false
        | String c1 rest1 =>
            if between 194 223 c0 then between 128 191 c1 && ValidString rest1
            else
              match rest1 with
              | EmptyString => false
              | String c2 rest2 =>
                  if between 224 224 c0
                  then between 160 191 c1 && between 128 191 c2 && ValidString rest2
                  else if between 225 236 c0 || between 238 239 c0
                  then between 128 191 c1 && between 128 191 c2 && ValidString rest2
                  else if between 237 237 c0
                  then between 128 159 c1 && between 128 191 c2 && ValidString rest2
                  else
                    match rest2 with
                    | EmptyString => false
                    | String c3 rest3 =>
                        if between 240 240 c0
                        then between 144 191 c1 && between 128 191 c2 && between 128 191 c3
                             && ValidString rest3
                        else if between 241 243 c0
                        then between 128 191 c1 && between 128 191 c2 && between 128 191 c3
                             && ValidString rest3
                        else if between 244 244 c0
                        then between 128 143 c1 && between 128 191 c2 && between 128 191 c3
                             && ValidString rest3
                        else false
                    end
              end
        end
  end.

(** No byte of [s] is the path separator or NUL. *)
Fixpoint no_separator (s : string) : bool :=
  match s with
  | EmptyString => true
  | String c rest => negb (code c =? 47) && negb (code c =? 0) && no_separator rest
  end.

(** A plain file name: one path element that is not empty, ["."] or
    [".."], holds no separator and no NUL byte and is at most 255 bytes
    long.  For such a [name], [filepath.Join(dir, name)] is the entry [name]
    of [dir], and distinct plain names are distinct entries; a name with
    path syntax is cleaned by [filepath.Join] and may name another entry,
    or none. *)
Definition plain_name (name : string) : bool :=
  negb (String.eqb name "") && negb (String.eqb name ".") && negb (String.eqb name "..")
  && no_separator name && (String.length name <=? 255)%nat.

(** The sort handed to [sort.Slice]: a function from the comparison and the
    slice to the slice rearranged.  Go documents it as a sort that is not
    guaranteed stable; its laws are [SliceSortLaws] below. *)
Class SliceSort : Type :=
  sort_slice : forall A : Type, (A -> A -> bool) -> list A -> list A.

(** Go's [insertionSortLessFunc], the procedure [sort.Slice] runs on slices
    of at most twelve elements: element [i] moves left while it is [less]
    than its left neighbour.  The sorted prefix is held reversed. *)
Fixpoint insert_left {A : Type} (less : A -> A -> bool) (x : A) (rprefix : list A) : list A :=
  match rprefix with
  | [] => [x]
  | y :: rest => if less x y then y :: insert_left less x rest else x :: rprefix
  end.

Definition insertion_sort {A : Type} (less : A -> A -> bool) (l : list A) : list A :=
  rev (fold_left (fun rprefix x => insert_left less x rprefix) l []).

Definition insertion_sorter : SliceSort := @insertion_sort.

(** [less] is a strict weak ordering on the elements of [l], which is what
    [sort.Slice] asks of it: asymmetric, and its complement transitive. *)
Definition strict_weak {A : Type} (less : A -> A -> bool) (l : list A) : Prop :=
  (forall x y, In x l -> In y l -> less x y = true -> less y x = false) /\
  (forall x y z, In x l -> In y l -> In z l ->
     less x y = false -> less y z = false -> less x z = false).

(** What Go documents of [sort.Slice]: the slice is rearranged, and under a
    strict weak ordering no element is [less] than one placed before it. *)
Class SliceSortLaws (S : SliceSort) : Prop := {
  sort_slice_perm : forall (A : Type) (less : A -> A -> bool) (l : list A),
    Permutation (sort_slice A less l) l;
  sort_slice_sorted : forall (A : Type) (less : A -> A -> bool) (l : list A),
    strict_weak less l ->
    StronglySorted (fun x y => less y x = false) (sort_slice A less l)
}.

End Go.

Notation "x <- r ;; k" := (Go.bind r (fun x => k))
  (at level 100, r at next level, right associativity).

(** ** 32-bit floating point *)

Module Float32.

Definition float32 : Type := spec_float.
Definition float64 : Type := spec_float.

Definition prec : Z := 24.
Definition emax : Z := 128.

Definition zero : float32 := S754_zero false.

(** Each operation rounds on its own, as the amd64 compiler emits them (Go
    lets an implementation fuse [x*y + z] into one rounding). *)
Definition add : float32 -> float32 -> float32 := SFadd prec emax.
Definition mul : float32 -> float32 -> float32 := SFmul prec emax.
Definition div : float32 -> float32 -> float32 := SFdiv prec emax.

(** [a == b] and [a > b] on floats: false as soon as one side is NaN. *)
Definition eqb (a b : float32) : bool := SFeqb a b.
Definition gtb (a b : float32) : bool := SFltb b a.

Definition is_nan (a : float32) : bool :=
  match a with S754_nan => true | _ => false end.

(** [float64(x)]: exact. *)
Definition to_float64 (x : float32) : float64 :=
  match x with
  | S754_finite s m e => binary_normalize 53 1024 (cond_Zopp s (Zpos m)) e s
  | _ => x
  end.

(** [float32(x)] of a [float64]: rounds to nearest, ties to even. *)
Definition of_float64 (x : float64) : float32 :=
  match x with
  | S754_finite s m e => binary_normalize prec emax (cond_Zopp s (Zpos m)) e s
  | _ => x
  end.

(** [math.Sqrt] on [float64]. *)
Definition sqrt64 (x : float64) : float64 := SFsqrt 53 1024 x.

(** [float32(bits)] of a [uint32]: the numeric conversion, rounding the
    integer to the nearest binary32 value. *)
Definition of_uint32 (bits : Z) : float32 := binary_normalize prec emax bits 0 false.

(** The integer part of a float, toward zero. *)
Definition trunc (v : float32) : Z :=
  match v with
  | S754_finite s m e => cond_Zopp s (Z.shiftl (Zpos m) e)
  | _ => 0
  end.

(** [uint32(v)] of a [float32]: the numeric conversion.  Go truncates toward
    zero when the integer part fits; for the other values (negative, too
    large, NaN, infinite) the result is implementation-specific, and the
    model takes what the amd64 compiler yields: the low 32 bits of the
    integer part, and 0 for NaN and the infinities. *)
Definition to_uint32 (v : float32) : Z := (trunc v) mod 2 ^ 32.

(** Constants used in examples. *)
Definition one : float32 := of_uint32 1.
Definition half : float32 := div one (of_uint32 2).

End Float32.

(** ** Package [storage]: the vector store *)

Module Storage.
Import Go Float32.

Record Metadata : Type := {
  Source : string;
  Title : string;
  Tags : list string;
  Custom : gmap string string;
  ChunkID : Z;
  ChunkNum : Z
}.

Record Document : Type := {
  ID : string;
  Content : string;
  DocMetadata : Metadata
}.

(** The value held under a key of the Badger table: the JSON text of a
    document, read through what [json.Unmarshal] makes of it.  [json.Marshal]
    of a [Document] cannot fail (strings, ints, a slice and a map of
    strings), so [DocJSON doc] is what [AddDocument] writes when the
    strings of [doc] are valid UTF-8 ([Go.ValidString]), which the JSON text
    keeps as they are; in other strings [json.Marshal] replaces the
    offending bytes, and the record then decodes to another document.  The
    properties that read a document back as it was given assume
    [valid_document]. *)
Inductive docData : Type :=
| DocJSON (doc : Document)
| BadJSON.

(** A file of the vector directory: its bytes, or a file the process may
    neither read nor write (permission denied). *)
Inductive vfile : Type :=
| VData (bytes : list Z)
| VDenied.

(** The store.  The Badger table holds only the keys ["doc:" + id]; the
    model indexes it by [id] and keeps it in ascending byte order of the
    keys, the order in which a Badger iterator yields them.  [vectors]
    gives, for an [id], the file the code opens for it,
    [filepath.Join(vectorDir, id + ".vec")].  For the ids that are plain file
    names ([plain_id], as the generated UUIDs are) these are the entries of
    the vector directory, one per id, and a write or a removal for one id
    touches no other; an id with path syntax may share its file with another
    id or name a file outside the directory, so the properties on what a
    write or a removal changes or leaves assume [plain_id].  The store holds
    no dimension. *)
Record VectorStore : Type := {
  db : list (string * docData);
  db_closed : bool;
  vectors : gmap string vfile
}.

Definition empty_store : VectorStore :=
  {| db := []; db_closed := false; vectors := ∅ |}.


(** *** The Badger table *)

(** [txn.Set(key, value)]: replaces the value of an existing key, inserts a
    new key at its place in key order. *)
Fixpoint db_set (k : string) (v : docData) (l : list (string * docData)) : list (string * docData) :=
  match l with
  | [] => [(k, v)]
  | (k', v') :: rest =>
      match String.compare k k' with
      | Eq => (k, v) :: rest
      | Lt => (k, v) :: l
      | Gt => (k', v') :: db_set k v rest
      end
  end.

(** [txn.Get(key)]. *)
Fixpoint db_get (k : string) (l : list (string * docData)) : option docData :=
  match l with
  | [] => None
  | (k', v') :: rest => if String.eqb k k' then Some v' else db_get k rest
  end.

(** [txn.Delete(key)]: succeeds whether the key is there or not. *)
Fixpoint db_delete (k : string) (l : list (string * docData)) : list (string * docData) :=
  match l with
  | [] => []
  | (k', v') :: rest =>
      if String.eqb k k' then db_delete k rest else (k', v') :: db_delete k rest
  end.

(** [db.Update(fn)]: fails on a closed handle, else commits [fn]'s writes. *)
Definition db_Update (vs : VectorStore) (fn : list (string * docData) -> list (string * docData))
  : result unit * VectorStore :=
  if db_closed vs then (Fail ErrDBClosed, vs)
  else (Ok tt, {| db := fn (db vs); db_closed := false; vectors := vectors vs |}).

(** [db.View(fn)]. *)
Definition db_View {A : Type} (vs : VectorStore) (fn : list (string * docData) -> result A) : result A :=
  if db_closed vs then Fail ErrDBClosed else fn (db vs).

(** *** The vector directory *)

(** [os.ReadFile]. *)
Definition ReadFile (fs : gmap string vfile) (id : string) : result (list Z) :=
  match fs !! id with
  | None => Fail ErrNotExist
  | Some VDenied => Fail ErrPermission
  | Some (VData bytes) => Ok bytes
  end.

(** [os.WriteFile]: creates or truncates the file. *)
Definition WriteFile (fs : gmap string vfile) (id : string) (data : list Z)
  : result unit * gmap string vfile :=
  match fs !! id with
  | Some VDenied => (Fail ErrPermission, fs)
  | _ => (Ok tt, <[id := VData data]> fs)
  end.

(** [os.Remove]: needs the directory only, not the file's own permissions. *)
Definition Remove (fs : gmap string vfile) (id : string) : result unit * gmap string vfile :=
  match fs !! id with
  | None => (Fail ErrNotExist, fs)
  | Some _ => (Ok tt, delete id fs)
  end.

(** *** AddDocument *)

(** [byte(x >> k)] of a [uint32]. *)
Definition byte_of (x : Z) (k : Z) : Z := Z.land (Z.shiftr x k) 255.

(** The loop [for i, v := range vector] that fills [vectorData]. *)
Fixpoint encode_loop (vector : list float32) (i : nat) (vectorData : list Z) : result (list Z) :=
  match vector with
  | [] => Ok vectorData
  | v :: rest =>
      let byte0 := byte_of (to_uint32 v) 0 in
      let byte1 := byte_of (to_uint32 v) 8 in
      let byte2 := byte_of (to_uint32 v) 16 in
      let byte3 := byte_of (to_uint32 v) 24 in
      d0 <- assign vectorData (i * 4 + 0) byte0 ;;
      d1 <- assign d0 (i * 4 + 1) byte1 ;;
      d2 <- assign d1 (i * 4 + 2) byte2 ;;
      d3 <- assign d2 (i * 4 + 3) byte3 ;;
      encode_loop rest (S i) d3
  end.

Definition AddDocument (vs : VectorStore) (doc : Document) (vector : list float32)
  : result unit * VectorStore :=
  let docData := DocJSON doc in
  match db_Update vs (db_set (ID doc) docData) with
  | (Fail e, vs1) => (Fail (Wrap "无法存储文档" e), vs1)
  | (Panic, vs1) => (Panic, vs1)
  | (Ok _, vs1) =>
      match encode_loop vector 0 (replicate (length vector * 4) 0) with
      | Panic => (Panic, vs1)
      | Fail e => (Fail e, vs1)
      | Ok vectorData =>
          match WriteFile (vectors vs1) (ID doc) vectorData with
          | (Ok _, fs) => (Ok tt, {| db := db vs1; db_closed := db_closed vs1; vectors := fs |})
          | (Fail e, fs) =>
              (Fail (Wrap "无法存储向量" e), {| db := db vs1; db_closed := db_closed vs1; vectors := fs |})
          | (Panic, fs) => (Panic, {| db := db vs1; db_closed := db_closed vs1; vectors := fs |})
          end
      end
  end.

(** *** GetDocument and GetVector *)

Definition GetDocument (vs : VectorStore) (id : string) : result Document :=
  let got :=
    db_View vs (fun table =>
      match db_get id table with
      | None => Fail ErrKeyNotFound
      | Some val => Ok val
      end) in
  match got with
  | Panic => Panic
  | Fail e =>
      if IsKeyNotFound e then Fail (Errorf "文档不存在" id)
      else Fail (Wrap "获取文档失败" e)
  | Ok (DocJSON doc) => Ok doc
  | Ok BadJSON => Fail (Wrap "解析文档失败" ErrSyntax)
  end.

(** The loop [for i := 0; i < vectorLen; i++] that rebuilds the floats;
    [n] counts the iterations left. *)
Fixpoint decode_loop (vectorData : list Z) (n : nat) (i : nat) (vector : list float32)
  : result (list float32) :=
  match n with
  | O => Ok vector
  | S n' =>
      byte0 <- index vectorData (i * 4 + 0) ;;
      byte1 <- index vectorData (i * 4 + 1) ;;
      byte2 <- index vectorData (i * 4 + 2) ;;
      byte3 <- index vectorData (i * 4 + 3) ;;
      let bits := Z.lor (Z.lor (Z.lor byte0 (Z.shiftl byte1 8)) (Z.shiftl byte2 16)) (Z.shiftl byte3 24) in
      vector' <- assign vector i (of_uint32 bits) ;;
      decode_loop vectorData n' (S i) vector'
  end.

Definition GetVector (vs : VectorStore) (id : string) : result (list float32) :=
  match ReadFile (vectors vs) id with
  | Fail e => Fail (Wrap "无法读取向量" e)
  | Panic => Panic
  | Ok vectorData =>
      let vectorLen := (length vectorData / 4)%nat in
      decode_loop vectorData vectorLen 0 (replicate vectorLen zero)
  end.

(** *** cosineSimilarity *)

Fixpoint cosine_loop (a b : list float32) (n : nat) (i : nat)
  (acc : float32 * float32 * float32) : result (float32 * float32 * float32) :=
  match n with
  | O => Ok acc
  | S n' =>
      let '(dotProduct, normA, normB) := acc in
      ai <- index a i ;;
      bi <- index b i ;;
      cosine_loop a b n' (S i)
        (add dotProduct (mul ai bi), add normA (mul ai ai), add normB (mul bi bi))
  end.

Definition cosineSimilarity (a b : list float32) : result float32 :=
  if negb (length a =? length b)%nat then Ok zero
  else
    sums <- cosine_loop a b (length a) 0 (zero, zero, zero) ;;
    let '(dotProduct, normA, normB) := sums in
    if eqb normA zero || eqb normB zero then Ok zero
    else Ok (div dotProduct
               (mul (of_float64 (sqrt64 (to_float64 normA)))
                    (of_float64 (sqrt64 (to_float64 normB))))).

(** *** SearchSimilarWithFilter *)

Record docSimilarity : Type := {
  sim_id : string;
  similarity : float32
}.

(** The loop over [docIDs]: an id whose vector cannot be read is skipped. *)
Fixpoint similarity_loop (vs : VectorStore) (queryVector : list float32)
  (docIDs : list string) (similarities : list docSimilarity) : result (list docSimilarity) :=
  match docIDs with
  | [] => Ok similarities
  | id :: rest =>
      match GetVector vs id with
      | Fail _ => similarity_loop vs queryVector rest similarities
      | Panic => Panic
      | Ok vector =>
          sim <- cosineSimilarity queryVector vector ;;
          similarity_loop vs queryVector rest
            (similarities ++ [{| sim_id := id; similarity := sim |}])
      end
  end.

(** The loop that fetches the documents of the ranked ids: an id whose
    document cannot be fetched is skipped. *)
Fixpoint details_loop (vs : VectorStore) (similarities : list docSimilarity)
  (resultDocs : list Document) (resultScores : list float32)
  : result (list Document * list float32) :=
  match similarities with
  | [] => Ok (resultDocs, resultScores)
  | sim :: rest =>
      match GetDocument vs (sim_id sim) with
      | Fail _ => details_loop vs rest resultDocs resultScores
      | Panic => Panic
      | Ok doc => details_loop vs rest (resultDocs ++ [doc]) (resultScores ++ [similarity sim])
      end
  end.

(** [filter] is a parameter of the Go function, [None] for [nil]; the body
    never mentions it. *)
Definition SearchSimilarWithFilter `{SliceSort} (vs : VectorStore) (queryVector : list float32)
  (limit : Z) (filter : option (Document -> bool))
  : result (list Document * list float32) :=
  let listed :=
    db_View vs (fun table => Ok (fold_left (fun docIDs kv => docIDs ++ [fst kv]) table [])) in
  match listed with
  | Fail e => Fail (Wrap "获取文档列表失败" e)
  | Panic => Panic
  | Ok docIDs =>
      similarities <- similarity_loop vs queryVector docIDs [] ;;
      let similarities :=
        sort_slice _ (fun x y => gtb (similarity x) (similarity y)) similarities in
      let similarities :=
        if (0 <? limit) && (limit <? Z.of_nat (length similarities))
        then take (Z.to_nat limit) similarities
        else similarities in
      details_loop vs similarities [] []
  end.

Definition SearchSimilar `{SliceSort} (vs : VectorStore) (queryVector : list float32) (limit : Z)
  : result (list Document * list float32) :=
  SearchSimilarWithFilter vs queryVector limit None.

(** *** DeleteDocument *)

Definition DeleteDocument (vs : VectorStore) (id : string) : result unit * VectorStore :=
  match db_Update vs (db_delete id) with
  | (Fail e, vs1) => (Fail (Wrap "删除文档失败" e), vs1)
  | (Panic, vs1) => (Panic, vs1)
  | (Ok _, vs1) =>
      let '(removed, fs) := Remove (vectors vs1) id in
      let vs2 := {| db := db vs1; db_closed := db_closed vs1; vectors := fs |} in
      match removed with
      | Fail e => if negb (IsNotExist e) then (Fail (Wrap "删除向量失败" e), vs2) else (Ok tt, vs2)
      | Panic => (Panic, vs2)
      | Ok _ => (Ok tt, vs2)
      end
  end.

(** *** ListDocuments *)

Fixpoint list_loop (table : list (string * docData)) (docs : list Document) : result (list Document) :=
  match table with
  | [] => Ok docs
  | (_, DocJSON doc) :: rest => list_loop rest (docs ++ [doc])
  | (_, BadJSON) :: _ => Fail (Wrap "解析文档失败" ErrSyntax)
  end.

Definition ListDocuments (vs : VectorStore) : result (list Document) :=
  match db_View vs (fun table => list_loop table []) with
  | Fail e => Fail (Wrap "获取文档列表失败" e)
  | r => r
  end.

End Storage.

(** ** Go's package [strings] *)

Module Strings.

(** The line feed, Go's ["\n"]. *)
Definition LF : string := String "010"%char "".

(** [strings.Split(s, sep)] for a non-empty [sep] (every call of the code
    passes a literal): the pieces between the successive non-overlapping
    occurrences of [sep], found left to right.  [skip] counts the bytes of a
    matched separator still to pass; [piece] is the piece being read. *)
Fixpoint Split_from (sep : string) (skip : nat) (piece : string) (s : string) : list string :=
  match s with
  | EmptyString => [piece]
  | String c s' =>
      match skip with
      | S k => Split_from sep k piece s'
      | O =>
          if String.prefix sep s
          then piece :: Split_from sep (String.length sep - 1) "" s'
          else Split_from sep 0 (piece +:+ String c "") s'
      end
  end.

Definition Split (s sep : string) : list string := Split_from sep 0 "" s.

(** [strings.Join(elems, sep)]. *)
Fixpoint Join (elems : list string) (sep : string) : string :=
  match elems with
  | [] => ""
  | [e] => e
  | e :: rest => e +:+ sep +:+ Join rest sep
  end.

End Strings.

(** ** Package [processor]: the chunker and the chat renderer *)

Module Processor.
Import Go Strings.

(** The helper [min] on ints. *)
Definition min (a b : Z) : Z := if a <? b then a else b.

Definition delimiters : list string := ["."; "!"; "?"; "；"; "。"; "！"; "？"].

(** The inner loop of [splitIntoSentences] over the [parts] of one sentence:
    empty parts are dropped, every part but the last gets the delimiter back. *)
Fixpoint rejoin_parts (delimiter : string) (parts : list string) : list string :=
  match parts with
  | [] => []
  | part :: rest =>
      if String.eqb part "" then rejoin_parts delimiter rest
      else
        match rest with
        | [] => [part]
        | _ :: _ => (part +:+ delimiter) :: rejoin_parts delimiter rest
        end
  end.

Definition splitIntoSentences (text : string) : list string :=
  fold_left
    (fun sentences delimiter =>
       fold_left (fun newSentences s => newSentences ++ rejoin_parts delimiter (Split s delimiter))
         sentences [])
    delimiters [text].

(** The state of the loops of [ChunkText]: the chunks emitted so far and the
    chunk being filled. *)
Definition chunker : Type := (list string * string)%type.

(** The block that emits a full [currentChunk] and seeds the next one with the
    trailing [overlap] words of it; it runs only when [currentChunk != ""]. *)
Definition flush (overlap : Z) (st : chunker) : chunker :=
  let '(chunks, currentChunk) := st in
  if String.eqb currentChunk "" then st
  else
    let chunks := chunks ++ [currentChunk] in
    let words := Split currentChunk " " in
    if (0 <? Z.of_nat (length words)) && (0 <? overlap)
    then
      let overlapStart := Z.of_nat (length words) - min (Z.of_nat (length words)) overlap in
      (chunks, Join (drop (Z.to_nat overlapStart) words) " ")
    else (chunks, "").

(** [currentChunk += sep] when it is not empty, then [currentChunk += piece]. *)
Definition extend (currentChunk sep piece : string) : string :=
  (if String.eqb currentChunk "" then currentChunk else currentChunk +:+ sep) +:+ piece.

(** One turn of the loop over the sentences of a long paragraph. *)
Definition add_sentence (chunkSize overlap : Z) (st : chunker) (sentence : string) : chunker :=
  let '(chunks, currentChunk) := st in
  if len currentChunk + len sentence + 1 <=? chunkSize
  then (chunks, extend currentChunk " " sentence)
  else
    let '(chunks, currentChunk) := flush overlap st in
    if len sentence >? chunkSize
    then (chunks ++ [sentence], "")
    else (chunks, extend currentChunk " " sentence).

(** One turn of the loop over the paragraphs. *)
Definition add_paragraph (chunkSize overlap : Z) (st : chunker) (paragraph : string) : chunker :=
  if len paragraph >? chunkSize
  then fold_left (add_sentence chunkSize overlap) (splitIntoSentences paragraph) st
  else
    let '(chunks, currentChunk) := st in
    if len currentChunk + len paragraph + 2 <=? chunkSize
    then (chunks, extend currentChunk (LF +:+ LF) paragraph)
    else
      let '(chunks, currentChunk) := flush overlap st in
      (chunks, currentChunk +:+ paragraph).

Definition ChunkText (text : string) (chunkSize overlap : Z) : list string :=
  let chunkSize := if chunkSize <=? 0 then 1000 else chunkSize in
  let overlap := if (overlap <? 0) || (overlap >=? chunkSize) then Z.quot chunkSize 5 else overlap in
  let paragraphs := Split text (LF +:+ LF) in
  let '(chunks, currentChunk) := fold_left (add_paragraph chunkSize overlap) paragraphs ([], "") in
  if String.eqb currentChunk "" then chunks else chunks ++ [currentChunk].

Record ChatMessage : Type := {
  Role : string;
  MsgContent : string;
  Time : string
}.

Record ChatHistory : Type := {
  Messages : list ChatMessage;
  Title : string;
  ID : string
}.

(** The text written for one message. *)
Definition render_message (msg : ChatMessage) : string :=
  let rolePrefix :=
    if String.eqb (Role msg) "user" then "用户: "
    else if String.eqb (Role msg) "assistant" then "助手: "
    else if String.eqb (Role msg) "system" then "系统: "
    else Role msg +:+ ": " in
  let timeInfo := if String.eqb (Time msg) "" then "" else " [" +:+ Time msg +:+ "]" in
  rolePrefix +:+ timeInfo +:+ LF +:+ MsgContent msg +:+ LF +:+ LF.

Definition ProcessChatHistory (chat : ChatHistory) : result (list string) :=
  match Messages chat with
  | [] => Fail (ErrorsNew "聊天历史为空")
  | _ :: _ =>
      let chatText :=
        fold_left (fun builder msg => builder +:+ render_message msg) (Messages chat)
          ("聊天标题: " +:+ Title chat +:+ LF +:+ LF) in
      Ok (ChunkText chatText 1000 200)
  end.

(** [CreateChatMetadata]; [upload_time] is [time.Now().Format(time.RFC3339)]. *)
Definition CreateChatMetadata (upload_time : string) (chat : ChatHistory) : gmap string string :=
  let metadata : gmap string string :=
    <["upload_time" := upload_time]>
      (<["message_count" := pretty (Z.of_nat (length (Messages chat)))]>
         (<["chat_id" := ID chat]> (<["title" := Title chat]> ∅))) in
  match Messages chat with
  | [] => metadata
  | firstMsg :: _ =>
      let lastMsg := List.last (Messages chat) firstMsg in
      let metadata :=
        if String.eqb (Time firstMsg) "" then metadata
        else <["start_time" := Time firstMsg]> metadata in
      if String.eqb (Time lastMsg) "" then metadata
      else <["end_time" := Time lastMsg]> metadata
  end.

(** [ExtractRecentChat]: the last [n] messages of the history. *)
Definition ExtractRecentChat (chat : ChatHistory) (n : Z) : ChatHistory :=
  if (n <=? 0) || (Z.of_nat (length (Messages chat)) <=? n) then chat
  else
    {| Messages := drop (Z.to_nat (Z.of_nat (length (Messages chat)) - n)) (Messages chat);
       Title := Title chat;
       ID := ID chat |}.

End Processor.

(** ** Package [storage]: the chat archive *)

Module ChatArchive.
Import Go Processor.

(** [CreatedAt] and [UpdatedAt] are instants ([time.Time] read through its
    JSON text, which keeps the instant and drops the monotonic reading). *)
Record ChatInfo : Type := {
  InfoID : string;
  InfoTitle : string;
  Character : string;
  CreatedAt : Z;
  UpdatedAt : Z;
  MessageCount : Z
}.

(** The content of a file of the archive, read through what [json.Unmarshal]
    makes of it: the object [{"info": ..., "messages": ...}] of a transcript,
    the array of a character's index, or bytes that are neither.
    [ChatJSON info messages] is what [json.MarshalIndent] of [info] and
    [messages] decodes to when their strings are valid UTF-8
    ([Go.ValidString]); in other strings the offending bytes are replaced, so
    the properties that read a chat back as it was given assume so. *)
Inductive jsonData : Type :=
| ChatJSON (info : ChatInfo) (messages : list ChatMessage)
| IndexJSON (chats : list ChatInfo)
| NotJSON.

(** A file: its content, and whether the process may read and write it. *)
Record file : Type := {
  content : jsonData;
  accessible : bool
}.

(** The archive under [basePath/chats]: the character directories, and
    whether [chats] itself can take a new directory; [files] gives, for a
    character and a file name, the file the code opens for them,
    [filepath.Join(basePath, "chats", character, name)].  For a character and
    a name that are plain file names ([Go.plain_name]) these are the entries
    of the character directories, one per pair, and a write or a removal for
    one pair touches no other.  [filepath.Join] cleans its result, so a
    character or a chat id with path syntax (["./_info"], ["../Bob/c1"]) may
    name the file of another pair: the properties on what a write or a
    removal changes or leaves assume plain names. *)
Record ChatStore : Type := {
  dirs : gset string;
  files : gmap (string * string) file;
  root_writable : bool
}.

(** [getChatPath]: the file [chatID + ".json"] of the character. *)
Definition getChatPath (character chatID : string) : string * string :=
  (character, chatID +:+ ".json").

Definition getCharacterInfoPath (character : string) : string * string :=
  (character, "_info.json").

(** [os.MkdirAll(charPath, 0755)]. *)
Definition MkdirAll (cs : ChatStore) (character : string) : result unit * ChatStore :=
  if decide (character ∈ dirs cs) then (Ok tt, cs)
  else if root_writable cs
  then (Ok tt, {| dirs := {[character]} ∪ dirs cs; files := files cs; root_writable := true |})
  else (Fail ErrPermission, cs).

(** [os.Stat(path)]: needs no permission on the file itself. *)
Definition Stat (cs : ChatStore) (path : string * string) : result unit :=
  match files cs !! path with
  | Some _ => Ok tt
  | None => Fail ErrNotExist
  end.

Definition ReadFile (cs : ChatStore) (path : string * string) : result jsonData :=
  match files cs !! path with
  | None => Fail ErrNotExist
  | Some f => if accessible f then Ok (content f) else Fail ErrPermission
  end.

Definition WriteFile (cs : ChatStore) (path : string * string) (data : jsonData)
  : result unit * ChatStore :=
  let written :=
    {| dirs := dirs cs;
       files := <[path := {| content := data; accessible := true |}]> (files cs);
       root_writable := root_writable cs |} in
  match files cs !! path with
  | None => if decide (fst path ∈ dirs cs) then (Ok tt, written) else (Fail ErrNotExist, cs)
  | Some f => if accessible f then (Ok tt, written) else (Fail ErrPermission, cs)
  end.

Definition Remove (cs : ChatStore) (path : string * string) : result unit * ChatStore :=
  match files cs !! path with
  | None => (Fail ErrNotExist, cs)
  | Some _ =>
      (Ok tt, {| dirs := dirs cs; files := delete path (files cs); root_writable := root_writable cs |})
  end.

(** [json.Unmarshal] into [struct { Info ChatInfo }]. *)
Definition Unmarshal_chat (data : jsonData) : result ChatInfo :=
  match data with
  | ChatJSON info _ => Ok info
  | _ => Fail ErrSyntax
  end.

(** [json.Unmarshal] into [[]ChatInfo]. *)
Definition Unmarshal_index (data : jsonData) : result (list ChatInfo) :=
  match data with
  | IndexJSON chats => Ok chats
  | _ => Fail ErrSyntax
  end.

(** [json.Unmarshal] into [struct { Info ChatInfo; Messages []ChatMessage }]. *)
Definition Unmarshal_saved (data : jsonData) : result (ChatInfo * list ChatMessage) :=
  match data with
  | ChatJSON info messages => Ok (info, messages)
  | _ => Fail ErrSyntax
  end.

Definition set_CreatedAt (info : ChatInfo) (t : Z) : ChatInfo :=
  {| InfoID := InfoID info; InfoTitle := InfoTitle info; Character := Character info;
     CreatedAt := t; UpdatedAt := UpdatedAt info; MessageCount := MessageCount info |}.

(** The loop of [updateCharacterInfo]: the first entry with the id is
    replaced; [None] when no entry has it ([updated] stays false). *)
Fixpoint replace_info (chatInfo : ChatInfo) (chats : list ChatInfo) : option (list ChatInfo) :=
  match chats with
  | [] => None
  | info :: rest =>
      if String.eqb (InfoID info) (InfoID chatInfo) then Some (chatInfo :: rest)
      else
        match replace_info chatInfo rest with
        | Some rest' => Some (info :: rest')
        | None => None
        end
  end.

Definition updateCharacterInfo (cs : ChatStore) (character : string) (chatInfo : ChatInfo)
  : result unit * ChatStore :=
  let infoPath := getCharacterInfoPath character in
  let loaded : result (list ChatInfo) :=
    match Stat cs infoPath with
    | Ok _ =>
        match ReadFile cs infoPath with
        | Ok data =>
            match Unmarshal_index data with
            | Ok chats => Ok chats
            | _ => Ok []
            end
        | Fail e => Fail (Wrap "无法读取角色信息" e)
        | Panic => Panic
        end
    | _ => Ok []
    end in
  match loaded with
  | Fail e => (Fail e, cs)
  | Panic => (Panic, cs)
  | Ok chats =>
      let chats :=
        match replace_info chatInfo chats with
        | Some updatedChats => updatedChats
        | None => chats ++ [chatInfo]
        end in
      WriteFile cs infoPath (IndexJSON chats)
  end.

(** [SaveChat]; [now1] and [now2] are the two readings of [time.Now()], for
    [CreatedAt] and for [UpdatedAt]. *)
Definition SaveChat (cs : ChatStore) (now1 now2 : Z) (character : string) (chat : ChatHistory)
  : result unit * ChatStore :=
  match MkdirAll cs character with
  | (Fail e, cs1) => (Fail (Wrap "无法创建角色目录" e), cs1)
  | (Panic, cs1) => (Panic, cs1)
  | (Ok _, cs1) =>
      let chatInfo :=
        {| InfoID := ID chat; InfoTitle := Title chat; Character := character;
           CreatedAt := now1; UpdatedAt := now2;
           MessageCount := Z.of_nat (length (Messages chat)) |} in
      let chatPath := getChatPath character (ID chat) in
      let chatInfo :=
        match Stat cs1 chatPath with
        | Ok _ =>
            match ReadFile cs1 chatPath with
            | Ok existingData =>
                match Unmarshal_chat existingData with
                | Ok existingInfo => set_CreatedAt chatInfo (CreatedAt existingInfo)
                | _ => chatInfo
                end
            | _ => chatInfo
            end
        | _ => chatInfo
        end in
      match WriteFile cs1 chatPath (ChatJSON chatInfo (Messages chat)) with
      | (Fail e, cs2) => (Fail (Wrap "无法保存聊天记录" e), cs2)
      | (Panic, cs2) => (Panic, cs2)
      | (Ok _, cs2) => updateCharacterInfo cs2 character chatInfo
      end
  end.

Definition GetChat (cs : ChatStore) (character chatID : string) : result ChatHistory :=
  let chatPath := getChatPath character chatID in
  match Stat cs chatPath with
  | Fail ErrNotExist => Fail (Errorf "聊天记录不存在" chatID)
  | _ =>
      match ReadFile cs chatPath with
      | Fail e => Fail (Wrap "无法读取聊天记录" e)
      | Panic => Panic
      | Ok data =>
          match Unmarshal_saved data with
          | Ok (info, messages) =>
              Ok {| Messages := messages; Title := InfoTitle info; ID := InfoID info |}
          | Fail e => Fail (Wrap "无法解析聊天记录" e)
          | Panic => Panic
          end
      end
  end.

Definition ListChats (cs : ChatStore) (character : string) : result (list ChatInfo) :=
  let infoPath := getCharacterInfoPath character in
  match Stat cs infoPath with
  | Fail ErrNotExist => Ok []
  | _ =>
      match ReadFile cs infoPath with
      | Fail e => Fail (Wrap "无法读取角色信息" e)
      | Panic => Panic
      | Ok data =>
          match Unmarshal_index data with
          | Ok chats => Ok chats
          | Fail e => Fail (Wrap "无法解析角色信息" e)
          | Panic => Panic
          end
      end
  end.

(** [DeleteChat]: the transcript is removed first, then the index is
    rewritten without the entries of the id. *)
Definition DeleteChat (cs : ChatStore) (character chatID : string) : result unit * ChatStore :=
  let chatPath := getChatPath character chatID in
  match Stat cs chatPath with
  | Fail ErrNotExist => (Fail (Errorf "聊天记录不存在" chatID), cs)
  | _ =>
      match Remove cs chatPath with
      | (Fail e, cs1) => (Fail (Wrap "无法删除聊天记录" e), cs1)
      | (Panic, cs1) => (Panic, cs1)
      | (Ok _, cs1) =>
          let infoPath := getCharacterInfoPath character in
          match Stat cs1 infoPath with
          | Ok _ =>
              match ReadFile cs1 infoPath with
              | Fail e => (Fail (Wrap "无法读取角色信息" e), cs1)
              | Panic => (Panic, cs1)
              | Ok data =>
                  match Unmarshal_index data with
                  | Fail e => (Fail (Wrap "无法解析角色信息" e), cs1)
                  | Panic => (Panic, cs1)
                  | Ok chats =>
                      let updatedChats :=
                        List.filter (fun info => negb (String.eqb (InfoID info) chatID)) chats in
                      match WriteFile cs1 infoPath (IndexJSON updatedChats) with
                      | (Fail e, cs2) => (Fail (Wrap "无法保存角色信息" e), cs2)
                      | (Panic, cs2) => (Panic, cs2)
                      | (Ok _, cs2) => (Ok tt, cs2)
                      end
                  end
              end
          | _ => (Ok tt, cs1)
          end
      end
  end.

End ChatArchive.

(** ** Package [api]: the upload handlers *)

Module Api.
Import Go Float32 Processor Storage ChatArchive.

(** A JSON value of a response body. *)
Inductive jvalue : Type :=
| JString (s : string)
| JInt (n : Z)
| JStrings (l : list string).

(** [c.JSON(status, gin.H{...})]. *)
Record Response : Type := {
  status : Z;
  body : list (string * jvalue)
}.

(** The field of a response body under [key], if any. *)
Fixpoint field (key : string) (h : list (string * jvalue)) : option jvalue :=
  match h with
  | [] => None
  | (k, v) :: rest => if String.eqb key k then Some v else field key rest
  end.

(** What the handlers take from outside the store: the embedding model (its
    [n]-th call on a text), the UUIDs drawn, and the clock readings. *)
Record World : Type := {
  GetEmbedding : nat -> string -> result (list float32);
  chat_uuid : string;
  doc_uuid : nat -> string;
  upload_time : nat -> string;
  title_time : string;
  save_now1 : Z;
  save_now2 : Z
}.

(** How the loop over the chunks ends: it runs to its end with the ids
    drawn, or the handler answers from inside it and returns, or a call
    panics. *)
Inductive loop_exit : Type :=
| Completed (docIDs : list string)
| Responded (r : Response)
| Crashed.

Definition error_response (msg : string) (err : error) : Response :=
  {| status := 500; body := [("error", JString (msg +:+ ": " +:+ Error err))] |}.

(** The loop [for i, chunk := range chunks] shared by the upload handlers;
    [mkDoc i docID chunk] is the document literal of the handler and
    [storeMsg] its message for a failed [AddDocument]. *)
Fixpoint upload_loop (w : World) (mkDoc : nat -> string -> string -> Document)
  (storeMsg : string) (chunks : list string) (i : nat) (docIDs : list string)
  (vs : VectorStore) : loop_exit * VectorStore :=
  match chunks with
  | [] => (Completed docIDs, vs)
  | chunk :: rest =>
      let docID := doc_uuid w i in
      let docIDs := docIDs ++ [docID] in
      let doc := mkDoc i docID chunk in
      match GetEmbedding w i chunk with
      | Fail err => (Responded (error_response "生成嵌入向量失败" err), vs)
      | Panic => (Crashed, vs)
      | Ok vector =>
          match AddDocument vs doc vector with
          | (Fail err, vs') => (Responded (error_response storeMsg err), vs')
          | (Panic, vs') => (Crashed, vs')
          | (Ok _, vs') => upload_loop w mkDoc storeMsg rest (S i) docIDs vs'
          end
      end
  end.

Record DatabankRequest : Type := {
  Name : string;
  ReqContent : string;
  Type_ : string
}.

Definition databank_doc (w : World) (req : DatabankRequest) (chunkNum : nat)
  (i : nat) (docID chunk : string) : Document :=
  {| Storage.ID := docID;
     Content := chunk;
     DocMetadata :=
       {| Source := Type_ req;
          Storage.Title := Name req;
          Tags := ["databank"; Type_ req];
          Custom := {["upload_time" := upload_time w i]};
          ChunkID := Z.of_nat i;
          ChunkNum := Z.of_nat chunkNum |} |}.

(** [handleDatabankUpload]; [req] is [None] when [ShouldBindJSON] fails.  The
    result is [None] when the handler panics. *)
Definition handleDatabankUpload (w : World) (vs : VectorStore) (req : option DatabankRequest)
  : option Response * VectorStore :=
  match req with
  | None => (Some {| status := 400; body := [("error", JString "无效的请求参数")] |}, vs)
  | Some req =>
      if String.eqb (ReqContent req) ""
      then (Some {| status := 400; body := [("error", JString "内容不能为空")] |}, vs)
      else
        let chunks := ChunkText (ReqContent req) 1000 200 in
        match upload_loop w (databank_doc w req (length chunks)) "存储文档失败" chunks 0 [] vs with
        | (Responded r, vs') => (Some r, vs')
        | (Crashed, vs') => (None, vs')
        | (Completed docIDs, vs') =>
            (Some {| status := 200;
                     body := [("message", JString "文档上传成功");
                              ("document_ids", JStrings docIDs);
                              ("chunks", JInt (Z.of_nat (length chunks)))] |}, vs')
        end
  end.

Definition character_chat_doc (character : string) (chatHistory : ChatHistory)
  (metadata : gmap string string) (chunkNum : nat) (i : nat) (docID chunk : string) : Document :=
  {| Storage.ID := docID;
     Content := chunk;
     DocMetadata :=
       {| Source := "character_chat";
          Storage.Title := Processor.Title chatHistory;
          Tags := ["chat"; "character"; character];
          Custom := metadata;
          ChunkID := Z.of_nat i;
          ChunkNum := Z.of_nat chunkNum |} |}.

(** [handleCharacterChatUpload]; [character] is the route parameter and
    [bound] is [None] when [ShouldBindJSON] fails. *)
Definition handleCharacterChatUpload (w : World) (vs : VectorStore) (cs : ChatStore)
  (character : string) (bound : option ChatHistory)
  : option Response * VectorStore * ChatStore :=
  if String.eqb character ""
  then (Some {| status := 400; body := [("error", JString "未指定角色名称")] |}, vs, cs)
  else
    match bound with
    | None => (Some {| status := 400; body := [("error", JString "无效的聊天记录格式")] |}, vs, cs)
    | Some chatHistory =>
        match Messages chatHistory with
        | [] => (Some {| status := 400; body := [("error", JString "聊天记录为空")] |}, vs, cs)
        | _ :: _ =>
            let chatHistory :=
              if String.eqb (Processor.ID chatHistory) ""
              then {| Messages := Messages chatHistory; Processor.Title := Processor.Title chatHistory;
                      Processor.ID := chat_uuid w |}
              else chatHistory in
            let chatHistory :=
              if String.eqb (Processor.Title chatHistory) ""
              then {| Messages := Messages chatHistory;
                      Processor.Title := character +:+ "的聊天记录 " +:+ title_time w;
                      Processor.ID := Processor.ID chatHistory |}
              else chatHistory in
            match SaveChat cs (save_now1 w) (save_now2 w) character chatHistory with
            | (Fail err, cs') => (Some (error_response "保存聊天记录失败" err), vs, cs')
            | (Panic, cs') => (None, vs, cs')
            | (Ok _, cs') =>
                match ProcessChatHistory chatHistory with
                | Fail err => (Some (error_response "处理聊天记录失败" err), vs, cs')
                | Panic => (None, vs, cs')
                | Ok chunks =>
                    let metadata := CreateChatMetadata (upload_time w 0) chatHistory in
                    let metadata := <["character" := character]> metadata in
                    match upload_loop w
                            (character_chat_doc character chatHistory metadata (length chunks))
                            "存储聊天记录失败" chunks 0 [] vs with
                    | (Responded r, vs') => (Some r, vs', cs')
                    | (Crashed, vs') => (None, vs', cs')
                    | (Completed docIDs, vs') =>
                        (Some {| status := 200;
                                 body := [("message", JString "聊天记录上传成功");
                                          ("character", JString character);
                                          ("chat_id", JString (Processor.ID chatHistory));
                                          ("document_ids", JStrings docIDs);
                                          ("chunks", JInt (Z.of_nat (length chunks)))] |}, vs', cs')
                    end
                end
            end
        end
    end.

(** The closure [handleChatSearch] passes as [filter]: the document carries
    the tag ["chat"]. *)
Definition isChatRecord (doc : Document) : bool :=
  existsb (fun tag => String.eqb tag "chat") (Tags (DocMetadata doc)).

(** *** The handlers that read, search and delete *)

(** What a handler sends when its success body is not a flat object of
    strings and ints: the error object with its status, or
    [c.JSON(http.StatusOK, a)]. *)
Inductive answer (A : Type) : Type :=
| Refused (r : Response)
| Served (a : A).
Arguments Refused {A} r.
Arguments Served {A} a.

(** [handleListDocuments]. *)
Definition handleListDocuments (vs : VectorStore) : option (answer (list Document)) :=
  match ListDocuments vs with
  | Fail err => Some (Refused (error_response "获取文档列表失败" err))
  | Panic => None
  | Ok docs => Some (Served docs)
  end.




(** The request of the search handlers. *)
Record SearchRequest : Type := {
  Query : string;
  Limit : Z
}.

(** A value of a result row, [map[string]interface{}]. *)
Inductive rvalue : Type :=
| RString (s : string)
| RNumber (x : float32)
| RDocument (doc : Document).

Definition row : Type := gmap string rvalue.

(** The loop [for i, doc := range docs { results[i] = ... scores[i] ... }]
    over the slice made with [len(docs)] entries, [None] for a nil map. *)
Fixpoint results_loop (mkRow : Document -> float32 -> row) (docs : list Document)
  (scores : list float32) (i : nat) (results : list (option row)) : result (list (option row)) :=
  match docs with
  | [] => Ok results
  | doc :: rest =>
      score <- index scores i ;;
      results' <- assign results i (Some (mkRow doc score)) ;;
      results_loop mkRow rest scores (S i) results'
  end.

(** The body the three search handlers share, from the binding of the
    request to the rows; [search] is the call of the store and [mkRow] the
    map literal of the handler. *)
Definition search_rows (w : World) (req : option SearchRequest)
  (search : list float32 -> Z -> result (list Document * list float32))
  (mkRow : Document -> float32 -> row) : option (answer (string * list (option row))) :=
  match req with
  | None => Some (Refused {| status := 400; body := [("error", JString "无效的请求参数")] |})
  | Some req =>
      if String.eqb (Query req) ""
      then Some (Refused {| status := 400; body := [("error", JString "查询不能为空")] |})
      else
        let limit := if Limit req <=? 0 then 5 else Limit req in
        match GetEmbedding w 0 (Query req) with
        | Fail err => Some (Refused (error_response "生成查询向量失败" err))
        | Panic => None
        | Ok queryVector =>
            match search queryVector limit with
            | Fail err => Some (Refused (error_response "搜索失败" err))
            | Panic => None
            | Ok (docs, scores) =>
                match results_loop mkRow docs scores 0 (replicate (length docs) None) with
                | Ok results => Some (Served (Query req, results))
                | _ => None
                end
            end
        end
  end.

(** [handleSearch]: answers [{"query": ..., "results": ...}]. *)
Definition handleSearch `{SliceSort} (w : World) (vs : VectorStore) (req : option SearchRequest)
  : option (answer (string * list (option row))) :=
  search_rows w req (fun queryVector limit => SearchSimilar vs queryVector limit)
    (fun doc score => <["document" := RDocument doc]> (<["score" := RNumber score]> ∅)).

(** [handleDatabankSearch]: answers the rows alone. *)
Definition handleDatabankSearch `{SliceSort} (w : World) (vs : VectorStore)
  (req : option SearchRequest) : option (answer (list (option row))) :=
  match
    search_rows w req (fun queryVector limit => SearchSimilar vs queryVector limit)
      (fun doc score =>
         <["id" := RString (Storage.ID doc)]>
           (<["content" := RString (Content doc)]>
              (<["name" := RString (Storage.Title (DocMetadata doc))]>
                 (<["type" := RString (Source (DocMetadata doc))]>
                    (<["score" := RNumber score]> ∅)))))
  with
  | Some (Served (_, results)) => Some (Served results)
  | Some (Refused r) => Some (Refused r)
  | None => None
  end.

(** [handleChatSearch]: the search is called with the closure [isChatRecord]
    as its filter. *)
Definition handleChatSearch `{SliceSort} (w : World) (vs : VectorStore) (req : option SearchRequest)
  : option (answer (string * list (option row))) :=
  search_rows w req
    (fun queryVector limit => SearchSimilarWithFilter vs queryVector limit (Some isChatRecord))
    (fun doc score =>
       <["id" := RString (Storage.ID doc)]>
         (<["content" := RString (Content doc)]>
            (<["title" := RString (Storage.Title (DocMetadata doc))]>
               (<["chat_id" := RString (default "" (Custom (DocMetadata doc) !! "chat_id"))]>
                  (<["score" := RNumber score]> ∅))))).

(** [handleDatabankList]: the rows of the documents tagged ["databank"]. *)
Definition handleDatabankList (vs : VectorStore) : option (answer (list row)) :=
  match ListDocuments vs with
  | Fail err => Some (Refused (error_response "获取文档列表失败" err))
  | Panic => None
  | Ok docs =>
      Some (Served
        (fold_left
           (fun results doc =>
              let isDatabank :=
                existsb (fun tag => String.eqb tag "databank") (Tags (DocMetadata doc)) in
              if isDatabank
              then results ++ [<["id" := RString (Storage.ID doc)]>
                                 (<["name" := RString (Storage.Title (DocMetadata doc))]>
                                    (<["type" := RString (Source (DocMetadata doc))]> ∅))]
              else results)
           docs []))
  end.

(** *** The chat handlers *)

Definition chat_doc (chatHistory : ChatHistory) (metadata : gmap string string) (chunkNum : nat)
  (i : nat) (docID chunk : string) : Document :=
  {| Storage.ID := docID;
     Content := chunk;
     DocMetadata :=
       {| Source := "chat";
          Storage.Title := Processor.Title chatHistory;
          Tags := ["chat"; "conversation"];
          Custom := metadata;
          ChunkID := Z.of_nat i;
          ChunkNum := Z.of_nat chunkNum |} |}.

(** [handleChatUpload]; [bound] is [None] when [ShouldBindJSON] fails. *)
Definition handleChatUpload (w : World) (vs : VectorStore) (bound : option ChatHistory)
  : option Response * VectorStore :=
  match bound with
  | None => (Some {| status := 400; body := [("error", JString "无效的聊天记录格式")] |}, vs)
  | Some chatHistory =>
      match Messages chatHistory with
      | [] => (Some {| status := 400; body := [("error", JString "聊天记录为空")] |}, vs)
      | _ :: _ =>
          let chatHistory :=
            if String.eqb (Processor.ID chatHistory) ""
            then {| Messages := Messages chatHistory; Processor.Title := Processor.Title chatHistory;
                    Processor.ID := chat_uuid w |}
            else chatHistory in
          let chatHistory :=
            if String.eqb (Processor.Title chatHistory) ""
            then {| Messages := Messages chatHistory;
                    Processor.Title := "聊天记录 " +:+ title_time w;
                    Processor.ID := Processor.ID chatHistory |}
            else chatHistory in
          match ProcessChatHistory chatHistory with
          | Fail err => (Some (error_response "处理聊天记录失败" err), vs)
          | Panic => (None, vs)
          | Ok chunks =>
              let metadata := CreateChatMetadata (upload_time w 0) chatHistory in
              match upload_loop w (chat_doc chatHistory metadata (length chunks))
                      "存储聊天记录失败" chunks 0 [] vs with
              | (Responded r, vs') => (Some r, vs')
              | (Crashed, vs') => (None, vs')
              | (Completed docIDs, vs') =>
                  (Some {| status := 200;
                           body := [("message", JString "聊天记录上传成功");
                                    ("chat_id", JString (Processor.ID chatHistory));
                                    ("document_ids", JStrings docIDs);
                                    ("chunks", JInt (Z.of_nat (length chunks)))] |}, vs')
              end
          end
      end
  end.

(** The loop of [handleChatDelete] that deletes the documents found: a
    failed deletion is printed and the loop goes on. *)
Fixpoint delete_loop (docsToDelete : list string) (deleteCount : Z) (vs : VectorStore)
  : option Z * VectorStore :=
  match docsToDelete with
  | [] => (Some deleteCount, vs)
  | docID :: rest =>
      match DeleteDocument vs docID with
      | (Ok _, vs') => delete_loop rest (deleteCount + 1) vs'
      | (Fail _, vs') => delete_loop rest deleteCount vs'
      | (Panic, vs') => (None, vs')
      end
  end.

(** [handleChatDelete]; [chatID] is the route parameter. *)
Definition handleChatDelete (vs : VectorStore) (chatID : string) : option Response * VectorStore :=
  if String.eqb chatID ""
  then (Some {| status := 400; body := [("error", JString "聊天ID不能为空")] |}, vs)
  else
    match ListDocuments vs with
    | Fail err => (Some (error_response "获取文档列表失败" err), vs)
    | Panic => (None, vs)
    | Ok docs =>
        let docsToDelete :=
          fold_left
            (fun docsToDelete doc =>
               if isChatRecord doc
                  && String.eqb (default "" (Custom (DocMetadata doc) !! "chat_id")) chatID
               then docsToDelete ++ [Storage.ID doc]
               else docsToDelete)
            docs [] in
        match delete_loop docsToDelete 0 vs with
        | (None, vs') => (None, vs')
        | (Some deleteCount, vs') =>
            (Some {| status := 200;
                     body := [("message",
                               JString ("聊天记录删除成功，共删除 " +:+ pretty deleteCount
                                        +:+ " 个文档"));
                              ("deleted_count", JInt deleteCount)] |}, vs')
        end
    end.

(** [handleCharacterChatGet]; [character] and [chatID] are the route
    parameters.  Every error of [GetChat] is answered with status 404. *)
Definition handleCharacterChatGet (cs : ChatStore) (character chatID : string)
  : option (answer ChatHistory) :=
  if String.eqb character "" || String.eqb chatID ""
  then Some (Refused {| status := 400; body := [("error", JString "未指定角色名称或聊天ID")] |})
  else
    match GetChat cs character chatID with
    | Fail err =>
        Some (Refused {| status := 404;
                         body := [("error", JString ("获取聊天记录失败" +:+ ": " +:+ Error err))] |})
    | Panic => None
    | Ok chat => Some (Served chat)
    end.

End Api.

(** * Notions used to state the properties *)

Import Go Float32 Strings Processor Storage ChatArchive Api.

(** ** The ids, names and strings the embedding follows the code on *)

(** An id whose vector file [id + ".vec"] is a plain file name: the file
    [filepath.Join(vectorDir, id + ".vec")] is then the entry [id + ".vec"]
    of the vector directory, which [vectors] holds under [id], and two such
    ids have two files.  (The Badger key ["doc:" + id] is never empty and,
    for such an id, far below Badger's bound on keys.) *)
Definition plain_id (id : string) : bool := plain_name (id +:+ ".vec").

(** Every string of the document is valid UTF-8, so that [json.Marshal]
    followed by [json.Unmarshal] gives the document back: [DocJSON doc] is
    then what the table holds after [AddDocument] of [doc]. *)
Definition valid_document (doc : Document) : bool :=
  ValidString (Storage.ID doc)
  && ValidString (Content doc)
  && ValidString (Source (DocMetadata doc))
  && ValidString (Storage.Title (DocMetadata doc))
  && forallb ValidString (Tags (DocMetadata doc))
  && forallb (fun kv => ValidString kv.1 && ValidString kv.2)
       (map_to_list (Custom (DocMetadata doc))).

(** A document that [AddDocument] stores as it is given, its vector in a
    file of its own: a plain id and valid UTF-8 strings. *)
Definition storable (doc : Document) : bool :=
  plain_id (Storage.ID doc) && valid_document doc.

(** A character and a chat id that name a directory of [chats] and a file
    of it: [getChatPath] is then the entry [chatID + ".json"] of the entry
    [character], and distinct pairs are distinct files. *)
Definition plain_chat (character chatID : string) : bool :=
  plain_name character && plain_name (chatID +:+ ".json").

Definition valid_message (msg : ChatMessage) : bool :=
  ValidString (Role msg) && ValidString (MsgContent msg) && ValidString (Time msg).

(** Every string of the chat is valid UTF-8, so that the JSON text of a
    transcript gives it back. *)
Definition valid_chat (chat : ChatHistory) : bool :=
  ValidString (Processor.ID chat)
  && ValidString (Processor.Title chat)
  && forallb valid_message (Messages chat).

(** [after] is the index [before] with [entry] put in: in the place of the
    first entry of its id when there is one, every other entry staying
    where it is, and at the end otherwise. *)
Definition upserted (entry : ChatInfo) (before after : list ChatInfo) : Prop :=
  (exists front old back,
      before = front ++ old :: back
      /\ InfoID old = InfoID entry
      /\ (forall info, In info front -> InfoID info <> InfoID entry)
      /\ after = front ++ entry :: back)
  \/ ((forall info, In info before -> InfoID info <> InfoID entry)
      /\ after = before ++ [entry]).

(** The entries a character's index file holds: none when the file is
    absent or does not hold an index. *)
Definition indexed (cs : ChatStore) (character : string) : list ChatInfo :=
  match files cs !! getCharacterInfoPath character with
  | Some f => match content f with IndexJSON chats => chats | _ => [] end
  | None => []
  end.

(** ** Sorting and the order of floats *)

(** The reversed prefix stays sorted downwards: [desc] is sortedness of the
    reversed list. *)
Definition desc {A : Type} (less : A -> A -> bool) : list A -> Prop :=
  StronglySorted (fun x y => less x y = false).

(** A key that orders the floats that are not NaN: the class of the value,
    then exponent and mantissa (negated for the negative values). *)
Definition rank (x : spec_float) : Z * Z * Z :=
  match x with
  | S754_infinity true => (-2, 0, 0)
  | S754_finite true m e => (-1, - e, Zneg m)
  | S754_zero _ => (0, 0, 0)
  | S754_nan => (0, 0, 0)
  | S754_finite false m e => (1, e, Zpos m)
  | S754_infinity false => (2, 0, 0)
  end.

Definition lex (p q : Z * Z * Z) : comparison :=
  let '(a1, b1, c1) := p in
  let '(a2, b2, c2) := q in
  match a1 ?= a2 with
  | Eq => match b1 ?= b2 with Eq => c1 ?= c2 | r => r end
  | r => r
  end.

(** ** The vector file *)

(** The four bytes [AddDocument] writes for one component. *)
Definition le_bytes (v : float32) : list Z :=
  [byte_of (to_uint32 v) 0; byte_of (to_uint32 v) 8;
   byte_of (to_uint32 v) 16; byte_of (to_uint32 v) 24].

(** The floats [GetVector] rebuilds from the successive groups of four bytes. *)
Fixpoint words (data : list Z) : list float32 :=
  match data with
  | byte0 :: byte1 :: byte2 :: byte3 :: rest =>
      of_uint32 (Z.lor (Z.lor (Z.lor byte0 (Z.shiftl byte1 8)) (Z.shiftl byte2 16))
                   (Z.shiftl byte3 24)) :: words rest
  | _ => []
  end.

(** ** Similarity and ranking *)

(** The sums the loop accumulates, over the pairs of components. *)
Definition sums_step (acc : float32 * float32 * float32) (p : float32 * float32)
  : float32 * float32 * float32 :=
  let '(dotProduct, normA, normB) := acc in
  (add dotProduct (mul p.1 p.2), add normA (mul p.1 p.1), add normB (mul p.2 p.2)).

(** The value [cosineSimilarity] returns. *)
Definition cosine (a b : list float32) : float32 :=
  if negb (length a =? length b)%nat then zero
  else
    let '(dotProduct, normA, normB) :=
      fold_left sums_step (combine a b) (zero, zero, zero) in
    if eqb normA zero || eqb normB zero then zero
    else div dotProduct
           (mul (of_float64 (sqrt64 (to_float64 normA)))
                (of_float64 (sqrt64 (to_float64 normB)))).

(** The ranking entry of an id: present when its vector file can be read. *)
Definition candidate (vs : VectorStore) (queryVector : list float32) (id : string)
  : option docSimilarity :=
  match vectors vs !! id with
  | Some (VData bytes) => Some {| sim_id := id; similarity := cosine queryVector (words bytes) |}
  | _ => None
  end.

(** The result pair of a ranking entry: present when its document decodes. *)
Definition detail (vs : VectorStore) (sim : docSimilarity) : option (Document * float32) :=
  match db_get (sim_id sim) (db vs) with
  | Some (DocJSON doc) => Some (doc, similarity sim)
  | _ => None
  end.

Definition candidates (vs : VectorStore) (queryVector : list float32) : list docSimilarity :=
  omap (candidate vs queryVector) (map fst (db vs)).

Definition by_similarity (x y : docSimilarity) : bool := gtb (similarity x) (similarity y).

Definition ranked `{SliceSort} (vs : VectorStore) (queryVector : list float32) : list docSimilarity :=
  sort_slice _ by_similarity (candidates vs queryVector).

Definition cut (limit : Z) (similarities : list docSimilarity) : list docSimilarity :=
  if (0 <? limit) && (limit <? Z.of_nat (length similarities))
  then take (Z.to_nat limit) similarities
  else similarities.

Definition hits `{SliceSort} (vs : VectorStore) (queryVector : list float32) (limit : Z)
  : list (Document * float32) :=
  omap (detail vs) (cut limit (ranked vs queryVector)).

(** Every record of the table sits under the id of its document, as
    [AddDocument] writes it. *)
Definition keys_match (vs : VectorStore) : Prop :=
  forall id doc, In (id, DocJSON doc) (db vs) -> Storage.ID doc = id.

(** The store without the records whose vector file cannot be read. *)
Definition forget_unreadable (vs : VectorStore) : VectorStore :=
  {| db := List.filter
             (fun kv => match vectors vs !! kv.1 with Some (VData _) => true | _ => false end)
             (db vs);
     db_closed := db_closed vs;
     vectors := vectors vs |}.

(** ** The chunker *)

(** The chunk size [ChunkText] works with. *)
Definition normal_size (chunkSize : Z) : Z := if chunkSize <=? 0 then 1000 else chunkSize.

(** The overlap [ChunkText] works with. *)
Definition normal_overlap (chunkSize overlap : Z) : Z :=
  if (overlap <? 0) || (overlap >=? normal_size chunkSize)
  then Z.quot (normal_size chunkSize) 5 else overlap.

(** A paragraph that puts text into a chunk: one that fits the chunk size
    and is not empty, or one that exceeds it and has a sentence. *)
Definition contributes (chunkSize : Z) (paragraph : string) : bool :=
  if len paragraph >? chunkSize
  then match splitIntoSentences paragraph with [] => false | _ :: _ => true end
  else negb (String.eqb paragraph "").

(** Something has been emitted or is being filled. *)
Definition started (st : chunker) : Prop := st.1 <> [] \/ st.2 <> "".

(** ** The chat archive and the handlers *)

(** The info block [SaveChat] writes over an earlier version [old]. *)
Definition resaved (old : ChatInfo) (now2 : Z) (character : string) (chat : ChatHistory) : ChatInfo :=
  {| InfoID := Processor.ID chat; InfoTitle := Processor.Title chat; Character := character;
     CreatedAt := CreatedAt old; UpdatedAt := now2;
     MessageCount := Z.of_nat (length (Messages chat)) |}.

(** The chat history [handleCharacterChatUpload] works on: the one bound
    from the request, with the id and title defaults filled in. *)
Definition prepared_chat (w : World) (character : string) (chatHistory : ChatHistory) : ChatHistory :=
  let chatHistory :=
    if String.eqb (Processor.ID chatHistory) ""
    then {| Messages := Messages chatHistory; Processor.Title := Processor.Title chatHistory;
            Processor.ID := chat_uuid w |}
    else chatHistory in
  if String.eqb (Processor.Title chatHistory) ""
  then {| Messages := Messages chatHistory;
          Processor.Title := character +:+ "的聊天记录 " +:+ title_time w;
          Processor.ID := Processor.ID chatHistory |}
  else chatHistory.

(** ** Example data *)

Definition sample_doc (id : string) (tags : list string) : Document :=
  {| Storage.ID := id;
     Content := "Alpha.";
     DocMetadata :=
       {| Source := "txt"; Storage.Title := "notes"; Tags := tags; Custom := ∅;
          ChunkID := 0; ChunkNum := 1 |} |}.

(** A store holding one document that is not a chat record. *)
Definition databank_store : VectorStore :=
  (AddDocument empty_store (sample_doc "d1" ["databank"]) [one]).2.

(** A store in which ["b"] was added before ["a"], with the same vector. *)
Definition tie_store : VectorStore :=
  (AddDocument (AddDocument empty_store (sample_doc "b" []) [one]).2 (sample_doc "a" []) [one]).2.

(** A store with three records: the vector file of ["b"] cannot be read and
    that of ["c"] is missing. *)
Definition damaged_store : VectorStore :=
  let vs :=
    (AddDocument
       (AddDocument (AddDocument empty_store (sample_doc "a" []) [one]).2
          (sample_doc "b" []) [one]).2
       (sample_doc "c" []) [one]).2 in
  {| db := db vs; db_closed := false;
     vectors := <["b" := VDenied]> (delete "c" (vectors vs)) |}.

(** A store with one saved transcript of ["Aria"], created at instant 100. *)
Definition first_chat : ChatHistory :=
  {| Messages := [{| Role := "user"; MsgContent := "hi"; Time := "" |}];
     Processor.Title := "T"; Processor.ID := "c1" |}.

(** The info block of that first save. *)
Definition first_info : ChatInfo :=
  {| InfoID := "c1"; InfoTitle := "T"; Character := "Aria"; CreatedAt := 100;
     UpdatedAt := 101; MessageCount := 1 |}.

Definition aria_store : ChatStore :=
  (SaveChat {| dirs := ∅; files := ∅; root_writable := true |} 100 101 "Aria" first_chat).2.

Fixpoint repeat_string (s : string) (n : nat) : string :=
  match n with
  | O => ""
  | S n' => s +:+ repeat_string s n'
  end.

(** A request whose content makes two chunks: two paragraphs of 600 bytes. *)
Definition two_chunk_request : DatabankRequest :=
  {| Name := "notes";
     ReqContent := repeat_string "a" 600 +:+ LF +:+ LF +:+ repeat_string "b" 600;
     Type_ := "text" |}.


(** ** Further notions *)

(** The table is in strictly ascending order of its keys, as Badger keeps
    it: no key occurs twice. *)
Definition sorted_keys (table : list (string * docData)) : Prop :=
  StronglySorted (fun a b => String.compare a.1 b.1 = Lt) table.

(** A float of magnitude below 1: a zero, or a finite [m * 2^e] whose
    mantissa has at most [-e] binary digits. *)
Definition below_one (v : float32) : bool :=
  match v with
  | S754_zero _ => true
  | S754_finite _ m e => Zpos (digits2_pos m) + e <=? 0
  | _ => false
  end.

(** A float that is a zero, of either sign. *)
Definition is_zero (v : float32) : bool :=
  match v with S754_zero _ => true | _ => false end.

(** The document a record of the table decodes to. *)
Definition record_doc (kv : string * docData) : option Document :=
  match kv.2 with
  | DocJSON doc => Some doc
  | BadJSON => None
  end.

(** The invariant of the loops of [ChunkText] for a property [good] of
    chunks: the fragments emitted are all [good], and so is the chunk being
    filled unless it is empty. *)
Definition all_good (good : string -> Prop) (st : chunker) : Prop :=
  List.Forall good st.1 /\ (st.2 <> "" -> good st.2).

(** A chat whose id is the name of the index file. *)
Definition reserved_chat : ChatHistory :=
  {| Messages := [{| Role := "user"; MsgContent := "hi"; Time := "" |}];
     Processor.Title := "T"; Processor.ID := "_info" |}.

(** The archive after the first save, with the index made unreadable. *)
Definition locked_index_store : ChatStore :=
  {| dirs := dirs aria_store;
     files := <[getCharacterInfoPath "Aria" :=
                  {| content := IndexJSON [first_info]; accessible := false |}]>
                (files aria_store);
     root_writable := true |}.

(** ** Reading the rows of a search answer *)

Definition row_string (key : string) (r : option row) : option string :=
  match r with
  | Some fields => match fields !! key with Some (RString s) => Some s | _ => None end
  | None => None
  end.

Definition row_score (r : option row) : option float32 :=
  match r with
  | Some fields => match fields !! "score" with Some (RNumber x) => Some x | _ => None end
  | None => None
  end.

Definition row_document (r : option row) : option Document :=
  match r with
  | Some fields => match fields !! "document" with Some (RDocument doc) => Some doc | _ => None end
  | None => None
  end.

(** A world whose embedding model always answers [[1]]. *)
Definition steady_world : World :=
  {| GetEmbedding := fun _ _ => Ok [one];
     chat_uuid := "chat0";
     doc_uuid := fun n => "id" +:+ pretty (Z.of_nat n);
     upload_time := fun _ => "2026-01-01T00:00:00Z";
     title_time := "2026-01-01 00:00:00";
     save_now1 := 100;
     save_now2 := 101 |}.

(** Every record of the table decodes, so that [ListDocuments] succeeds on
    an open store. *)
Definition decodable (table : list (string * docData)) : Prop :=
  List.Forall (fun kv => kv.2 <> BadJSON) table.

(** The test of [handleChatDelete]: a chat record of the chat [chatID]. *)
Definition of_chat (chatID : string) (doc : Document) : bool :=
  isChatRecord doc && String.eqb (default "" (Custom (DocMetadata doc) !! "chat_id")) chatID.



(** An open store whose only record does not decode. *)
Definition corrupt_store : VectorStore :=
  {| db := [("a", BadJSON)]; db_closed := false; vectors := {["a" := VData [0; 0; 0; 0]]} |}.

(** * Properties *)

(** ** Slices and sorting *)

Section SliceFacts.
Context {A : Type}.

Lemma assign_middle (done tail : list A) (old x : A) :
  assign (done ++ old :: tail) (length done) x = Ok (done ++ x :: tail).
Proof.
  unfold assign. rewrite length_app. simpl.
  destruct (decide _) as [_|Hn]; [|lia].
  f_equal. rewrite insert_app_r_alt by lia.
  replace (length done - length done)%nat with 0%nat by lia. reflexivity.
Qed.

Lemma insert_left_perm (less : A -> A -> bool) (x : A) (l : list A) :
  Permutation (insert_left less x l) (x :: l).
Proof.
  induction l as [|y l IH]; simpl; [reflexivity|].
  destruct (less x y); [|reflexivity].
  rewrite IH. apply perm_swap.
Qed.

Lemma insertion_sort_perm (less : A -> A -> bool) (l : list A) :
  Permutation (insertion_sort less l) l.
Proof.
  unfold insertion_sort.
  assert (Hgen : forall acc, Permutation
            (fold_left (fun rprefix x => insert_left less x rprefix) l acc) (l ++ acc)).
  { induction l as [|x l IH]; intros acc; simpl; [reflexivity|].
    rewrite IH, insert_left_perm. symmetry. apply Permutation_middle. }
  rewrite <- Permutation_rev, Hgen, app_nil_r. reflexivity.
Qed.

Lemma insert_left_desc (less : A -> A -> bool) (dom : list A) (x : A) (l : list A) :
  strict_weak less dom -> In x dom -> (forall y, In y l -> In y dom) ->
  desc less l -> desc less (insert_left less x l).
Proof.
  intros [Hasym Htrans] Hx Hl Hs.
  induction l as [|y l IH]; simpl.
  - repeat constructor.
  - apply StronglySorted_inv in Hs as [Hs Hy].
    destruct (less x y) eqn:Hxy.
    + constructor.
      * apply IH; [intros; apply Hl; right; assumption | assumption].
      * rewrite List.Forall_forall. intros z Hz.
        apply (Permutation_in _ (insert_left_perm less x l)) in Hz.
        destruct Hz as [<-|Hz].
        -- apply Hasym; auto. apply Hl. left. reflexivity.
        -- rewrite List.Forall_forall in Hy. auto.
    + constructor.
      * constructor; assumption.
      * constructor; [assumption|].
        rewrite List.Forall_forall in *. intros z Hz.
        apply (Htrans x y z); auto.
        -- apply Hl. left. reflexivity.
        -- apply Hl. right. assumption.
Qed.

Lemma sorted_snoc (R : A -> A -> Prop) (l : list A) (x : A) :
  StronglySorted R l -> List.Forall (fun y => R y x) l -> StronglySorted R (l ++ [x]).
Proof.
  induction 1 as [|y l Hs IH Hy]; intros Hx; simpl.
  - repeat constructor.
  - apply List.Forall_cons_iff in Hx as [Hyx Hx].
    constructor; [auto|].
    apply List.Forall_app. split; [assumption | repeat constructor; assumption].
Qed.

Lemma desc_rev (less : A -> A -> bool) (l : list A) :
  desc less l -> StronglySorted (fun x y => less y x = false) (rev l).
Proof.
  induction 1 as [|x l Hs IH Hx]; simpl; [constructor|].
  apply sorted_snoc; [assumption|].
  rewrite List.Forall_forall in *. intros y Hy. apply Hx. apply in_rev. assumption.
Qed.

Lemma insertion_sort_sorted (less : A -> A -> bool) (l : list A) :
  strict_weak less l ->
  StronglySorted (fun x y => less y x = false) (insertion_sort less l).
Proof.
  intros Hsw. unfold insertion_sort. apply desc_rev.
  assert (Hgen : forall todo acc,
            (forall y, In y todo -> In y l) -> (forall y, In y acc -> In y l) ->
            desc less acc ->
            desc less (fold_left (fun rprefix x => insert_left less x rprefix) todo acc)).
  { induction todo as [|x todo IH]; intros acc Htodo Hacc Hs; simpl; [assumption|].
    apply IH.
    - intros; apply Htodo; right; assumption.
    - intros y Hy. apply (Permutation_in _ (insert_left_perm less x acc)) in Hy.
      destruct Hy as [<-|Hy]; [apply Htodo; left; reflexivity | auto].
    - eapply insert_left_desc; eauto. apply Htodo. left. reflexivity. }
  apply Hgen; [auto | intros y [] | constructor].
Qed.

End SliceFacts.

#[export] Instance insertion_sorter_laws : SliceSortLaws insertion_sorter.
Proof.
  split.
  - intros A less l. apply insertion_sort_perm.
  - intros A less l. apply insertion_sort_sorted.
Qed.

(** ** Floating-point order *)

Lemma SFcompare_rank (x y : spec_float) :
  is_nan x = false -> is_nan y = false -> SFcompare x y = Some (lex (rank x) (rank y)).
Proof.
  destruct x as [sx|sx| |sx mx ex], y as [sy|sy| |sy my ey]; simpl; try discriminate;
    intros _ _; try destruct sx; try destruct sy; simpl; try reflexivity.
  rewrite Z.compare_opp, (Z.compare_antisym ex ey).
  destruct (ex ?= ey); reflexivity.
Qed.

Lemma lex_Lt (p q : Z * Z * Z) :
  lex p q = Lt <->
  (p.1.1 < q.1.1 \/ (p.1.1 = q.1.1 /\ (p.1.2 < q.1.2 \/ (p.1.2 = q.1.2 /\ p.2 < q.2)))).
Proof.
  destruct p as [[a1 b1] c1], q as [[a2 b2] c2]; simpl.
  destruct (Z.compare_spec a1 a2); [destruct (Z.compare_spec b1 b2)|..];
    try rewrite Z.compare_lt_iff;
    split; intros; try discriminate; try lia; try reflexivity.
Qed.

Lemma gtb_rank (a b : float32) :
  is_nan a = false -> is_nan b = false ->
  gtb a b = true <-> lex (rank b) (rank a) = Lt.
Proof.
  intros Ha Hb. unfold gtb, SFltb. rewrite (SFcompare_rank b a Hb Ha).
  destruct (lex (rank b) (rank a)); split; congruence.
Qed.

Lemma gtb_asym (a b : float32) : gtb a b = true -> gtb b a = false.
Proof.
  intros H.
  destruct (is_nan a) eqn:Ha; [destruct a; try discriminate; destruct b; discriminate|].
  destruct (is_nan b) eqn:Hb; [destruct b; try discriminate; destruct a; discriminate|].
  apply (gtb_rank a b Ha Hb) in H. apply lex_Lt in H.
  destruct (gtb b a) eqn:Hba; [|reflexivity].
  apply (gtb_rank b a Hb Ha) in Hba. apply lex_Lt in Hba. lia.
Qed.

Lemma gtb_negtrans (a b c : float32) :
  is_nan a = false -> is_nan b = false -> is_nan c = false ->
  gtb a b = false -> gtb b c = false -> gtb a c = false.
Proof.
  intros Ha Hb Hc Hab Hbc.
  destruct (gtb a c) eqn:Hac; [|reflexivity].
  apply (gtb_rank a c Ha Hc), lex_Lt in Hac.
  assert (Hab' : ~ lex (rank b) (rank a) = Lt)
    by (rewrite <- (gtb_rank a b Ha Hb); congruence).
  assert (Hbc' : ~ lex (rank c) (rank b) = Lt)
    by (rewrite <- (gtb_rank b c Hb Hc); congruence).
  rewrite lex_Lt in Hab', Hbc'. lia.
Qed.

(** ** The vector file *)

Lemma to_uint32_range (v : float32) : 0 <= to_uint32 v < 2 ^ 32.
Proof. unfold to_uint32. apply Z.mod_pos_bound. reflexivity. Qed.

Lemma byte_of_testbit (x k n : Z) :
  0 <= n -> 0 <= k -> Z.testbit (byte_of x k) n = Z.testbit x (n + k) && (n <? 8).
Proof.
  intros Hn Hk. unfold byte_of. change 255 with (Z.ones 8).
  rewrite Z.land_spec, Z.shiftr_spec by assumption.
  rewrite Z.testbit_ones_nonneg by lia. reflexivity.
Qed.

Lemma bytes_recombine (x : Z) :
  0 <= x < 2 ^ 32 ->
  Z.lor (Z.lor (Z.lor (byte_of x 0) (Z.shiftl (byte_of x 8) 8)) (Z.shiftl (byte_of x 16) 16))
    (Z.shiftl (byte_of x 24) 24) = x.
Proof.
  intros Hx. apply Z.bits_inj'. intros n Hn.
  rewrite !Z.lor_spec, !Z.shiftl_spec by assumption.
  rewrite (byte_of_testbit x 0 n) by lia.
  replace (n + 0) with n by lia.
  assert (Hhigh : 32 <= n -> Z.testbit x n = false).
  { intros H32. destruct (Z.eq_dec x 0) as [->|Hne]; [apply Z.bits_0|].
    apply Z.bits_above_log2; [lia|].
    apply Z.lt_le_trans with 32; [|assumption].
    apply Z.log2_lt_pow2; lia. }
  destruct (Z.ltb_spec n 8).
  { rewrite andb_true_r.
    rewrite !(Z.testbit_neg_r _ (n - _)) by lia.
    rewrite !orb_false_r. reflexivity. }
  rewrite andb_false_r. simpl.
  destruct (Z.ltb_spec n 16).
  { rewrite (byte_of_testbit x 8 (n - 8)) by lia.
    rewrite !(Z.testbit_neg_r _ (n - _)) by lia.
    replace (n - 8 + 8) with n by lia.
    replace (n - 8 <? 8) with true by (symmetry; apply Z.ltb_lt; lia).
    rewrite andb_true_r, !orb_false_r. reflexivity. }
  rewrite (byte_of_testbit x 8 (n - 8)) by lia.
  replace (n - 8 <? 8) with false by (symmetry; apply Z.ltb_ge; lia).
  rewrite andb_false_r. simpl.
  destruct (Z.ltb_spec n 24).
  { rewrite (byte_of_testbit x 16 (n - 16)) by lia.
    rewrite !(Z.testbit_neg_r _ (n - _)) by lia.
    replace (n - 16 + 16) with n by lia.
    replace (n - 16 <? 8) with true by (symmetry; apply Z.ltb_lt; lia).
    rewrite andb_true_r, !orb_false_r. reflexivity. }
  rewrite (byte_of_testbit x 16 (n - 16)) by lia.
  replace (n - 16 <? 8) with false by (symmetry; apply Z.ltb_ge; lia).
  rewrite andb_false_r. simpl.
  rewrite (byte_of_testbit x 24 (n - 24)) by lia.
  replace (n - 24 + 24) with n by lia.
  destruct (Z.ltb_spec (n - 24) 8).
  - rewrite andb_true_r. reflexivity.
  - rewrite andb_false_r. symmetry. apply Hhigh. lia.
Qed.

Lemma words_le_bytes (vector : list float32) :
  words (flat_map le_bytes vector) = map (fun v => of_uint32 (to_uint32 v)) vector.
Proof.
  induction vector as [|v rest IH]; [reflexivity|].
  cbn [flat_map le_bytes app words map].
  rewrite bytes_recombine by apply to_uint32_range.
  rewrite IH. reflexivity.
Qed.

Lemma length_flat_map_le_bytes (vector : list float32) :
  length (flat_map le_bytes vector) = (length vector * 4)%nat.
Proof. induction vector as [|v rest IH]; simpl; [reflexivity|]. rewrite IH. reflexivity. Qed.

Lemma assign_nth {A : Type} (done mid tail : list A) (old x : A) :
  assign (done ++ mid ++ old :: tail) (length done + length mid) x
  = Ok (done ++ mid ++ x :: tail).
Proof.
  rewrite !app_assoc, <- length_app. apply assign_middle.
Qed.

Lemma encode_loop_spec (vector : list float32) (done : list Z) (i : nat) :
  length done = (i * 4)%nat ->
  encode_loop vector i (done ++ replicate (length vector * 4) 0)
  = Ok (done ++ flat_map le_bytes vector).
Proof.
  revert done i. induction vector as [|v rest IH]; intros done i Hlen.
  - simpl. reflexivity.
  - cbn [encode_loop length Nat.mul Nat.add replicate]. rewrite <- Hlen.
    pose proof (assign_nth done [] (0 :: 0 :: 0 :: replicate (length rest * 4) 0) 0
                  (byte_of (to_uint32 v) 0)) as H0.
    cbn [app length] in H0. rewrite H0. cbn [bind].
    pose proof (assign_nth done [byte_of (to_uint32 v) 0]
                  (0 :: 0 :: replicate (length rest * 4) 0) 0
                  (byte_of (to_uint32 v) 8)) as H1.
    cbn [app length] in H1. rewrite H1. cbn [bind].
    pose proof (assign_nth done [byte_of (to_uint32 v) 0; byte_of (to_uint32 v) 8]
                  (0 :: replicate (length rest * 4) 0) 0
                  (byte_of (to_uint32 v) 16)) as H2.
    cbn [app length] in H2. rewrite H2. cbn [bind].
    pose proof (assign_nth done
                  [byte_of (to_uint32 v) 0; byte_of (to_uint32 v) 8; byte_of (to_uint32 v) 16]
                  (replicate (length rest * 4) 0) 0
                  (byte_of (to_uint32 v) 24)) as H3.
    cbn [app length] in H3. rewrite H3. cbn [bind].
    specialize (IH (done ++ le_bytes v) (S i)).
    rewrite <- app_assoc in IH. cbn [le_bytes app] in IH. rewrite IH.
    + cbn [flat_map]. rewrite app_assoc. reflexivity.
    + rewrite length_app. simpl. lia.
Qed.

Lemma length_four_more {A : Type} (b0 b1 b2 b3 : A) (post : list A) :
  (length (b0 :: b1 :: b2 :: b3 :: post) / 4 = S (length post / 4))%nat.
Proof.
  cbn [length].
  replace (S (S (S (S (length post))))) with (1 * 4 + length post)%nat by lia.
  rewrite Nat.div_add_l by lia. lia.
Qed.

Lemma decode_loop_spec (n : nat) :
  forall (pre post : list Z) (done : list float32),
    length pre = (length done * 4)%nat -> n = (length post / 4)%nat ->
    decode_loop (pre ++ post) n (length done) (done ++ replicate n zero)
    = Ok (done ++ words post).
Proof.
  induction n as [|n IH]; intros pre post done Hpre Hn.
  - simpl. f_equal. f_equal.
    destruct post as [|b0 [|b1 [|b2 [|b3 post]]]]; try reflexivity.
    rewrite length_four_more in Hn. lia.
  - destruct post as [|b0 [|b1 [|b2 [|b3 post]]]]; try (simpl in Hn; discriminate).
    rewrite length_four_more in Hn.
    cbn [decode_loop replicate]. unfold index. rewrite <- Hpre.
    rewrite !lookup_app_r by lia.
    replace (length pre + 0 - length pre)%nat with 0%nat by lia.
    replace (length pre + 1 - length pre)%nat with 1%nat by lia.
    replace (length pre + 2 - length pre)%nat with 2%nat by lia.
    replace (length pre + 3 - length pre)%nat with 3%nat by lia.
    cbn [lookup list_lookup bind]. rewrite assign_middle. cbn [bind].
    set (w := of_uint32 (Z.lor (Z.lor (Z.lor b0 (Z.shiftl b1 8)) (Z.shiftl b2 16))
                           (Z.shiftl b3 24))).
    replace (S (length done)) with (length (done ++ [w]))
      by (rewrite length_app; simpl; lia).
    replace (done ++ w :: replicate n zero) with ((done ++ [w]) ++ replicate n zero)
      by (rewrite <- app_assoc; reflexivity).
    replace (pre ++ b0 :: b1 :: b2 :: b3 :: post) with ((pre ++ [b0; b1; b2; b3]) ++ post)
      by (rewrite <- app_assoc; reflexivity).
    rewrite IH.
    + rewrite <- app_assoc. reflexivity.
    + rewrite !length_app. simpl. lia.
    + lia.
Qed.

(** ** cosineSimilarity *)

Lemma cosine_loop_spec (sa : list float32) :
  forall (sb pa pb : list float32) (acc : float32 * float32 * float32),
    length pa = length pb -> length sa = length sb ->
    cosine_loop (pa ++ sa) (pb ++ sb) (length sa) (length pa) acc
    = Ok (fold_left sums_step (combine sa sb) acc).
Proof.
  induction sa as [|x sa IH]; intros sb pa pb acc Hp Hs.
  - reflexivity.
  - destruct sb as [|y sb]; [discriminate|].
    destruct acc as [[dotProduct normA] normB].
    cbn [length cosine_loop]. unfold index.
    rewrite !lookup_app_r by lia.
    replace (length pa - length pa)%nat with 0%nat by lia.
    replace (length pa - length pb)%nat with 0%nat by lia.
    cbn [lookup list_lookup bind].
    replace (S (length pa)) with (length (pa ++ [x]))
      by (rewrite length_app; simpl; lia).
    replace (pa ++ x :: sa) with ((pa ++ [x]) ++ sa) by (rewrite <- app_assoc; reflexivity).
    replace (pb ++ y :: sb) with ((pb ++ [y]) ++ sb) by (rewrite <- app_assoc; reflexivity).
    rewrite IH; [reflexivity | rewrite !length_app; simpl; lia | simpl in Hs; lia].
Qed.

Lemma cosineSimilarity_spec (a b : list float32) : cosineSimilarity a b = Ok (cosine a b).
Proof.
  unfold cosineSimilarity, cosine.
  destruct (length a =? length b)%nat eqn:Hlen; [|reflexivity].
  apply Nat.eqb_eq in Hlen. cbn [negb].
  rewrite (cosine_loop_spec a b [] [] _ eq_refl Hlen). cbn [bind].
  destruct (fold_left sums_step (combine a b) (zero, zero, zero)) as [[dotProduct normA] normB].
  destruct (eqb normA zero || eqb normB zero); reflexivity.
Qed.

(** ** The vector store: what each operation computes *)

Lemma GetVector_spec (vs : VectorStore) (id : string) :
  GetVector vs id =
  match vectors vs !! id with
  | Some (VData bytes) => Ok (words bytes)
  | Some VDenied => Fail (Wrap "无法读取向量" ErrPermission)
  | None => Fail (Wrap "无法读取向量" ErrNotExist)
  end.
Proof.
  unfold GetVector, Storage.ReadFile.
  destruct (vectors vs !! id) as [[bytes|]|]; try reflexivity.
  apply (decode_loop_spec (length bytes / 4) [] bytes []); reflexivity.
Qed.

Lemma GetDocument_spec (vs : VectorStore) (id : string) :
  db_closed vs = false ->
  GetDocument vs id =
  match db_get id (db vs) with
  | Some (DocJSON doc) => Ok doc
  | Some BadJSON => Fail (Wrap "解析文档失败" ErrSyntax)
  | None => Fail (Errorf "文档不存在" id)
  end.
Proof.
  intros Hopen. unfold GetDocument, db_View. rewrite Hopen.
  destruct (db_get id (db vs)) as [[doc|]|]; reflexivity.
Qed.

Lemma AddDocument_spec (vs : VectorStore) (doc : Document) (vector : list float32) :
  AddDocument vs doc vector =
  if db_closed vs then (Fail (Wrap "无法存储文档" ErrDBClosed), vs)
  else
    let table := db_set (ID doc) (DocJSON doc) (db vs) in
    match vectors vs !! ID doc with
    | Some VDenied =>
        (Fail (Wrap "无法存储向量" ErrPermission),
         {| db := table; db_closed := false; vectors := vectors vs |})
    | _ =>
        (Ok tt,
         {| db := table; db_closed := false;
            vectors := <[ID doc := VData (flat_map le_bytes vector)]> (vectors vs) |})
    end.
Proof.
  unfold AddDocument, db_Update. destruct (db_closed vs); [reflexivity|].
  pose proof (encode_loop_spec vector [] 0 eq_refl) as Henc. cbn [app] in Henc.
  rewrite Henc.
  unfold Storage.WriteFile. cbn [vectors db db_closed].
  destruct (vectors vs !! ID doc) as [[bytes|]|]; reflexivity.
Qed.

Lemma DeleteDocument_spec (vs : VectorStore) (id : string) :
  DeleteDocument vs id =
  if db_closed vs then (Fail (Wrap "删除文档失败" ErrDBClosed), vs)
  else (Ok tt, {| db := db_delete id (db vs); db_closed := false;
                  vectors := delete id (vectors vs) |}).
Proof.
  unfold DeleteDocument, db_Update. destruct (db_closed vs); [reflexivity|].
  unfold Storage.Remove. cbn [vectors db db_closed].
  destruct (vectors vs !! id) as [f|] eqn:Hf; cbn; [reflexivity|].
  rewrite delete_id by assumption. reflexivity.
Qed.

Lemma similarity_loop_spec (vs : VectorStore) (queryVector : list float32) (docIDs : list string) :
  forall similarities,
    similarity_loop vs queryVector docIDs similarities
    = Ok (similarities ++ omap (candidate vs queryVector) docIDs).
Proof.
  induction docIDs as [|id rest IH]; intros similarities; cbn [similarity_loop omap list_omap].
  - rewrite app_nil_r. reflexivity.
  - rewrite GetVector_spec.
    assert (Hc : candidate vs queryVector id = candidate vs queryVector id) by reflexivity.
    unfold candidate at 2 in Hc. rewrite Hc.
    destruct (vectors vs !! id) as [[bytes|]|]; try apply IH.
    rewrite cosineSimilarity_spec. cbn [bind]. rewrite IH, <- app_assoc. reflexivity.
Qed.

Lemma details_loop_spec (vs : VectorStore) (similarities : list docSimilarity) :
  db_closed vs = false ->
  forall resultDocs resultScores,
    details_loop vs similarities resultDocs resultScores
    = Ok (resultDocs ++ map fst (omap (detail vs) similarities),
          resultScores ++ map snd (omap (detail vs) similarities)).
Proof.
  intros Hopen.
  induction similarities as [|sim rest IH]; intros resultDocs resultScores;
    cbn [details_loop omap list_omap map].
  - rewrite !app_nil_r. reflexivity.
  - rewrite GetDocument_spec by assumption.
    assert (Hd : detail vs sim = detail vs sim) by reflexivity.
    unfold detail at 2 in Hd. rewrite Hd.
    destruct (db_get (sim_id sim) (db vs)) as [[doc|]|]; try apply IH.
    rewrite IH. cbn [map fst snd]. rewrite <- !app_assoc. reflexivity.
Qed.

Lemma docIDs_spec (table : list (string * docData)) :
  fold_left (fun (docIDs : list string) (kv : string * docData) => docIDs ++ [kv.1]) table []
  = map fst table.
Proof.
  assert (Hgen : forall acc,
    fold_left (fun (docIDs : list string) (kv : string * docData) => docIDs ++ [kv.1]) table acc
    = acc ++ map fst table).
  { induction table as [|kv rest IH]; intros acc; simpl.
    - rewrite app_nil_r. reflexivity.
    - rewrite IH, <- app_assoc. reflexivity. }
  apply Hgen.
Qed.

Lemma Search_spec `{SliceSort} (vs : VectorStore) (queryVector : list float32) (limit : Z)
  (filter : option (Document -> bool)) :
  SearchSimilarWithFilter vs queryVector limit filter =
  if db_closed vs then Fail (Wrap "获取文档列表失败" ErrDBClosed)
  else Ok (map fst (hits vs queryVector limit), map snd (hits vs queryVector limit)).
Proof.
  unfold SearchSimilarWithFilter, db_View.
  destruct (db_closed vs) eqn:Hopen; [reflexivity|].
  rewrite docIDs_spec, similarity_loop_spec. cbn [bind app].
  rewrite details_loop_spec by assumption. reflexivity.
Qed.

(** ** The Badger table *)

Lemma compare_refl (k : string) : String.compare k k = Eq.
Proof.
  pose proof (String.compare_antisym k k) as H.
  destruct (String.compare k k); simpl in H; congruence.
Qed.

Lemma db_get_set (k : string) (v : docData) (l : list (string * docData)) :
  db_get k (db_set k v l) = Some v.
Proof.
  induction l as [|[k' v'] rest IH]; simpl.
  - rewrite String.eqb_refl. reflexivity.
  - destruct (String.compare k k') eqn:Hc; simpl.
    + rewrite String.eqb_refl. reflexivity.
    + rewrite String.eqb_refl. reflexivity.
    + destruct (String.eqb_spec k k') as [->|Hne]; [|assumption].
      rewrite compare_refl in Hc. discriminate.
Qed.

Lemma db_get_delete (k : string) (l : list (string * docData)) :
  db_get k (db_delete k l) = None.
Proof.
  induction l as [|[k' v'] rest IH]; simpl; [reflexivity|].
  destruct (String.eqb k k') eqn:Hk; [assumption|].
  simpl. rewrite Hk. assumption.
Qed.


Lemma db_get_In (k : string) (v : docData) (l : list (string * docData)) :
  db_get k l = Some v -> In (k, v) l.
Proof.
  induction l as [|[k' v'] rest IH]; simpl; [discriminate|].
  destruct (String.eqb_spec k k') as [->|Hne].
  - intros [= ->]. left. reflexivity.
  - intros H. right. auto.
Qed.

Lemma In_db_set (k : string) (v : docData) (l : list (string * docData)) (kv : string * docData) :
  In kv (db_set k v l) -> kv = (k, v) \/ In kv l.
Proof.
  induction l as [|[k' v'] rest IH]; simpl.
  - intros [<-|[]]. left. reflexivity.
  - destruct (String.compare k k'); simpl; intros H.
    + destruct H as [<-|H]; auto.
    + destruct H as [<-|H]; auto.
    + destruct H as [<-|H]; auto. apply IH in H as [->|H]; auto.
Qed.

Lemma db_get_filter (keep : string -> bool) (k : string) (l : list (string * docData)) :
  keep k = true -> db_get k (List.filter (fun kv => keep kv.1) l) = db_get k l.
Proof.
  intros Hk. induction l as [|[k' v'] rest IH]; simpl; [reflexivity|].
  destruct (String.eqb_spec k k') as [<-|Hne].
  - rewrite Hk. simpl. rewrite String.eqb_refl. reflexivity.
  - destruct (keep k'); simpl; [|assumption].
    destruct (String.eqb_spec k k'); [contradiction | assumption].
Qed.

Lemma keys_match_empty : keys_match empty_store.
Proof. intros id doc []. Qed.

Lemma keys_match_AddDocument (vs : VectorStore) (doc : Document) (vector : list float32) :
  keys_match vs -> keys_match (AddDocument vs doc vector).2.
Proof.
  intros Hk. rewrite AddDocument_spec.
  destruct (db_closed vs); [assumption|]. cbn zeta.
  assert (Hset : forall id d, In (id, DocJSON d) (db_set (Storage.ID doc) (DocJSON doc) (db vs)) ->
                              Storage.ID d = id).
  { intros id d Hin. apply In_db_set in Hin as [Heq|Hin]; [|auto].
    injection Heq as -> ->. reflexivity. }
  destruct (vectors vs !! Storage.ID doc) as [[bytes|]|]; exact Hset.
Qed.

(** What [GetVector] returns after a successful [AddDocument]: every
    component went through [uint32] and back. *)
Lemma GetVector_AddDocument (vs vs' : VectorStore) (doc : Document) (vector : list float32) :
  AddDocument vs doc vector = (Ok tt, vs') ->
  vectors vs' !! Storage.ID doc = Some (VData (flat_map le_bytes vector)) /\
  GetVector vs' (Storage.ID doc) = Ok (map (fun v => of_uint32 (to_uint32 v)) vector).
Proof.
  rewrite AddDocument_spec. destruct (db_closed vs); [discriminate|]. cbn zeta.
  intros Hadd.
  assert (Hv : vectors vs' !! Storage.ID doc = Some (VData (flat_map le_bytes vector))).
  { destruct (vectors vs !! Storage.ID doc) as [[bytes|]|]; try discriminate;
      injection Hadd as <-; cbn [vectors]; apply lookup_insert_eq. }
  split; [assumption|].
  rewrite GetVector_spec, Hv, words_le_bytes. reflexivity.
Qed.

(** The [filter] argument has no effect on the result. *)
Lemma filter_is_ignored `{SliceSort} (vs : VectorStore) (queryVector : list float32) (limit : Z)
  (filter : option (Document -> bool)) :
  SearchSimilarWithFilter vs queryVector limit filter = SearchSimilar vs queryVector limit.
Proof. reflexivity. Qed.

(** ** Claims on the vector store *)

(** C1 (the code diverges).  Searching with a predicate should return only
    documents that satisfy it.  With the predicate of [handleChatSearch]
    (the document carries the tag ["chat"]) and a store whose only document
    carries the tag ["databank"], [SearchSimilarWithFilter] returns that
    document: the predicate is never applied. *)
Theorem search_with_filter_returns_rejected_document :
  SearchSimilarWithFilter (H := insertion_sorter) databank_store [one] 5 (Some isChatRecord)
  = Ok ([sample_doc "d1" ["databank"]], [one])
  /\ isChatRecord (sample_doc "d1" ["databank"]) = false.
Proof. split; vm_compute; reflexivity. Qed.

(** C2 (the code diverges).  A vector read back should equal the vector
    added, its file holding the IEEE-754 bits of each component.  Adding the
    vector [[0.5]] writes four zero bytes, the bytes of the integer part of
    0.5, and [GetVector] returns [[0]]. *)
Theorem half_is_read_back_as_zero :
  let vs := (AddDocument empty_store (sample_doc "d1" []) [half]).2 in
  vectors vs !! "d1" = Some (VData [0; 0; 0; 0])
  /\ GetVector vs "d1" = Ok [zero]
  /\ eqb zero half = false.
Proof. repeat split; vm_compute; reflexivity. Qed.

(** C3 (counterexample).  No dimension [D] makes [AddDocument] reject the
    vectors whose length differs from it: the empty vector and a vector of
    one component are both accepted, and both are persisted. *)
Lemma add_rejects_no_length :
  ~ exists D : nat, forall (vs : VectorStore) (doc : Document) (vector : list float32),
      length vector <> D -> exists e, AddDocument vs doc vector = (Fail e, vs).
Proof.
  intros [D HD].
  destruct (Nat.eq_dec D 0%nat) as [->|Hne].
  - destruct (HD empty_store (sample_doc "d1" []) [one]) as [e He]; [discriminate|].
    vm_compute in He. discriminate.
  - destruct (HD empty_store (sample_doc "d1" []) []) as [e He]; [simpl; lia|].
    vm_compute in He. discriminate.
Qed.

(** C3 (amended).  [AddDocument] checks no dimension: for a vector of any
    length and a document of valid UTF-8 strings whose id is a plain file
    name, on an open store whose vector file can be written, it succeeds,
    the document is read back by [GetDocument], the vector file holds four
    bytes per component and [GetVector] returns a vector of the same
    length. *)
Theorem add_accepts_any_length (vs : VectorStore) (doc : Document) (vector : list float32) :
  db_closed vs = false ->
  storable doc = true ->
  vectors vs !! Storage.ID doc <> Some VDenied ->
  exists vs',
    AddDocument vs doc vector = (Ok tt, vs')
    /\ GetDocument vs' (Storage.ID doc) = Ok doc
    /\ (exists bytes, vectors vs' !! Storage.ID doc = Some (VData bytes)
                      /\ length bytes = (length vector * 4)%nat)
    /\ (exists stored, GetVector vs' (Storage.ID doc) = Ok stored
                       /\ length stored = length vector).
Proof.
  intros Hopen _ Hfile.
  assert (Hadd : exists vs', AddDocument vs doc vector = (Ok tt, vs')
                             /\ db_closed vs' = false
                             /\ db vs' = db_set (Storage.ID doc) (DocJSON doc) (db vs)).
  { rewrite AddDocument_spec, Hopen. cbn zeta.
    destruct (vectors vs !! Storage.ID doc) as [[bytes|]|]; [|contradiction|];
      eexists; repeat split; reflexivity. }
  destruct Hadd as (vs' & Hadd & Hopen' & Hdb).
  exists vs'. split; [assumption|].
  destruct (GetVector_AddDocument vs vs' doc vector Hadd) as [Hfile' Hget].
  split; [|split].
  - rewrite GetDocument_spec by assumption. rewrite Hdb, db_get_set. reflexivity.
  - eexists. split; [eassumption | apply length_flat_map_le_bytes].
  - eexists. split; [eassumption | apply length_map].
Qed.

Lemma add_accepts_any_length_witness :
  exists vs',
    AddDocument empty_store (sample_doc "d1" []) [one; half; one; one] = (Ok tt, vs')
    /\ GetDocument vs' "d1" = Ok (sample_doc "d1" [])
    /\ (exists bytes, vectors vs' !! "d1" = Some (VData bytes) /\ length bytes = 16%nat)
    /\ (exists stored, GetVector vs' "d1" = Ok stored /\ length stored = 4%nat).
Proof.
  apply (add_accepts_any_length empty_store (sample_doc "d1" []) [one; half; one; one]).
  - reflexivity.
  - vm_compute. reflexivity.
  - vm_compute. discriminate.
Defined.




(** ** Ranking *)

Section ListFacts.
Context {A B : Type}.

Lemma omap_ext_In (f g : A -> option B) (l : list A) :
  (forall x, In x l -> f x = g x) -> omap f l = omap g l.
Proof.
  induction l as [|x l IH]; intros Hfg; [reflexivity|].
  cbn [omap list_omap]. rewrite (Hfg x) by (left; reflexivity).
  rewrite IH by (intros y Hy; apply Hfg; right; assumption). reflexivity.
Qed.

Lemma length_omap_le (f : A -> option B) (l : list A) :
  (length (omap f l) <= length l)%nat.
Proof.
  induction l as [|x l IH]; cbn [omap list_omap length]; [lia|].
  destruct (f x); cbn [length]; lia.
Qed.

Lemma In_omap (f : A -> option B) (l : list A) (y : B) :
  In y (omap f l) <-> exists x, In x l /\ f x = Some y.
Proof.
  rewrite <- list_elem_of_In, list_elem_of_omap.
  split; intros (x & Hx & Hf); exists x; split; auto; apply list_elem_of_In; assumption.
Qed.

Lemma In_take (n : nat) (l : list A) (x : A) : In x (take n l) -> In x l.
Proof.
  revert l. induction n as [|n IH]; intros [|y l]; simpl; try tauto.
  intros [->|H]; auto.
Qed.

Lemma sorted_take (R : A -> A -> Prop) (n : nat) (l : list A) :
  StronglySorted R l -> StronglySorted R (take n l).
Proof.
  intros Hs. revert n. induction Hs as [|x l Hs IH Hx]; intros [|n]; simpl; try constructor.
  - apply IH.
  - rewrite List.Forall_forall in *. intros y Hy. apply Hx. eapply In_take. eassumption.
Qed.

Lemma sorted_omap (R : A -> A -> Prop) (R' : B -> B -> Prop) (f : A -> option B) (l : list A) :
  (forall x y x' y', R x y -> f x = Some x' -> f y = Some y' -> R' x' y') ->
  StronglySorted R l -> StronglySorted R' (omap f l).
Proof.
  intros Hf. induction 1 as [|x l Hs IH Hx]; cbn [omap list_omap]; [constructor|].
  destruct (f x) as [x'|] eqn:Hfx; [|assumption].
  constructor; [assumption|].
  rewrite List.Forall_forall in *. intros y' Hy'.
  apply In_omap in Hy' as (y & Hy & Hfy). eauto.
Qed.

Lemma sorted_map (R : B -> B -> Prop) (g : A -> B) (l : list A) :
  StronglySorted (fun x y => R (g x) (g y)) l -> StronglySorted R (map g l).
Proof.
  induction 1 as [|x l Hs IH Hx]; simpl; constructor; [assumption|].
  rewrite List.Forall_forall in *. intros y Hy.
  apply in_map_iff in Hy as (z & <- & Hz). auto.
Qed.

End ListFacts.

Lemma In_cut (limit : Z) (l : list docSimilarity) (sim : docSimilarity) :
  In sim (cut limit l) -> In sim l.
Proof.
  unfold cut. destruct (_ && _); [apply In_take | auto].
Qed.

Lemma length_cut (limit : Z) (l : list docSimilarity) :
  0 < limit -> Z.of_nat (length (cut limit l)) <= limit.
Proof.
  intros Hk. unfold cut.
  destruct (Z.ltb_spec 0 limit); [|lia].
  destruct (Z.ltb_spec limit (Z.of_nat (length l))); cbn [andb]; [|lia].
  pose proof (firstn_le_length (Z.to_nat limit) l). lia.
Qed.

Lemma cut_all (limit : Z) (l : list docSimilarity) :
  limit <= 0 \/ Z.of_nat (length l) <= limit -> cut limit l = l.
Proof.
  intros H. unfold cut.
  destruct (Z.ltb_spec 0 limit); [|reflexivity].
  destruct (Z.ltb_spec limit (Z.of_nat (length l))); [lia | reflexivity].
Qed.

Lemma In_candidates (vs : VectorStore) (q : list float32) (sim : docSimilarity) :
  In sim (candidates vs q) <->
  exists bytes, In (sim_id sim) (map fst (db vs))
                /\ vectors vs !! sim_id sim = Some (VData bytes)
                /\ similarity sim = cosine q (words bytes).
Proof.
  unfold candidates. rewrite In_omap. unfold candidate. split.
  - intros (id & Hid & Hc).
    destruct (vectors vs !! id) as [[bytes|]|] eqn:Hv; try discriminate.
    injection Hc as <-. exists bytes. auto.
  - intros (bytes & Hid & Hv & Hs). exists (sim_id sim). split; [assumption|].
    rewrite Hv. destruct sim as [id s]. simpl in *. subst s. reflexivity.
Qed.

Section Ranking.
Context `{Laws : SliceSortLaws}.

Lemma In_ranked (vs : VectorStore) (q : list float32) (sim : docSimilarity) :
  In sim (ranked vs q) <-> In sim (candidates vs q).
Proof.
  unfold ranked. split; apply Permutation_in;
    [|symmetry]; apply sort_slice_perm.
Qed.

Lemma length_ranked (vs : VectorStore) (q : list float32) :
  length (ranked vs q) = length (candidates vs q).
Proof. unfold ranked. apply Permutation_length, sort_slice_perm. Qed.

Lemma candidates_forget (vs : VectorStore) (q : list float32) :
  candidates (forget_unreadable vs) q = candidates vs q.
Proof.
  unfold candidates, forget_unreadable, candidate. cbn [db vectors].
  induction (db vs) as [|[id val] rest IH]; [reflexivity|].
  cbn [List.filter fst]. destruct (vectors vs !! id) as [[bytes|]|] eqn:Hv.
  - cbn [map fst omap list_omap]. rewrite Hv, IH. reflexivity.
  - cbn [map fst omap list_omap]. rewrite Hv, IH. reflexivity.
  - cbn [map fst omap list_omap]. rewrite Hv, IH. reflexivity.
Qed.

Lemma hits_forget (vs : VectorStore) (q : list float32) (limit : Z) :
  hits (forget_unreadable vs) q limit = hits vs q limit.
Proof.
  unfold hits, ranked. rewrite candidates_forget.
  apply omap_ext_In. intros sim Hsim.
  apply In_cut, In_ranked, In_candidates in Hsim as (bytes & _ & Hv & _).
  unfold detail, forget_unreadable. cbn [db].
  rewrite (db_get_filter
             (fun id => match vectors vs !! id with Some (VData _) => true | _ => false end));
    [reflexivity | rewrite Hv; reflexivity].
Qed.

End Ranking.

Lemma keys_match_damaged_store : keys_match damaged_store.
Proof.
  intros id doc Hin. vm_compute in Hin.
  repeat (destruct Hin as [Hin|Hin]; [injection Hin as <- <-; reflexivity|]).
  contradiction.
Qed.

Lemma cosine_length_mismatch (a b : list float32) :
  length a <> length b -> cosine a b = zero.
Proof.
  intros Hlen. unfold cosine.
  destruct (Nat.eqb_spec (length a) (length b)); [contradiction | reflexivity].
Qed.

Lemma by_similarity_strict_weak (l : list docSimilarity) :
  List.Forall (fun sim => is_nan (similarity sim) = false) l ->
  strict_weak by_similarity l.
Proof.
  rewrite List.Forall_forall. intros Hnan. split.
  - intros x y _ _. apply gtb_asym.
  - intros x y z Hx Hy Hz. apply gtb_negtrans; auto.
Qed.

Lemma length_candidates (vs : VectorStore) (q : list float32) :
  length (candidates vs q) = length (db (forget_unreadable vs)).
Proof.
  unfold candidates, forget_unreadable. cbn [db].
  induction (db vs) as [|[k v] rest IH]; cbn [map omap list_omap List.filter length fst];
    [reflexivity|].
  fold (omap (candidate vs q) (map fst rest)). unfold candidate at 1.
  destruct (vectors vs !! k) as [[bytes|]|]; cbn [length]; congruence.
Qed.

Lemma length_cut_min (limit : Z) (l : list docSimilarity) :
  length (cut limit l) = if 0 <? limit then Nat.min (Z.to_nat limit) (length l) else length l.
Proof.
  unfold cut. destruct (Z.ltb_spec 0 limit); cbn [andb]; [|reflexivity].
  destruct (Z.ltb_spec limit (Z.of_nat (length l))).
  - rewrite length_take. reflexivity.
  - lia.
Qed.

Lemma length_omap_total {A B : Type} (f : A -> option B) (l : list A) :
  (forall x, In x l -> f x <> None) -> length (omap f l) = length l.
Proof.
  induction l as [|x l IH]; intros Hf; cbn [omap list_omap length]; [reflexivity|].
  fold (omap f l). destruct (f x) eqn:Hx.
  - cbn [length]. rewrite IH; [reflexivity|]. intros y Hy. apply Hf. right. assumption.
  - exfalso. apply (Hf x); [left; reflexivity | assumption].
Qed.

Lemma db_get_present (k : string) (l : list (string * docData)) :
  In k (map fst l) -> exists v, db_get k l = Some v.
Proof.
  induction l as [|[k' v'] rest IH]; cbn [map fst db_get]; [intros []|].
  intros [Heq|Hin].
  - subst k'. rewrite String.eqb_refl. eauto.
  - destruct (String.eqb k k'); eauto.
Qed.

(** C8.  A document whose vector file is missing or unreadable is left out
    of the results and the search still succeeds over the others: on an open
    store the search returns documents with one score each, none of them a
    document whose [GetVector] fails; when the limit does not cut, every
    record whose vector can be read is returned with the similarity of that
    vector; when all records decode, the number of results is the number of
    records with a readable vector, or the limit if that is smaller; and the
    result is the one the search gives on the store without the other
    documents. *)
Theorem search_skips_unreadable_vectors `{Laws : SliceSortLaws}
  (vs : VectorStore) (queryVector : list float32) (limit : Z)
  (filter : option (Document -> bool)) :
  db_closed vs = false ->
  keys_match vs ->
  exists docs scores,
    SearchSimilarWithFilter vs queryVector limit filter = Ok (docs, scores)
    /\ length scores = length docs
    /\ (forall id e, GetVector vs id = Fail e ->
        forall doc, In doc docs -> Storage.ID doc <> id)
    /\ (limit <= 0 \/ Z.of_nat (length (db vs)) <= limit ->
        forall id doc vector,
          db_get id (db vs) = Some (DocJSON doc) ->
          GetVector vs id = Ok vector ->
          exists i score,
            docs !! i = Some doc
            /\ scores !! i = Some score
            /\ cosineSimilarity queryVector vector = Ok score)
    /\ (decodable (db vs) ->
        length docs
        = if 0 <? limit
          then Nat.min (Z.to_nat limit) (length (db (forget_unreadable vs)))
          else length (db (forget_unreadable vs)))
    /\ SearchSimilarWithFilter (forget_unreadable vs) queryVector limit filter
       = Ok (docs, scores).
Proof.
  intros Hopen Hkeys.
  exists (map fst (hits vs queryVector limit)), (map snd (hits vs queryVector limit)).
  split; [rewrite Search_spec, Hopen; reflexivity|].
  split; [rewrite !length_map; reflexivity|]. split; [|split; [|split]].
  - intros id e Hfail doc Hdoc Heq.
    apply in_map_iff in Hdoc as ([doc' score] & Hfst & Hhit). simpl in Hfst. subst doc'.
    apply In_omap in Hhit as (sim & Hsim & Hdetail).
    apply In_cut, In_ranked, In_candidates in Hsim as (bytes & _ & Hv & _).
    unfold detail in Hdetail.
    destruct (db_get (sim_id sim) (db vs)) as [[d|]|] eqn:Hget; try discriminate.
    injection Hdetail as -> _.
    apply db_get_In, Hkeys in Hget.
    rewrite GetVector_spec in Hfail. rewrite <- Heq, Hget, Hv in Hfail. discriminate.
  - intros Hlimit id doc vector Hget Hvec.
    rewrite GetVector_spec in Hvec.
    destruct (vectors vs !! id) as [[bytes|]|] eqn:Hv; try discriminate.
    injection Hvec as <-.
    assert (Hranked : In {| sim_id := id; similarity := cosine queryVector (words bytes) |}
                        (ranked vs queryVector)).
    { apply In_ranked, In_candidates. exists bytes. cbn [sim_id similarity].
      split; [|split; [assumption | reflexivity]].
      apply db_get_In in Hget. apply in_map_iff. exists (id, DocJSON doc). auto. }
    assert (Hhit : In (doc, cosine queryVector (words bytes)) (hits vs queryVector limit)).
    { unfold hits. rewrite cut_all.
      - apply In_omap. eexists. split; [eassumption|].
        unfold detail. cbn [sim_id similarity]. rewrite Hget. reflexivity.
      - rewrite length_ranked.
        pose proof (length_omap_le (candidate vs queryVector) (map fst (db vs))) as Hle.
        rewrite length_map in Hle. unfold candidates. lia. }
    apply list_elem_of_In, list_elem_of_lookup in Hhit as [i Hi].
    exists i, (cosine queryVector (words bytes)).
    split; [rewrite list_lookup_fmap, Hi; reflexivity|].
    split; [rewrite list_lookup_fmap, Hi; reflexivity|].
    apply cosineSimilarity_spec.
  - intros Hdec. rewrite length_map. unfold hits.
    rewrite length_omap_total.
    + rewrite length_cut_min, length_ranked, length_candidates. reflexivity.
    + intros sim Hsim.
      apply In_cut, In_ranked, In_candidates in Hsim as (bytes & Hkey & _ & _).
      apply db_get_present in Hkey as [v Hv]. unfold detail. rewrite Hv.
      apply db_get_In in Hv. unfold decodable in Hdec. rewrite List.Forall_forall in Hdec.
      specialize (Hdec _ Hv). cbn [snd] in Hdec. destruct v; [discriminate | contradiction].
  - rewrite Search_spec. cbn [forget_unreadable db_closed]. rewrite Hopen, hits_forget.
    reflexivity.
Qed.

Lemma search_skips_unreadable_vectors_witness :
  exists docs scores,
    SearchSimilarWithFilter (H := insertion_sorter) damaged_store [one] 5 None = Ok (docs, scores)
    /\ length scores = length docs
    /\ (forall id e, GetVector damaged_store id = Fail e ->
        forall doc, In doc docs -> Storage.ID doc <> id)
    /\ (5 <= 0 \/ Z.of_nat (length (db damaged_store)) <= 5 ->
        forall id doc vector,
          db_get id (db damaged_store) = Some (DocJSON doc) ->
          GetVector damaged_store id = Ok vector ->
          exists i score,
            docs !! i = Some doc
            /\ scores !! i = Some score
            /\ cosineSimilarity [one] vector = Ok score)
    /\ (decodable (db damaged_store) ->
        length docs
        = if 0 <? 5
          then Nat.min (Z.to_nat 5) (length (db (forget_unreadable damaged_store)))
          else length (db (forget_unreadable damaged_store)))
    /\ SearchSimilarWithFilter (H := insertion_sorter) (forget_unreadable damaged_store) [one] 5 None
       = Ok (docs, scores).
Proof.
  apply (search_skips_unreadable_vectors (Laws := insertion_sorter_laws) damaged_store [one] 5 None).
  - reflexivity.
  - exact keys_match_damaged_store.
Defined.

(** C10.  [cosineSimilarity] of two vectors of different lengths returns 0
    (it neither fails nor indexes out of range), so a stored vector whose
    length differs from the query's is ranked with score 0: its entry is in
    the ranking, and its document is returned with score 0 whenever the
    limit does not cut the ranking. *)
Theorem mismatched_length_is_ranked_with_zero `{Laws : SliceSortLaws} :
  (forall a b : list float32, length a <> length b -> cosineSimilarity a b = Ok zero)
  /\ (forall (vs : VectorStore) (queryVector : list float32) (limit : Z)
        (filter : option (Document -> bool)) (id : string) (doc : Document)
        (vector : list float32),
        db_closed vs = false ->
        db_get id (db vs) = Some (DocJSON doc) ->
        GetVector vs id = Ok vector ->
        length vector <> length queryVector ->
        In {| sim_id := id; similarity := zero |} (ranked vs queryVector)
        /\ (limit <= 0 \/ Z.of_nat (length (candidates vs queryVector)) <= limit ->
            exists docs scores i,
              SearchSimilarWithFilter vs queryVector limit filter = Ok (docs, scores)
              /\ docs !! i = Some doc /\ scores !! i = Some zero)).
Proof.
  split.
  { intros a b Hlen. rewrite cosineSimilarity_spec, cosine_length_mismatch by assumption.
    reflexivity. }
  intros vs q limit filter id doc v Hopen Hget Hvec Hlen.
  rewrite GetVector_spec in Hvec.
  destruct (vectors vs !! id) as [[bytes|]|] eqn:Hv; try discriminate.
  injection Hvec as <-.
  assert (Hranked : In {| sim_id := id; similarity := zero |} (ranked vs q)).
  { apply In_ranked, In_candidates. exists bytes. cbn [sim_id similarity].
    split; [|split; [assumption|]].
    - apply db_get_In in Hget. apply in_map_iff. exists (id, DocJSON doc). auto.
    - symmetry. apply cosine_length_mismatch. auto. }
  split; [assumption|].
  intros Hlimit.
  assert (Hhit : In (doc, zero) (hits vs q limit)).
  { unfold hits. rewrite cut_all by (rewrite length_ranked; assumption).
    apply In_omap. eexists. split; [eassumption|].
    unfold detail. cbn [sim_id similarity]. rewrite Hget. reflexivity. }
  apply list_elem_of_In, list_elem_of_lookup in Hhit as [i Hi].
  exists (map fst (hits vs q limit)), (map snd (hits vs q limit)), i.
  split; [rewrite Search_spec, Hopen; reflexivity|].
  split; rewrite list_lookup_fmap, Hi; reflexivity.
Qed.

Lemma mismatched_length_is_ranked_with_zero_witness :
  cosineSimilarity [one; one] [one] = Ok zero
  /\ In {| sim_id := "d1"; similarity := zero |}
       (ranked (H := insertion_sorter) databank_store [one; one])
  /\ exists docs scores i,
       SearchSimilarWithFilter (H := insertion_sorter) databank_store [one; one] 5 None
       = Ok (docs, scores)
       /\ docs !! i = Some (sample_doc "d1" ["databank"]) /\ scores !! i = Some zero.
Proof.
  destruct (mismatched_length_is_ranked_with_zero (Laws := insertion_sorter_laws))
    as [Hcos Hsearch].
  split; [apply Hcos; simpl; lia|].
  destruct (Hsearch databank_store [one; one] 5 None "d1" (sample_doc "d1" ["databank"]) [one])
    as [Hranked Hhit]; try reflexivity; [simpl; lia|].
  split; [exact Hranked|].
  apply Hhit. right. vm_compute. discriminate.
Defined.

(** The store keeps no trace of the order of insertion: adding ["a"] then
    ["b"] gives the store that adding ["b"] then ["a"] gives. *)
Lemma insertion_order_is_not_recorded :
  (AddDocument (AddDocument empty_store (sample_doc "a" []) [one]).2 (sample_doc "b" []) [one]).2
  = tie_store.
Proof. vm_compute. reflexivity. Qed.

(** C6 (counterexample).  With two documents of equal score, ["b"] added
    before ["a"], the search returns ["a"] first: the candidates are taken
    in the order of their keys, not in the order of their insertion. *)
Lemma equal_scores_follow_key_order :
  SearchSimilarWithFilter (H := insertion_sorter) tie_store [one] 2 None
  = Ok ([sample_doc "a" []; sample_doc "b" []], [one; one]).
Proof. vm_compute. reflexivity. Qed.

(** C6 (amended).  For [k > 0] the search on an open store returns at most
    [k] documents, with as many scores, and when no candidate score is NaN
    the scores are in non-increasing order.  (Equal scores come in the order
    the sort leaves the key-ordered candidates in; the result is a function
    of the store and the query, so a repeated query on an unchanged store
    gives the same sequence.) *)
Theorem search_is_bounded_and_ordered `{Laws : SliceSortLaws}
  (vs : VectorStore) (queryVector : list float32) (k : Z)
  (filter : option (Document -> bool)) :
  0 < k ->
  db_closed vs = false ->
  exists docs scores,
    SearchSimilarWithFilter vs queryVector k filter = Ok (docs, scores)
    /\ length docs = length scores
    /\ Z.of_nat (length docs) <= k
    /\ (List.Forall (fun sim => is_nan (similarity sim) = false) (candidates vs queryVector) ->
        StronglySorted (fun x y => gtb y x = false) scores).
Proof.
  intros Hk Hopen.
  exists (map fst (hits vs queryVector k)), (map snd (hits vs queryVector k)).
  split; [rewrite Search_spec, Hopen; reflexivity|].
  split; [rewrite !length_map; reflexivity|]. split.
  - rewrite length_map. unfold hits.
    pose proof (length_omap_le (detail vs) (cut k (ranked vs queryVector))).
    pose proof (length_cut k (ranked vs queryVector) Hk). lia.
  - intros Hnan. apply sorted_map. unfold hits.
    apply (sorted_omap (fun x y => by_similarity y x = false)).
    + intros x y [dx sx] [dy sy] Hxy Hx Hy. unfold detail in Hx, Hy.
      destruct (db_get (sim_id x) (db vs)) as [[d1|]|]; try discriminate.
      destruct (db_get (sim_id y) (db vs)) as [[d2|]|]; try discriminate.
      injection Hx as _ <-. injection Hy as _ <-. exact Hxy.
    + unfold cut. destruct (_ && _); [apply sorted_take|];
        apply sort_slice_sorted, by_similarity_strict_weak; assumption.
Qed.

Lemma search_is_bounded_and_ordered_witness :
  exists docs scores,
    SearchSimilarWithFilter (H := insertion_sorter) tie_store [one] 1 None = Ok (docs, scores)
    /\ length docs = length scores
    /\ Z.of_nat (length docs) <= 1
    /\ StronglySorted (fun x y => gtb y x = false) scores.
Proof.
  destruct (search_is_bounded_and_ordered (Laws := insertion_sorter_laws) tie_store [one] 1 None)
    as (docs & scores & Hs & Hlen & Hk & Hsorted); [lia | reflexivity |].
  exists docs, scores. repeat split; try assumption.
  apply Hsorted. vm_compute. repeat constructor.
Defined.

(** ** The chunker *)

Lemma append_nonempty_l (s t : string) : s <> "" -> s +:+ t <> "".
Proof. destruct s; [contradiction | discriminate]. Qed.

Lemma append_nonempty_r (s t : string) : t <> "" -> s +:+ t <> "".
Proof. destruct s; [auto | discriminate]. Qed.

Lemma snoc_nonempty {A : Type} (l : list A) (x : A) : l ++ [x] <> [].
Proof. destruct l; discriminate. Qed.

Lemma extend_nonempty (currentChunk sep piece : string) :
  currentChunk <> "" \/ piece <> "" -> extend currentChunk sep piece <> "".
Proof.
  unfold extend. destruct (String.eqb_spec currentChunk "") as [->|Hne].
  - intros [H|H]; [contradiction | apply append_nonempty_r; assumption].
  - intros _. apply append_nonempty_l, append_nonempty_l. assumption.
Qed.

Lemma started_flush (overlap : Z) (st : chunker) : started st -> (flush overlap st).1 <> [].
Proof.
  destruct st as [chunks cur]. unfold flush, started. cbn [fst snd].
  destruct (String.eqb_spec cur "") as [->|Hne].
  - intros [H|H]; [assumption | contradiction].
  - intros _. destruct (_ && _); cbn [fst]; apply snoc_nonempty.
Qed.

Lemma rejoin_parts_nonempty (delimiter : string) (parts : list string) :
  List.Forall (fun s => s <> "") (rejoin_parts delimiter parts).
Proof.
  induction parts as [|part rest IH]; cbn [rejoin_parts]; [constructor|].
  destruct (String.eqb_spec part "") as [->|Hne]; [assumption|].
  destruct rest as [|next rest]; constructor; auto.
  apply append_nonempty_l. assumption.
Qed.

Lemma split_pass_nonempty (delimiter : string) (sentences : list string) :
  List.Forall (fun s => s <> "")
    (fold_left (fun newSentences s => newSentences ++ rejoin_parts delimiter (Split s delimiter))
       sentences []).
Proof.
  assert (Hgen : forall acc, List.Forall (fun s => s <> "") acc ->
    List.Forall (fun s => s <> "")
      (fold_left (fun newSentences s => newSentences ++ rejoin_parts delimiter (Split s delimiter))
         sentences acc)).
  { induction sentences as [|s rest IH]; intros acc Hacc; simpl; [assumption|].
    apply IH. apply List.Forall_app. split; [assumption | apply rejoin_parts_nonempty]. }
  apply Hgen. constructor.
Qed.

Lemma sentences_nonempty (text : string) :
  List.Forall (fun s => s <> "") (splitIntoSentences text).
Proof.
  unfold splitIntoSentences, delimiters. cbn [fold_left]. apply split_pass_nonempty.
Qed.

Lemma add_sentence_started (chunkSize overlap : Z) (st : chunker) (sentence : string) :
  sentence <> "" -> started (add_sentence chunkSize overlap st sentence).
Proof.
  intros Hs. destruct st as [chunks cur]. unfold add_sentence.
  destruct (_ <=? _).
  - right. apply extend_nonempty. auto.
  - destruct (flush overlap (chunks, cur)) as [chunks' cur'].
    destruct (_ >? _); [left; apply snoc_nonempty | right; apply extend_nonempty; auto].
Qed.

Lemma add_sentences_started (chunkSize overlap : Z) (sentences : list string) (st : chunker) :
  List.Forall (fun s => s <> "") sentences ->
  started st \/ sentences <> [] ->
  started (fold_left (add_sentence chunkSize overlap) sentences st).
Proof.
  revert st. induction sentences as [|s rest IH]; intros st Hne Hst; cbn [fold_left].
  - destruct Hst as [Hst|Hst]; [assumption | contradiction].
  - apply List.Forall_cons_iff in Hne as [Hs Hrest].
    apply IH; [assumption|]. left. apply add_sentence_started. assumption.
Qed.

Lemma add_paragraph_started (chunkSize overlap : Z) (st : chunker) (paragraph : string) :
  started st \/ contributes chunkSize paragraph = true ->
  started (add_paragraph chunkSize overlap st paragraph).
Proof.
  unfold add_paragraph, contributes. destruct (len paragraph >? chunkSize).
  - intros Hst. apply add_sentences_started; [apply sentences_nonempty|].
    destruct Hst as [Hst|Hst]; [auto|].
    right. destruct (splitIntoSentences paragraph); [discriminate | discriminate].
  - intros Hst.
    assert (Hor : started st \/ paragraph <> "").
    { destruct Hst as [Hst|Hst]; [auto|]. right.
      destruct (String.eqb_spec paragraph ""); [discriminate | assumption]. }
    clear Hst. destruct st as [chunks cur].
    destruct (_ <=? _).
    + destruct Hor as [[Hc|Hc]|Hp]; [left; assumption | |];
        right; apply extend_nonempty; auto.
    + destruct (flush overlap (chunks, cur)) as [chunks' cur'] eqn:Hflush.
      destruct Hor as [Hst|Hp].
      * left. pose proof (started_flush overlap (chunks, cur) Hst) as Hf.
        rewrite Hflush in Hf. exact Hf.
      * right. apply append_nonempty_r. assumption.
Qed.

Lemma add_paragraph_idle (chunkSize overlap : Z) (paragraph : string) :
  contributes chunkSize paragraph = false ->
  add_paragraph chunkSize overlap ([], "") paragraph = ([], "").
Proof.
  unfold add_paragraph, contributes. destruct (len paragraph >? chunkSize).
  - destruct (splitIntoSentences paragraph); [reflexivity | discriminate].
  - destruct (String.eqb_spec paragraph "") as [->|]; [|discriminate].
    intros _. destruct (_ <=? _); reflexivity.
Qed.

Lemma add_paragraphs_started (chunkSize overlap : Z) (paragraphs : list string) (st : chunker) :
  started st \/ existsb (contributes chunkSize) paragraphs = true ->
  started (fold_left (add_paragraph chunkSize overlap) paragraphs st).
Proof.
  revert st. induction paragraphs as [|p rest IH]; intros st Hst; cbn [fold_left].
  - destruct Hst as [Hst|Hst]; [assumption | discriminate].
  - apply IH. cbn [existsb] in Hst.
    destruct (contributes chunkSize p) eqn:Hp.
    + left. apply add_paragraph_started. auto.
    + destruct Hst as [Hst|Hst]; [|auto].
      left. apply add_paragraph_started. auto.
Qed.

Lemma add_paragraphs_idle (chunkSize overlap : Z) (paragraphs : list string) :
  existsb (contributes chunkSize) paragraphs = false ->
  fold_left (add_paragraph chunkSize overlap) paragraphs ([], "") = ([], "").
Proof.
  induction paragraphs as [|p rest IH]; cbn [fold_left existsb]; [reflexivity|].
  intros H. apply orb_false_iff in H as [Hp Hrest].
  rewrite add_paragraph_idle by assumption. auto.
Qed.

Lemma ChunkText_unfold (text : string) (chunkSize overlap : Z) :
  ChunkText text chunkSize overlap =
  let st := fold_left (add_paragraph (normal_size chunkSize) (normal_overlap chunkSize overlap))
              (Split text (LF +:+ LF)) ([], "") in
  if String.eqb st.2 "" then st.1 else st.1 ++ [st.2].
Proof.
  unfold ChunkText, normal_overlap, normal_size. cbn zeta.
  destruct (fold_left _ _ _) as [chunks cur]. reflexivity.
Qed.

(** C7 (counterexample).  A non-empty text made of one paragraph separator
    gives no fragment. *)
Lemma separator_only_text_gives_no_chunk :
  LF +:+ LF <> "" /\ ChunkText (LF +:+ LF) 1000 200 = [].
Proof. split; [discriminate | vm_compute; reflexivity]. Qed.

(** C7 (amended).  The empty text gives no fragment; a text gives at least
    one fragment exactly when one of its paragraphs (the pieces between
    blank-line separators) is non-empty and fits the chunk size, or exceeds
    it and has a sentence.  Texts made only of separators give none. *)
Theorem chunk_text_fragment_count (text : string) (chunkSize overlap : Z) :
  ChunkText "" chunkSize overlap = []
  /\ (ChunkText text chunkSize overlap <> [] <->
      exists paragraph,
        In paragraph (Split text (LF +:+ LF))
        /\ contributes (normal_size chunkSize) paragraph = true).
Proof.
  assert (Hcount : forall t,
    ChunkText t chunkSize overlap <> [] <->
    existsb (contributes (normal_size chunkSize)) (Split t (LF +:+ LF)) = true).
  { intros t. rewrite ChunkText_unfold. cbn zeta.
    destruct (existsb _ _) eqn:Hex.
    - split; [reflexivity|]. intros _.
      pose proof (add_paragraphs_started (normal_size chunkSize)
                    (normal_overlap chunkSize overlap) (Split t (LF +:+ LF)) ([], "")
                    (or_intror Hex)) as Hst.
      destruct (fold_left _ _ _) as [chunks cur]. cbn [fst snd] in *.
      destruct (String.eqb_spec cur "") as [->|Hne]; [|apply snoc_nonempty].
      destruct Hst as [Hst|Hst]; [assumption | contradiction].
    - rewrite add_paragraphs_idle by assumption. cbn. split; [contradiction | discriminate]. }
  split.
  - destruct (ChunkText "" chunkSize overlap) eqn:Hc; [reflexivity|].
    assert (Hne : ChunkText "" chunkSize overlap <> []) by (rewrite Hc; discriminate).
    apply Hcount in Hne. cbn [Split Split_from existsb] in Hne.
    unfold contributes, normal_size, len in Hne. cbn [String.length] in Hne.
    destruct (chunkSize <=? 0) eqn:Hcs; [discriminate|].
    apply Z.leb_gt in Hcs.
    destruct (Z.gtb_spec (Z.of_nat 0) chunkSize); [lia | discriminate].
  - rewrite Hcount, existsb_exists. reflexivity.
Qed.

(** ** The chat archive *)

Lemma length_append (s t : string) :
  String.length (s +:+ t) = (String.length s + String.length t)%nat.
Proof. induction s as [|c s IH]; simpl; [reflexivity | rewrite IH; reflexivity]. Qed.

Lemma append_cancel_r (t s s' : string) : s +:+ t = s' +:+ t -> s = s'.
Proof.
  revert s'. induction s as [|c s IH]; intros [|c' s'] Heq; try reflexivity.
  - apply (f_equal String.length) in Heq. rewrite !length_append in Heq. simpl in Heq. lia.
  - apply (f_equal String.length) in Heq. rewrite !length_append in Heq. simpl in Heq. lia.
  - simpl in Heq. injection Heq as -> Heq. f_equal. auto.
Qed.

(** Among plain names the index file is the transcript file of the id
    ["_info"] and of no other. *)
Lemma chat_path_is_info_path (character chatID : string) :
  plain_chat character chatID = true ->
  getChatPath character chatID = getCharacterInfoPath character <-> chatID = "_info".
Proof.
  intros _. unfold getChatPath, getCharacterInfoPath. split.
  - intros [= Heq]. apply (append_cancel_r ".json"). exact Heq.
  - intros ->. reflexivity.
Qed.

Lemma replace_info_In (chatInfo : ChatInfo) (chats updated : list ChatInfo) :
  replace_info chatInfo chats = Some updated -> In chatInfo updated.
Proof.
  revert updated. induction chats as [|info rest IH]; intros updated; simpl; [discriminate|].
  destruct (String.eqb (InfoID info) (InfoID chatInfo)).
  - intros [= <-]. left. reflexivity.
  - destruct (replace_info chatInfo rest) as [rest'|]; [|discriminate].
    intros [= <-]. right. auto.
Qed.

(** What [updateCharacterInfo] does when the index file is absent or
    accessible and the character directory exists: it succeeds and leaves an
    index that lists [chatInfo]. *)
Lemma updateCharacterInfo_lists (cs : ChatStore) (character : string) (chatInfo : ChatInfo) :
  character ∈ dirs cs ->
  match files cs !! getCharacterInfoPath character with
  | Some f => accessible f = true
  | None => True
  end ->
  exists chats,
    In chatInfo chats
    /\ updateCharacterInfo cs character chatInfo
       = (Ok tt,
          {| dirs := dirs cs;
             files := <[getCharacterInfoPath character :=
                          {| content := IndexJSON chats; accessible := true |}]> (files cs);
             root_writable := root_writable cs |}).
Proof.
  intros Hdir Hindex. unfold updateCharacterInfo, Stat, ChatArchive.ReadFile, ChatArchive.WriteFile.
  destruct (files cs !! getCharacterInfoPath character) as [f|] eqn:Hf.
  - rewrite Hindex.
    destruct (Unmarshal_index (content f)) as [chats| |]; cbn match;
      try (exists [chatInfo]; split; [left; reflexivity | reflexivity]).
    destruct (replace_info chatInfo chats) as [updated|] eqn:Hrep.
    + exists updated. split; [eapply replace_info_In; eassumption | reflexivity].
    + exists (chats ++ [chatInfo]). split; [apply in_or_app; right; left; reflexivity | reflexivity].
  - cbn [fst getCharacterInfoPath]. rewrite decide_True by assumption.
    exists [chatInfo]. split; [left; reflexivity | reflexivity].
Qed.

Lemma WriteFile_Ok (cs cs' : ChatStore) (path : string * string) (data : jsonData) :
  ChatArchive.WriteFile cs path data = (Ok tt, cs') ->
  cs' = {| dirs := dirs cs;
           files := <[path := {| content := data; accessible := true |}]> (files cs);
           root_writable := root_writable cs |}.
Proof.
  unfold ChatArchive.WriteFile.
  destruct (files cs !! path) as [f|]; [destruct (accessible f) | destruct (decide _)];
    intros [= <-]; reflexivity.
Qed.

Lemma updateCharacterInfo_Ok (cs cs' : ChatStore) (character : string) (chatInfo : ChatInfo) :
  updateCharacterInfo cs character chatInfo = (Ok tt, cs') ->
  exists chats,
    cs' = {| dirs := dirs cs;
             files := <[getCharacterInfoPath character :=
                          {| content := IndexJSON chats; accessible := true |}]> (files cs);
             root_writable := root_writable cs |}.
Proof.
  unfold updateCharacterInfo.
  destruct (Stat cs (getCharacterInfoPath character)).
  - destruct (ChatArchive.ReadFile cs (getCharacterInfoPath character)) as [data|e|];
      try discriminate.
    destruct (Unmarshal_index data) as [chats|e|]; intros H; apply WriteFile_Ok in H; eauto.
  - intros H. apply WriteFile_Ok in H. eauto.
  - intros H. apply WriteFile_Ok in H. eauto.
Qed.

Lemma MkdirAll_Ok (cs cs' : ChatStore) (character : string) :
  MkdirAll cs character = (Ok tt, cs') -> character ∈ dirs cs' /\ files cs' = files cs.
Proof.
  unfold MkdirAll. destruct (decide (character ∈ dirs cs)) as [Hin|Hout].
  - intros [= <-]. auto.
  - destruct (root_writable cs); intros [= <-]. cbn [dirs files]. split; [set_solver | reflexivity].
Qed.

Lemma replace_info_upserted (chatInfo : ChatInfo) (chats : list ChatInfo) :
  upserted chatInfo chats
    (match replace_info chatInfo chats with
     | Some updatedChats => updatedChats
     | None => chats ++ [chatInfo]
     end).
Proof.
  assert (Hgen :
    match replace_info chatInfo chats with
    | Some updatedChats =>
        exists front old back,
          chats = front ++ old :: back
          /\ InfoID old = InfoID chatInfo
          /\ (forall info, In info front -> InfoID info <> InfoID chatInfo)
          /\ updatedChats = front ++ chatInfo :: back
    | None => forall info, In info chats -> InfoID info <> InfoID chatInfo
    end).
  { induction chats as [|info rest IH]; cbn [replace_info]; [intros info []|].
    destruct (String.eqb_spec (InfoID info) (InfoID chatInfo)) as [Heq|Hne].
    - exists [], info, rest. repeat split; [assumption | intros x []].
    - destruct (replace_info chatInfo rest) as [rest'|].
      + destruct IH as (front & old & back & -> & Hold & Hfront & ->).
        exists (info :: front), old, back. repeat split; [assumption|].
        intros x [<-|Hx]; [assumption | auto].
      + intros x [<-|Hx]; [assumption | auto]. }
  destruct (replace_info chatInfo chats) as [updatedChats|].
  - left. exact Hgen.
  - right. split; [exact Hgen | reflexivity].
Qed.

(** [updateCharacterInfo] with the character directory in place and the
    index file absent or accessible: it succeeds, and the index it leaves is
    the one the file held with [chatInfo] put in. *)
Lemma updateCharacterInfo_upserts (cs : ChatStore) (character : string) (chatInfo : ChatInfo) :
  character ∈ dirs cs ->
  match files cs !! getCharacterInfoPath character with
  | Some f => accessible f = true
  | None => True
  end ->
  exists chats,
    upserted chatInfo (indexed cs character) chats
    /\ updateCharacterInfo cs character chatInfo
       = (Ok tt,
          {| dirs := dirs cs;
             files := <[getCharacterInfoPath character :=
                          {| content := IndexJSON chats; accessible := true |}]> (files cs);
             root_writable := root_writable cs |}).
Proof.
  intros Hdir Hindex.
  unfold updateCharacterInfo, indexed, Stat, ChatArchive.ReadFile, ChatArchive.WriteFile.
  destruct (files cs !! getCharacterInfoPath character) as [f|] eqn:Hf.
  - rewrite Hindex.
    destruct (content f) as [info messages|chats|]; cbn [Unmarshal_index].
    + eexists. split; [apply (replace_info_upserted chatInfo []) | reflexivity].
    + eexists. split; [apply replace_info_upserted | reflexivity].
    + eexists. split; [apply (replace_info_upserted chatInfo []) | reflexivity].
  - cbn [fst getCharacterInfoPath]. rewrite decide_True by assumption.
    eexists. split; [apply (replace_info_upserted chatInfo []) | reflexivity].
Qed.

(** After a successful [SaveChat] of plain names, the id other than
    ["_info"], a saved version is on disk, in the state
    [save_keeps_creation_time] asks for. *)
Lemma SaveChat_leaves_saved_version (cs cs' : ChatStore) (now1 now2 : Z) (character : string)
  (chat : ChatHistory) :
  plain_chat character (Processor.ID chat) = true ->
  SaveChat cs now1 now2 character chat = (Ok tt, cs') ->
  Processor.ID chat <> "_info" ->
  (exists info,
      files cs' !! getChatPath character (Processor.ID chat)
      = Some {| content := ChatJSON info (Messages chat); accessible := true |})
  /\ character ∈ dirs cs'
  /\ (exists f, files cs' !! getCharacterInfoPath character = Some f /\ accessible f = true).
Proof.
  intros Hplain Hsave Hid. unfold SaveChat in Hsave.
  destruct (MkdirAll cs character) as [[[]|e|] cs1] eqn:Hmk; try discriminate.
  apply MkdirAll_Ok in Hmk as [Hdir Hfiles].
  match type of Hsave with
  | context [ChatArchive.WriteFile cs1 _ (ChatJSON ?i _)] => set (info := i) in Hsave
  end.
  destruct (ChatArchive.WriteFile cs1 _ _) as [[[]|e|] cs2] eqn:Hw; try discriminate.
  apply WriteFile_Ok in Hw. apply updateCharacterInfo_Ok in Hsave as [chats Hcs'].
  subst cs' cs2. cbn [dirs files]. split; [|split].
  - exists info. rewrite lookup_insert_ne, lookup_insert_eq; [reflexivity|].
    intros Heq. symmetry in Heq. apply (chat_path_is_info_path _ _ Hplain) in Heq.
    contradiction.
  - assumption.
  - eexists. rewrite lookup_insert_eq. split; reflexivity.
Qed.

(** C9.  When a version of the transcript is saved under (character, id),
    saving it again succeeds and keeps the creation instant of that version
    while the update instant becomes the instant of the new save: the
    character's index is the index the file held with the new info block put
    in, in the place of the first entry of the id (every other entry stays
    as it is and where it is) or at the end when the id had no entry; and,
    for a character and an id that are plain file names, the id other than
    ["_info"] (which names the index file), the transcript file holds the
    new messages under that info block.  The strings are valid UTF-8. *)
Theorem save_keeps_creation_time (cs : ChatStore) (now1 now2 : Z) (character : string)
  (chat : ChatHistory) (old : ChatInfo) (oldMessages : list ChatMessage) :
  ValidString character = true ->
  valid_chat chat = true ->
  files cs !! getChatPath character (Processor.ID chat)
    = Some {| content := ChatJSON old oldMessages; accessible := true |} ->
  character ∈ dirs cs ->
  match files cs !! getCharacterInfoPath character with
  | Some f => accessible f = true
  | None => True
  end ->
  exists cs' chats,
    SaveChat cs now1 now2 character chat = (Ok tt, cs')
    /\ ListChats cs' character = Ok chats
    /\ upserted (resaved old now2 character chat) (indexed cs character) chats
    /\ CreatedAt (resaved old now2 character chat) = CreatedAt old
    /\ UpdatedAt (resaved old now2 character chat) = now2
    /\ (plain_chat character (Processor.ID chat) = true ->
        Processor.ID chat <> "_info" ->
        files cs' !! getChatPath character (Processor.ID chat)
        = Some {| content := ChatJSON (resaved old now2 character chat) (Messages chat);
                  accessible := true |}).
Proof.
  intros _ _ Hfile Hdir Hindex.
  unfold SaveChat, MkdirAll. rewrite decide_True by assumption.
  match goal with
  | |- context [ChatArchive.WriteFile cs _ (ChatJSON ?i _)] =>
      assert (Hi : i = resaved old now2 character chat)
  end.
  { unfold Stat, ChatArchive.ReadFile. rewrite Hfile. reflexivity. }
  rewrite Hi. clear Hi.
  unfold ChatArchive.WriteFile at 1. rewrite Hfile. cbn [accessible].
  set (cs2 := {| dirs := dirs cs;
                 files := <[getChatPath character (Processor.ID chat) :=
                              {| content := ChatJSON (resaved old now2 character chat) (Messages chat);
                                 accessible := true |}]> (files cs);
                 root_writable := root_writable cs |}).
  assert (Hsame : indexed cs2 character = indexed cs character
                  /\ match files cs2 !! getCharacterInfoPath character with
                     | Some f => accessible f = true
                     | None => True
                     end).
  { unfold indexed. cbn [cs2 files].
    destruct (decide (getChatPath character (Processor.ID chat) = getCharacterInfoPath character))
      as [Heq|Hne].
    - rewrite <- Heq, lookup_insert_eq, Hfile. split; reflexivity.
    - rewrite lookup_insert_ne by assumption. split; [reflexivity | exact Hindex]. }
  destruct Hsame as [Hsame Hindex2].
  destruct (updateCharacterInfo_upserts cs2 character (resaved old now2 character chat)
              Hdir Hindex2) as (chats & Hups & Hupd).
  rewrite Hupd. eexists. exists chats. split; [reflexivity|].
  split; [|split; [|split; [|split]]]; try reflexivity.
  - unfold ListChats, Stat, ChatArchive.ReadFile. cbn [files].
    rewrite lookup_insert_eq. reflexivity.
  - rewrite <- Hsame. exact Hups.
  - intros Hplain Hid. cbn [files cs2].
    rewrite lookup_insert_ne, lookup_insert_eq; [reflexivity|].
    intros Heq. symmetry in Heq. apply (chat_path_is_info_path _ _ Hplain) in Heq.
    contradiction.
Qed.

Lemma save_keeps_creation_time_witness :
  exists cs' chats,
    SaveChat aria_store 200 201 "Aria" first_chat = (Ok tt, cs')
    /\ ListChats cs' "Aria" = Ok chats
    /\ upserted (resaved first_info 201 "Aria" first_chat) (indexed aria_store "Aria") chats
    /\ CreatedAt (resaved first_info 201 "Aria" first_chat) = CreatedAt first_info
    /\ UpdatedAt (resaved first_info 201 "Aria" first_chat) = 201
    /\ (plain_chat "Aria" (Processor.ID first_chat) = true ->
        Processor.ID first_chat <> "_info" ->
        files cs' !! getChatPath "Aria" (Processor.ID first_chat)
        = Some {| content := ChatJSON (resaved first_info 201 "Aria" first_chat)
                               (Messages first_chat);
                  accessible := true |}).
Proof.
  apply (save_keeps_creation_time aria_store 200 201 "Aria" first_chat first_info
           (Messages first_chat)).
  - reflexivity.
  - reflexivity.
  - vm_compute. reflexivity.
  - apply (bool_decide_unpack _). vm_compute. exact I.
  - vm_compute. reflexivity.
Defined.

(** ** The upload handlers *)


Lemma upload_loop_ids (w : World) (mkDoc : nat -> string -> string -> Document)
  (storeMsg : string) (chunks : list string) :
  forall (i : nat) (docIDs docIDs' : list string) (vs vs' : VectorStore),
    upload_loop w mkDoc storeMsg chunks i docIDs vs = (Completed docIDs', vs') ->
    docIDs' = docIDs ++ map (doc_uuid w) (seq i (length chunks)).
Proof.
  induction chunks as [|chunk rest IH]; intros i docIDs docIDs' vs vs'; cbn [upload_loop length seq map].
  - intros [= <- _]. rewrite app_nil_r. reflexivity.
  - destruct (GetEmbedding w i chunk) as [vector|err|]; try discriminate.
    destruct (AddDocument vs _ vector) as [[[]|err|] vs1]; try discriminate.
    intros Hloop. apply IH in Hloop. rewrite Hloop, <- app_assoc. reflexivity.
Qed.

(** Both handlers answer with the response their loop stopped on. *)
Lemma handleDatabankUpload_stopped (w : World) (vs vs' : VectorStore) (req : DatabankRequest)
  (r : Response) :
  ReqContent req <> "" ->
  upload_loop w (databank_doc w req (length (ChunkText (ReqContent req) 1000 200)))
    "存储文档失败" (ChunkText (ReqContent req) 1000 200) 0 [] vs = (Responded r, vs') ->
  handleDatabankUpload w vs (Some req) = (Some r, vs').
Proof.
  intros Hne Hloop. unfold handleDatabankUpload.
  destruct (String.eqb_spec (ReqContent req) ""); [contradiction|].
  cbn zeta. rewrite Hloop. reflexivity.
Qed.




Lemma handleCharacterChatUpload_stopped (w : World) (vs vs' : VectorStore) (cs cs' : ChatStore)
  (character : string) (chatHistory : ChatHistory) (chunks : list string) (r : Response) :
  character <> "" ->
  Messages chatHistory <> [] ->
  SaveChat cs (save_now1 w) (save_now2 w) character (prepared_chat w character chatHistory)
    = (Ok tt, cs') ->
  ProcessChatHistory (prepared_chat w character chatHistory) = Ok chunks ->
  upload_loop w
    (character_chat_doc character (prepared_chat w character chatHistory)
       (<["character" := character]>
          (CreateChatMetadata (upload_time w 0) (prepared_chat w character chatHistory)))
       (length chunks))
    "存储聊天记录失败" chunks 0 [] vs = (Responded r, vs') ->
  handleCharacterChatUpload w vs cs character (Some chatHistory) = (Some r, vs', cs').
Proof.
  intros Hc Hm Hsave Hproc Hloop. unfold handleCharacterChatUpload.
  destruct (String.eqb_spec character ""); [contradiction|].
  unfold prepared_chat in Hsave, Hproc, Hloop.
  destruct (Messages chatHistory) eqn:Hmsgs; [contradiction|].
  cbn zeta. rewrite Hsave, Hproc, Hloop. reflexivity.
Qed.

(** * Further properties of the code *)

(** ** The vector store *)

Lemma db_get_set_other (k k' : string) (v : docData) (l : list (string * docData)) :
  k <> k' -> db_get k (db_set k' v l) = db_get k l.
Proof.
  intros Hne. induction l as [|[k0 v0] rest IH]; simpl.
  - destruct (String.eqb_spec k k'); [contradiction | reflexivity].
  - destruct (String.compare k' k0) eqn:Hc; simpl.
    + apply String.compare_eq_iff in Hc. subst k0.
      destruct (String.eqb_spec k k'); [contradiction | reflexivity].
    + destruct (String.eqb_spec k k'); [contradiction | reflexivity].
    + destruct (String.eqb k k0); [reflexivity | assumption].
Qed.

Lemma db_get_delete_other (k k' : string) (l : list (string * docData)) :
  k <> k' -> db_get k (db_delete k' l) = db_get k l.
Proof.
  intros Hne. induction l as [|[k0 v0] rest IH]; simpl; [reflexivity|].
  destruct (String.eqb_spec k' k0) as [<-|Hk0].
  - destruct (String.eqb_spec k k'); [contradiction | assumption].
  - simpl. destruct (String.eqb k k0); [reflexivity | assumption].
Qed.

Lemma db_set_set (k : string) (v1 v2 : docData) (l : list (string * docData)) :
  db_set k v2 (db_set k v1 l) = db_set k v2 l.
Proof.
  induction l as [|[k0 v0] rest IH]; simpl.
  - rewrite compare_refl. reflexivity.
  - destruct (String.compare k k0) eqn:Hc; simpl.
    + rewrite compare_refl. reflexivity.
    + rewrite compare_refl. reflexivity.
    + rewrite Hc, IH. reflexivity.
Qed.

Lemma GetDocument_congr (vs vs' : VectorStore) (id : string) :
  db_closed vs' = db_closed vs -> db_get id (db vs') = db_get id (db vs) ->
  GetDocument vs' id = GetDocument vs id.
Proof.
  intros Hc Hg. unfold GetDocument, db_View. rewrite Hc, Hg. reflexivity.
Qed.

Lemma GetVector_congr (vs vs' : VectorStore) (id : string) :
  vectors vs' !! id = vectors vs !! id -> GetVector vs' id = GetVector vs id.
Proof. intros Hv. rewrite !GetVector_spec, Hv. reflexivity. Qed.

(** X1.  Among ids that are plain file names, adding or deleting a document
    under one id changes nothing of what [GetDocument] and [GetVector]
    return for any other id. *)
Theorem add_and_delete_leave_other_ids (vs : VectorStore) (doc : Document)
  (vector : list float32) (id : string) :
  plain_id (Storage.ID doc) = true ->
  plain_id id = true ->
  id <> Storage.ID doc ->
  GetDocument (AddDocument vs doc vector).2 id = GetDocument vs id
  /\ GetVector (AddDocument vs doc vector).2 id = GetVector vs id
  /\ GetDocument (DeleteDocument vs (Storage.ID doc)).2 id = GetDocument vs id
  /\ GetVector (DeleteDocument vs (Storage.ID doc)).2 id = GetVector vs id.
Proof.
  intros _ _ Hne. rewrite AddDocument_spec, DeleteDocument_spec.
  destruct (db_closed vs) eqn:Hopen; [repeat split; reflexivity|]. cbn zeta.
  assert (Hadd : forall fs,
    GetDocument {| db := db_set (Storage.ID doc) (DocJSON doc) (db vs); db_closed := false;
                   vectors := fs |} id = GetDocument vs id).
  { intros fs. apply GetDocument_congr; cbn [db db_closed]; [congruence|].
    apply db_get_set_other. assumption. }
  split; [|split; [|split]].
  - destruct (vectors vs !! Storage.ID doc) as [[bytes|]|]; apply Hadd.
  - destruct (vectors vs !! Storage.ID doc) as [[bytes|]|]; apply GetVector_congr;
      cbn [snd vectors]; try reflexivity; apply lookup_insert_ne; congruence.
  - apply GetDocument_congr; cbn [snd db db_closed]; [congruence|].
    apply db_get_delete_other. assumption.
  - apply GetVector_congr. cbn [snd vectors]. apply lookup_delete_ne. congruence.
Qed.

Lemma add_and_delete_leave_other_ids_witness :
  GetDocument (AddDocument databank_store (sample_doc "d2" []) [one]).2 "d1"
    = GetDocument databank_store "d1"
  /\ GetVector (AddDocument databank_store (sample_doc "d2" []) [one]).2 "d1"
     = GetVector databank_store "d1"
  /\ GetDocument (DeleteDocument databank_store "d2").2 "d1" = GetDocument databank_store "d1"
  /\ GetVector (DeleteDocument databank_store "d2").2 "d1" = GetVector databank_store "d1".
Proof.
  apply (add_and_delete_leave_other_ids databank_store (sample_doc "d2" []) [one] "d1").
  - reflexivity.
  - reflexivity.
  - discriminate.
Defined.

(** X2.  [AddDocument] is an upsert by id: adding a second document under an
    id leaves the store (and gives the result) that adding it alone gives;
    nothing of the first document or of its vector remains. *)
Theorem add_twice_is_add_last (vs : VectorStore) (doc1 doc2 : Document)
  (vector1 vector2 : list float32) :
  Storage.ID doc1 = Storage.ID doc2 ->
  AddDocument (AddDocument vs doc1 vector1).2 doc2 vector2 = AddDocument vs doc2 vector2.
Proof.
  intros Hid. rewrite (AddDocument_spec vs doc1), (AddDocument_spec vs doc2).
  destruct (db_closed vs) eqn:Hopen.
  - cbn [snd]. rewrite AddDocument_spec, Hopen. reflexivity.
  - cbn zeta. rewrite Hid.
    destruct (vectors vs !! Storage.ID doc2) as [[bytes|]|] eqn:Hfile; cbn [snd];
      rewrite AddDocument_spec; cbn [db db_closed vectors]; cbn zeta;
      rewrite db_set_set.
    + rewrite lookup_insert_eq, insert_insert_eq. reflexivity.
    + rewrite Hfile. reflexivity.
    + rewrite lookup_insert_eq, insert_insert_eq. reflexivity.
Qed.

Lemma add_twice_is_add_last_witness :
  AddDocument (AddDocument empty_store (sample_doc "d1" ["old"]) [one; one]).2
    (sample_doc "d1" ["new"]) [half]
  = AddDocument empty_store (sample_doc "d1" ["new"]) [half].
Proof.
  apply (add_twice_is_add_last empty_store (sample_doc "d1" ["old"]) (sample_doc "d1" ["new"])).
  reflexivity.
Defined.

Lemma In_db_delete (k : string) (l : list (string * docData)) (kv : string * docData) :
  In kv (db_delete k l) <-> In kv l /\ kv.1 <> k.
Proof.
  induction l as [|[k0 v0] rest IH]; simpl; [tauto|].
  destruct (String.eqb_spec k k0) as [<-|Hne].
  - rewrite IH. split; [tauto|]. intros [[<-|Hin] Hk]; [contradiction Hk; reflexivity | tauto].
  - simpl. rewrite IH. split.
    + intros [<-|[Hin Hk]]; [split; [tauto | simpl; congruence] | tauto].
    + tauto.
Qed.

Lemma list_loop_spec (table : list (string * docData)) :
  forall docs,
    list_loop table docs =
    match mapM record_doc table with
    | Some decoded => Ok (docs ++ decoded)
    | None => Fail (Wrap "解析文档失败" ErrSyntax)
    end.
Proof.
  induction table as [|[k [doc|]] rest IH]; intros docs; simpl.
  - rewrite app_nil_r. reflexivity.
  - rewrite IH. destruct (mapM record_doc rest); simpl; [rewrite <- app_assoc|]; reflexivity.
  - reflexivity.
Qed.

Lemma ListDocuments_spec (vs : VectorStore) :
  ListDocuments vs =
  if db_closed vs then Fail (Wrap "获取文档列表失败" ErrDBClosed)
  else match mapM record_doc (db vs) with
       | Some decoded => Ok decoded
       | None => Fail (Wrap "获取文档列表失败" (Wrap "解析文档失败" ErrSyntax))
       end.
Proof.
  unfold ListDocuments, db_View. destruct (db_closed vs); [reflexivity|].
  rewrite list_loop_spec. destruct (mapM record_doc (db vs)); reflexivity.
Qed.

Lemma In_mapM_record_doc (table : list (string * docData)) (decoded : list Document)
  (doc : Document) :
  mapM record_doc table = Some decoded ->
  (In doc decoded <-> exists k, In (k, DocJSON doc) table).
Proof.
  revert decoded. induction table as [|[k [d|]] rest IH]; intros decoded; simpl.
  - intros [= <-]. split; [intros [] | intros [k []]].
  - destruct (mapM record_doc rest) as [ds|]; [|discriminate].
    simpl. intros [= <-]. specialize (IH ds eq_refl). simpl. rewrite IH. split.
    + intros [<-|[k' Hk']]; [exists k; auto | exists k'; auto].
    + intros [k' [Heq|Hin]]; [left; congruence | right; exists k'; assumption].
  - discriminate.
Qed.

Lemma Search_Ok `{SliceSort} (vs : VectorStore) (q : list float32) (limit : Z)
  (filter : option (Document -> bool)) (docs : list Document) (scores : list float32) :
  SearchSimilarWithFilter vs q limit filter = Ok (docs, scores) ->
  db_closed vs = false /\ docs = map fst (hits vs q limit) /\ scores = map snd (hits vs q limit).
Proof.
  rewrite Search_spec. destruct (db_closed vs); [discriminate|].
  intros [= <- <-]. auto.
Qed.

(** Where a hit comes from: an id of the table whose vector file is read and
    whose record decodes. *)
Lemma In_hits `{Laws : SliceSortLaws} (vs : VectorStore) (q : list float32) (limit : Z)
  (doc : Document) (score : float32) :
  In (doc, score) (hits vs q limit) ->
  exists id bytes,
    db_get id (db vs) = Some (DocJSON doc)
    /\ vectors vs !! id = Some (VData bytes)
    /\ score = cosine q (words bytes).
Proof.
  intros Hhit. apply In_omap in Hhit as (sim & Hsim & Hdetail).
  apply In_cut, In_ranked, In_candidates in Hsim as (bytes & _ & Hv & Hs).
  unfold detail in Hdetail.
  destruct (db_get (sim_id sim) (db vs)) as [[d|]|] eqn:Hget; try discriminate.
  injection Hdetail as -> <-. exists (sim_id sim), bytes. auto.
Qed.

(** X3.  After [DeleteDocument] of an id on an open store, [GetDocument] and
    [GetVector] fail for it, no listed document and no search result has
    that id. *)
Theorem deleted_id_is_gone `{Laws : SliceSortLaws} (vs : VectorStore) (id : string) :
  db_closed vs = false ->
  keys_match vs ->
  (exists e, GetDocument (DeleteDocument vs id).2 id = Fail e)
  /\ (exists e, GetVector (DeleteDocument vs id).2 id = Fail e)
  /\ (forall docs, ListDocuments (DeleteDocument vs id).2 = Ok docs ->
      forall doc, In doc docs -> Storage.ID doc <> id)
  /\ (forall q limit filter docs scores,
      SearchSimilarWithFilter (DeleteDocument vs id).2 q limit filter = Ok (docs, scores) ->
      forall doc, In doc docs -> Storage.ID doc <> id).
Proof.
  intros Hopen Hkeys. rewrite DeleteDocument_spec, Hopen. cbn [snd].
  set (vs' := {| db := db_delete id (db vs); db_closed := false;
                 vectors := delete id (vectors vs) |}).
  assert (Hgone : forall k doc, In (k, DocJSON doc) (db vs') -> Storage.ID doc <> id).
  { intros k doc Hin. apply In_db_delete in Hin as [Hin Hk].
    apply Hkeys in Hin. simpl in Hk. congruence. }
  split; [|split; [|split]].
  - rewrite GetDocument_spec by reflexivity. cbn [vs' db]. rewrite db_get_delete. eauto.
  - rewrite GetVector_spec. cbn [vs' vectors]. rewrite lookup_delete_eq. eauto.
  - intros docs Hlist doc Hdoc. rewrite ListDocuments_spec in Hlist. cbn [vs' db_closed] in Hlist.
    destruct (mapM record_doc (db vs')) as [decoded|] eqn:Hdec; [|discriminate].
    injection Hlist as <-.
    apply (In_mapM_record_doc _ _ doc Hdec) in Hdoc as [k Hk]. eauto.
  - intros q limit filter docs scores Hsearch doc Hdoc.
    apply Search_Ok in Hsearch as (_ & -> & _).
    apply in_map_iff in Hdoc as ([doc' score] & Hfst & Hhit). simpl in Hfst. subst doc'.
    apply In_hits in Hhit as (k & bytes & Hget & _). apply db_get_In in Hget. eauto.
Qed.

Lemma deleted_id_is_gone_witness :
  (exists e, GetDocument (DeleteDocument tie_store "a").2 "a" = Fail e)
  /\ (exists e, GetVector (DeleteDocument tie_store "a").2 "a" = Fail e)
  /\ (forall docs, ListDocuments (DeleteDocument tie_store "a").2 = Ok docs ->
      forall doc, In doc docs -> Storage.ID doc <> "a")
  /\ (forall q limit filter docs scores,
      SearchSimilarWithFilter (H := insertion_sorter) (DeleteDocument tie_store "a").2 q limit filter
      = Ok (docs, scores) ->
      forall doc, In doc docs -> Storage.ID doc <> "a").
Proof.
  apply (deleted_id_is_gone (Laws := insertion_sorter_laws) tie_store "a").
  - reflexivity.
  - apply keys_match_AddDocument, keys_match_AddDocument, keys_match_empty.
Defined.

(** X4.  [AddDocument] writes the record before the vector file and does not
    undo it: for a document of valid UTF-8 strings under a plain id, when
    the vector file cannot be written it returns an error, yet [GetDocument]
    returns the document afterwards, while [GetVector] fails for it. *)
Theorem failed_vector_write_leaves_the_record (vs : VectorStore) (doc : Document)
  (vector : list float32) :
  db_closed vs = false ->
  storable doc = true ->
  vectors vs !! Storage.ID doc = Some VDenied ->
  (AddDocument vs doc vector).1 = Fail (Wrap "无法存储向量" ErrPermission)
  /\ GetDocument (AddDocument vs doc vector).2 (Storage.ID doc) = Ok doc
  /\ GetVector (AddDocument vs doc vector).2 (Storage.ID doc)
     = Fail (Wrap "无法读取向量" ErrPermission).
Proof.
  intros Hopen _ Hfile. rewrite AddDocument_spec, Hopen. cbn zeta. rewrite Hfile. cbn [fst snd].
  split; [reflexivity|]. split.
  - rewrite GetDocument_spec by reflexivity. cbn [db]. rewrite db_get_set. reflexivity.
  - rewrite GetVector_spec. cbn [vectors]. rewrite Hfile. reflexivity.
Qed.

Lemma failed_vector_write_leaves_the_record_witness :
  (AddDocument damaged_store (sample_doc "b" ["again"]) [one]).1
    = Fail (Wrap "无法存储向量" ErrPermission)
  /\ GetDocument (AddDocument damaged_store (sample_doc "b" ["again"]) [one]).2 "b"
     = Ok (sample_doc "b" ["again"])
  /\ GetVector (AddDocument damaged_store (sample_doc "b" ["again"]) [one]).2 "b"
     = Fail (Wrap "无法读取向量" ErrPermission).
Proof.
  apply (failed_vector_write_leaves_the_record damaged_store (sample_doc "b" ["again"]) [one]).
  - reflexivity.
  - vm_compute. reflexivity.
  - vm_compute. reflexivity.
Defined.

Lemma length_words (data : list Z) : length (words data) = (length data / 4)%nat.
Proof.
  assert (Hgen : forall n data, (length data <= n)%nat ->
            length (words data) = (length data / 4)%nat).
  { clear data. induction n as [|n IH]; intros data Hn.
    - destruct data; [reflexivity | simpl in Hn; lia].
    - destruct data as [|b0 [|b1 [|b2 [|b3 rest]]]]; try reflexivity.
      rewrite length_four_more. cbn [words length]. f_equal.
      apply IH. simpl in Hn. lia. }
  apply (Hgen (length data)). lia.
Qed.

(** X5.  [GetVector] never indexes out of range: whatever bytes the vector
    file holds it returns one component for each full group of four bytes
    (a trailing partial group is ignored), and it fails exactly when the
    file cannot be read. *)
Theorem get_vector_reads_full_groups (vs : VectorStore) (id : string) :
  match vectors vs !! id with
  | Some (VData bytes) =>
      exists vector, GetVector vs id = Ok vector /\ length vector = (length bytes / 4)%nat
  | _ => exists e, GetVector vs id = Fail e
  end.
Proof.
  rewrite GetVector_spec. destruct (vectors vs !! id) as [[bytes|]|]; eauto.
  eexists. split; [reflexivity | apply length_words].
Qed.

(** X6.  Every search result is a stored document with the similarity of
    its own stored vector: [GetDocument] of its id returns it and its score
    is [cosineSimilarity] of the query and of what [GetVector] returns for
    that id. *)
Theorem search_results_are_stored_and_scored `{Laws : SliceSortLaws} (vs : VectorStore)
  (queryVector : list float32) (limit : Z) (filter : option (Document -> bool))
  (docs : list Document) (scores : list float32) :
  keys_match vs ->
  SearchSimilarWithFilter vs queryVector limit filter = Ok (docs, scores) ->
  forall i doc score,
    docs !! i = Some doc -> scores !! i = Some score ->
    GetDocument vs (Storage.ID doc) = Ok doc
    /\ exists vector,
         GetVector vs (Storage.ID doc) = Ok vector
         /\ cosineSimilarity queryVector vector = Ok score.
Proof.
  intros Hkeys Hsearch i doc score Hdoc Hscore.
  apply Search_Ok in Hsearch as (Hopen & -> & ->).
  rewrite list_lookup_fmap in Hdoc. rewrite list_lookup_fmap in Hscore.
  destruct (hits vs queryVector limit !! i) as [[d s]|] eqn:Hi; [|discriminate].
  injection Hdoc as ->. injection Hscore as ->.
  assert (Hin : In (doc, score) (hits vs queryVector limit)).
  { apply list_elem_of_In, list_elem_of_lookup. eauto. }
  apply In_hits in Hin as (id & bytes & Hget & Hv & ->).
  pose proof (Hkeys _ _ (db_get_In _ _ _ Hget)) as Hid. rewrite Hid.
  split.
  - rewrite GetDocument_spec, Hget by assumption. reflexivity.
  - exists (words bytes). rewrite GetVector_spec, Hv, cosineSimilarity_spec. auto.
Qed.

Lemma search_results_are_stored_and_scored_witness :
  GetDocument tie_store (Storage.ID (sample_doc "a" [])) = Ok (sample_doc "a" [])
  /\ exists vector,
       GetVector tie_store (Storage.ID (sample_doc "a" [])) = Ok vector
       /\ cosineSimilarity [one] vector = Ok one.
Proof.
  apply (search_results_are_stored_and_scored (Laws := insertion_sorter_laws)
           tie_store [one] 2 None [sample_doc "a" []; sample_doc "b" []] [one; one])
    with (i := 0%nat).
  - apply keys_match_AddDocument, keys_match_AddDocument, keys_match_empty.
  - vm_compute. reflexivity.
  - reflexivity.
  - reflexivity.
Defined.

(** X7.  A limit that is zero or negative does not limit: the search
    returns what it returns under any limit at least the number of stored
    records. *)
Theorem nonpositive_limit_is_no_limit `{Laws : SliceSortLaws} (vs : VectorStore)
  (queryVector : list float32) (limit limit' : Z) (filter : option (Document -> bool)) :
  limit <= 0 ->
  Z.of_nat (length (db vs)) <= limit' ->
  SearchSimilarWithFilter vs queryVector limit filter
  = SearchSimilarWithFilter vs queryVector limit' filter.
Proof.
  intros Hlimit Hall. rewrite !Search_spec. destruct (db_closed vs); [reflexivity|].
  assert (Hlen : (length (candidates vs queryVector) <= length (db vs))%nat).
  { unfold candidates. etransitivity; [apply length_omap_le|]. rewrite length_map. lia. }
  unfold hits. rewrite !cut_all; [reflexivity | |]; rewrite length_ranked; lia.
Qed.

Lemma nonpositive_limit_is_no_limit_witness :
  SearchSimilarWithFilter (H := insertion_sorter) tie_store [one] (-1) None
  = SearchSimilarWithFilter (H := insertion_sorter) tie_store [one] 2 None.
Proof.
  apply (nonpositive_limit_is_no_limit (Laws := insertion_sorter_laws) tie_store [one] (-1) 2 None).
  - lia.
  - vm_compute. discriminate.
Defined.

(** ** Floats that are stored as zero *)

Lemma digits2_pos_bound (m : positive) : Zpos m < 2 ^ Zpos (digits2_pos m).
Proof.
  induction m as [m IH|m IH|]; cbn [digits2_pos]; [| |reflexivity];
    rewrite Pos2Z.inj_succ, Z.pow_succ_r by lia; lia.
Qed.

Lemma below_one_to_uint32 (v : float32) : below_one v = true -> to_uint32 v = 0.
Proof.
  destruct v as [s|s| |s m e]; try discriminate; [reflexivity|].
  unfold below_one. intros Hd. apply Z.leb_le in Hd.
  unfold to_uint32, trunc.
  replace (Z.shiftl (Zpos m) e) with 0; [destruct s; reflexivity|].
  replace e with (- - e) by lia. change (Z.shiftl (Zpos m) (- - e)) with (Z.shiftr (Zpos m) (- e)).
  rewrite Z.shiftr_div_pow2 by lia. symmetry. apply Z.div_small.
  pose proof (digits2_pos_bound m). split; [lia|].
  apply Z.lt_le_trans with (2 ^ Zpos (digits2_pos m)); [assumption|].
  apply Z.pow_le_mono_r; lia.
Qed.

Lemma sums_keep_zero_norm (l : list (float32 * float32)) :
  forall acc : float32 * float32 * float32,
    acc.2 = zero -> List.Forall (fun p => is_zero p.2 = true) l ->
    (fold_left sums_step l acc).2 = zero.
Proof.
  induction l as [|[x y] l IH]; intros [[d na] nb] Hnb Hl; cbn [fold_left]; [assumption|].
  apply List.Forall_cons_iff in Hl as [Hy Hl]. apply IH; [|assumption].
  cbn [sums_step snd fst] in *. subst nb.
  destruct y as [s| | |]; try discriminate. destruct s; reflexivity.
Qed.

Lemma sums_keep_zero_norm_l (l : list (float32 * float32)) :
  forall acc : float32 * float32 * float32,
    acc.1.2 = zero -> List.Forall (fun p => is_zero p.1 = true) l ->
    (fold_left sums_step l acc).1.2 = zero.
Proof.
  induction l as [|[x y] l IH]; intros [[d na] nb] Hna Hl; cbn [fold_left]; [assumption|].
  apply List.Forall_cons_iff in Hl as [Hx Hl]. apply IH; [|assumption].
  cbn [sums_step snd fst] in *. subst na.
  destruct x as [s| | |]; try discriminate. destruct s; reflexivity.
Qed.

Lemma Forall_combine_r {A B : Type} (P : B -> Prop) (a : list A) (b : list B) :
  List.Forall P b -> List.Forall (fun p => P p.2) (combine a b).
Proof.
  intros Hb. rewrite List.Forall_forall in *. intros [x y] Hin.
  apply in_combine_r in Hin. auto.
Qed.

Lemma Forall_combine_l {A B : Type} (P : A -> Prop) (a : list A) (b : list B) :
  List.Forall P a -> List.Forall (fun p => P p.1) (combine a b).
Proof.
  intros Ha. rewrite List.Forall_forall in *. intros [x y] Hin.
  apply in_combine_l in Hin. auto.
Qed.

Lemma cosine_zero_r (a b : list float32) :
  List.Forall (fun v => is_zero v = true) b -> cosine a b = zero.
Proof.
  intros Hb. unfold cosine. destruct (negb _); [reflexivity|].
  pose proof (sums_keep_zero_norm (combine a b) (zero, zero, zero) eq_refl
                (Forall_combine_r _ a b Hb)) as Hn.
  destruct (fold_left sums_step (combine a b) (zero, zero, zero)) as [[d na] nb].
  cbn [snd] in Hn. subst nb. rewrite orb_true_r. reflexivity.
Qed.

Lemma cosine_zero_l (a b : list float32) :
  List.Forall (fun v => is_zero v = true) a -> cosine a b = zero.
Proof.
  intros Ha. unfold cosine. destruct (negb _); [reflexivity|].
  pose proof (sums_keep_zero_norm_l (combine a b) (zero, zero, zero) eq_refl
                (Forall_combine_l _ a b Ha)) as Hn.
  destruct (fold_left sums_step (combine a b) (zero, zero, zero)) as [[d na] nb].
  cbn [snd fst] in Hn. subst na. reflexivity.
Qed.

(** X8.  The similarity of a zero vector with any vector is 0: when every
    component of one argument is a zero, [cosineSimilarity] returns 0 (it
    does not divide by the zero norm). *)
Theorem zero_vector_has_zero_similarity (a b : list float32) :
  List.Forall (fun v => is_zero v = true) a \/ List.Forall (fun v => is_zero v = true) b ->
  cosineSimilarity a b = Ok zero.
Proof.
  intros [Ha|Hb]; rewrite cosineSimilarity_spec; f_equal;
    [apply cosine_zero_l | apply cosine_zero_r]; assumption.
Qed.

Lemma zero_vector_has_zero_similarity_witness :
  cosineSimilarity [zero; S754_zero true] [one; half] = Ok zero.
Proof.
  apply (zero_vector_has_zero_similarity [zero; S754_zero true] [one; half]).
  left. repeat constructor.
Defined.

(** X9.  A vector whose components all have magnitude below 1 is stored as
    zeros: after a successful [AddDocument], [GetVector] returns a vector of
    zeros of the same length, whose similarity with every query is 0. *)
Theorem small_components_are_stored_as_zero (vs vs' : VectorStore) (doc : Document)
  (vector : list float32) :
  List.Forall (fun v => below_one v = true) vector ->
  AddDocument vs doc vector = (Ok tt, vs') ->
  GetVector vs' (Storage.ID doc) = Ok (map (fun _ => zero) vector)
  /\ forall queryVector,
       cosineSimilarity queryVector (map (fun _ => zero) vector) = Ok zero.
Proof.
  intros Hsmall Hadd. split.
  - destruct (GetVector_AddDocument vs vs' doc vector Hadd) as [_ ->]. f_equal.
    apply map_ext_in. intros v Hv. rewrite List.Forall_forall in Hsmall.
    rewrite below_one_to_uint32 by auto. reflexivity.
  - intros q. rewrite cosineSimilarity_spec, cosine_zero_r; [reflexivity|].
    rewrite List.Forall_forall. intros v Hv. apply in_map_iff in Hv as (x & <- & _). reflexivity.
Qed.

Lemma small_components_are_stored_as_zero_witness :
  GetVector (AddDocument empty_store (sample_doc "d1" []) [half; SFopp half; zero]).2 "d1"
    = Ok (map (fun _ => zero) [half; SFopp half; zero])
  /\ forall queryVector,
       cosineSimilarity queryVector (map (fun _ => zero) [half; SFopp half; zero]) = Ok zero.
Proof.
  apply (small_components_are_stored_as_zero empty_store _ (sample_doc "d1" [])
           [half; SFopp half; zero]).
  - repeat constructor.
  - vm_compute. reflexivity.
Defined.

(** ** Symmetry of the similarity *)

Lemma mul_comm (x y : float32) : mul x y = mul y x.
Proof.
  unfold mul.
  destruct x as [sx|sx| |sx mx ex], y as [sy|sy| |sy my ey]; cbn [SFmul];
    rewrite ?(xorb_comm sx sy); try reflexivity.
  rewrite (Pos.mul_comm mx my), (Z.add_comm ex ey). reflexivity.
Qed.

Lemma sums_swap (a : list float32) :
  forall (b : list float32) (d na nb : float32),
    fold_left sums_step (combine b a) (d, nb, na)
    = let '(d', na', nb') := fold_left sums_step (combine a b) (d, na, nb) in (d', nb', na').
Proof.
  induction a as [|x a IH]; intros [|y b] d na nb; try reflexivity.
  cbn [combine fold_left sums_step fst snd]. rewrite (mul_comm y x). apply IH.
Qed.

(** X10.  [cosineSimilarity] is symmetric: exchanging the two vectors gives
    the same result, for all vectors of floats. *)
Theorem cosine_similarity_is_symmetric (a b : list float32) :
  cosineSimilarity a b = cosineSimilarity b a.
Proof.
  rewrite !cosineSimilarity_spec. f_equal. unfold cosine.
  rewrite (Nat.eqb_sym (length b) (length a)).
  destruct (negb _); [reflexivity|].
  rewrite (sums_swap a b zero zero zero).
  destruct (fold_left sums_step (combine a b) (zero, zero, zero)) as [[d na] nb].
  rewrite (orb_comm (eqb nb zero)).
  destruct (_ || _); [reflexivity|].
  rewrite (mul_comm (of_float64 (sqrt64 (to_float64 nb)))). reflexivity.
Qed.

(** ** The order of the table *)

Lemma ascii_compare_Lt_trans (a b c : ascii) :
  Ascii.compare a b = Lt -> Ascii.compare b c = Lt -> Ascii.compare a c = Lt.
Proof.
  unfold Ascii.compare. rewrite !N.compare_lt_iff. lia.
Qed.

Lemma compare_Lt_trans (a : string) :
  forall b c : string,
    String.compare a b = Lt -> String.compare b c = Lt -> String.compare a c = Lt.
Proof.
  induction a as [|x a IH]; intros [|y b] [|z c]; simpl; try congruence.
  destruct (Ascii.compare x y) eqn:Hxy; try discriminate.
  - apply Ascii.compare_eq_iff in Hxy. subst y.
    destruct (Ascii.compare x z); try congruence. apply IH.
  - intros _. destruct (Ascii.compare y z) eqn:Hyz; try discriminate.
    + apply Ascii.compare_eq_iff in Hyz. subst z. rewrite Hxy. reflexivity.
    + rewrite (ascii_compare_Lt_trans x y z Hxy Hyz). reflexivity.
Qed.

Lemma sorted_keys_set (k : string) (v : docData) (l : list (string * docData)) :
  sorted_keys l -> sorted_keys (db_set k v l).
Proof.
  unfold sorted_keys. induction 1 as [|[k0 v0] rest Hs IH Hk0]; simpl.
  - repeat constructor.
  - destruct (String.compare k k0) eqn:Hc.
    + apply String.compare_eq_iff in Hc. subst k0. constructor; assumption.
    + constructor; [constructor; assumption|].
      constructor; [assumption|].
      rewrite List.Forall_forall in *. intros kv Hkv.
      apply (compare_Lt_trans k k0); [assumption | apply Hk0; assumption].
    + constructor; [assumption|].
      rewrite List.Forall_forall in *. intros kv Hkv.
      apply In_db_set in Hkv as [->|Hkv]; [|auto].
      cbn [fst]. rewrite String.compare_antisym, Hc. reflexivity.
Qed.

Lemma sorted_keys_delete (k : string) (l : list (string * docData)) :
  sorted_keys l -> sorted_keys (db_delete k l).
Proof.
  unfold sorted_keys. induction 1 as [|[k0 v0] rest Hs IH Hk0]; simpl; [constructor|].
  destruct (String.eqb k k0); [assumption|].
  constructor; [assumption|].
  rewrite List.Forall_forall in *. intros kv Hkv. apply In_db_delete in Hkv as [Hkv _]. auto.
Qed.

Lemma sorted_keys_get (k : string) (v : docData) (l : list (string * docData)) :
  sorted_keys l -> In (k, v) l -> db_get k l = Some v.
Proof.
  unfold sorted_keys. induction 1 as [|[k0 v0] rest Hs IH Hk0]; simpl; [contradiction|].
  intros [Heq|Hin].
  - injection Heq as -> ->. rewrite String.eqb_refl. reflexivity.
  - destruct (String.eqb_spec k k0) as [->|Hne]; [|auto].
    rewrite List.Forall_forall in Hk0. apply Hk0 in Hin. cbn [fst] in Hin.
    rewrite compare_refl in Hin. discriminate.
Qed.

Lemma sorted_keys_AddDocument (vs : VectorStore) (doc : Document) (vector : list float32) :
  sorted_keys (db vs) -> sorted_keys (db (AddDocument vs doc vector).2).
Proof.
  intros Hs. rewrite AddDocument_spec. destruct (db_closed vs); [assumption|]. cbn zeta.
  destruct (vectors vs !! Storage.ID doc) as [[bytes|]|]; apply sorted_keys_set; assumption.
Qed.

Lemma sorted_keys_DeleteDocument (vs : VectorStore) (id : string) :
  sorted_keys (db vs) -> sorted_keys (db (DeleteDocument vs id).2).
Proof.
  intros Hs. rewrite DeleteDocument_spec. destruct (db_closed vs); [assumption|].
  apply sorted_keys_delete. assumption.
Qed.

Lemma keys_match_DeleteDocument (vs : VectorStore) (id : string) :
  keys_match vs -> keys_match (DeleteDocument vs id).2.
Proof.
  intros Hk. rewrite DeleteDocument_spec. destruct (db_closed vs); [assumption|].
  intros k doc Hin. apply In_db_delete in Hin as [Hin _]. auto.
Qed.

Lemma mapM_record_doc_sorted (table : list (string * docData)) (decoded : list Document) :
  sorted_keys table ->
  (forall k doc, In (k, DocJSON doc) table -> Storage.ID doc = k) ->
  mapM record_doc table = Some decoded ->
  StronglySorted (fun a b => String.compare (Storage.ID a) (Storage.ID b) = Lt) decoded.
Proof.
  unfold sorted_keys. intros Hs. revert decoded.
  induction Hs as [|[k0 [d0|]] rest Hs IH Hk0]; intros decoded Hkeys; simpl.
  - intros [= <-]. constructor.
  - destruct (mapM record_doc rest) as [ds|] eqn:Hds; [|discriminate].
    simpl. intros [= <-].
    constructor; [apply IH; [intros; apply Hkeys; right; assumption | reflexivity]|].
    rewrite List.Forall_forall in *. intros d Hd.
    apply (In_mapM_record_doc rest ds d Hds) in Hd as [k Hk].
    rewrite (Hkeys k0 d0) by (left; reflexivity).
    rewrite (Hkeys k d) by (right; assumption).
    apply (Hk0 _ Hk).
  - discriminate.
Qed.

(** X11.  On a store whose table is in key order with every record under
    the id of its document (as [AddDocument] and [DeleteDocument] keep it),
    [ListDocuments] lists the documents in strictly ascending order of id,
    so none twice, and a document is listed exactly when [GetDocument] of
    its id returns it. *)
Theorem list_agrees_with_get (vs : VectorStore) (docs : list Document) :
  sorted_keys (db vs) ->
  keys_match vs ->
  ListDocuments vs = Ok docs ->
  StronglySorted (fun a b => String.compare (Storage.ID a) (Storage.ID b) = Lt) docs
  /\ forall doc, In doc docs <-> GetDocument vs (Storage.ID doc) = Ok doc.
Proof.
  intros Hs Hkeys Hlist. rewrite ListDocuments_spec in Hlist.
  destruct (db_closed vs) eqn:Hopen; [discriminate|].
  destruct (mapM record_doc (db vs)) as [decoded|] eqn:Hdec; [|discriminate].
  injection Hlist as <-. split; [eapply mapM_record_doc_sorted; eassumption|].
  intros doc. rewrite (In_mapM_record_doc _ _ doc Hdec), GetDocument_spec by assumption. split.
  - intros [k Hk]. pose proof (Hkeys _ _ Hk) as <-.
    rewrite (sorted_keys_get _ _ _ Hs Hk). reflexivity.
  - destruct (db_get (Storage.ID doc) (db vs)) as [[d|]|] eqn:Hget; try discriminate.
    intros [= ->]. exists (Storage.ID doc). apply db_get_In. assumption.
Qed.

Lemma list_agrees_with_get_witness :
  StronglySorted (fun a b => String.compare (Storage.ID a) (Storage.ID b) = Lt)
    [sample_doc "a" []; sample_doc "b" []]
  /\ forall doc, In doc [sample_doc "a" []; sample_doc "b" []]
                 <-> GetDocument tie_store (Storage.ID doc) = Ok doc.
Proof.
  apply (list_agrees_with_get tie_store).
  - apply sorted_keys_AddDocument, sorted_keys_AddDocument. constructor.
  - apply keys_match_AddDocument, keys_match_AddDocument, keys_match_empty.
  - vm_compute. reflexivity.
Defined.

(** ** The chunker: what the fragments are *)

Lemma len_append (s t : string) : len (s +:+ t) = len s + len t.
Proof. unfold len. rewrite length_append. lia. Qed.

Lemma len_extend (currentChunk sep piece : string) :
  len (extend currentChunk sep piece) <= len currentChunk + len sep + len piece.
Proof.
  unfold extend. destruct (String.eqb currentChunk ""); rewrite !len_append; unfold len; lia.
Qed.

Lemma len_nonneg (s : string) : 0 <= len s.
Proof. unfold len. lia. Qed.

Lemma flush_chunks (overlap : Z) (chunks : list string) (currentChunk : string) :
  (flush overlap (chunks, currentChunk)).1
  = if String.eqb currentChunk "" then chunks else chunks ++ [currentChunk].
Proof.
  unfold flush. destruct (String.eqb currentChunk ""); [reflexivity|].
  destruct (_ && _); reflexivity.
Qed.

Lemma flush_no_overlap (chunks : list string) (currentChunk : string) :
  (flush 0 (chunks, currentChunk)).2 = "".
Proof.
  unfold flush. destruct (String.eqb_spec currentChunk "") as [->|]; [reflexivity|].
  rewrite andb_false_r. reflexivity.
Qed.

Section ChunkInvariant.
(** [good] holds of the chunks emitted so far. *)
Variable good : string -> Prop.
Variables chunkSize overlap : Z.

Lemma all_good_flush (st : chunker) :
  all_good good st -> List.Forall good (flush overlap st).1.
Proof.
  destruct st as [chunks cur]. intros [Hc Hcur]. cbn [fst snd] in *.
  rewrite flush_chunks. destruct (String.eqb_spec cur ""); [assumption|].
  apply List.Forall_app. split; [assumption | repeat constructor; auto].
Qed.

Hypothesis good_sentence :
  forall (cur sentence : string), sentence <> "" -> (cur <> "" -> good cur) ->
    len cur + len sentence + 1 <= chunkSize -> good (extend cur " " sentence).
Hypothesis good_paragraph :
  forall (cur paragraph : string), (cur <> "" -> good cur) ->
    len paragraph <= chunkSize ->
    len cur + len paragraph + 2 <= chunkSize ->
    extend cur (LF +:+ LF) paragraph <> "" -> good (extend cur (LF +:+ LF) paragraph).
Hypothesis good_after_flush_sentence :
  forall (st : chunker) (sentence : string), all_good good st -> sentence <> "" ->
    len sentence <= chunkSize ->
    ~ len st.2 + len sentence + 1 <= chunkSize ->
    good (extend (flush overlap st).2 " " sentence).
Hypothesis good_after_flush_paragraph :
  forall (st : chunker) (paragraph : string), all_good good st ->
    len paragraph <= chunkSize ->
    ~ len st.2 + len paragraph + 2 <= chunkSize ->
    (flush overlap st).2 +:+ paragraph <> "" ->
    good ((flush overlap st).2 +:+ paragraph).

Lemma all_good_add_sentence (long : string -> Prop) (st : chunker) (sentence : string) :
  (forall s, long s -> chunkSize < len s -> good s) ->
  all_good good st -> sentence <> "" -> long sentence ->
  all_good good (add_sentence chunkSize overlap st sentence).
Proof.
  intros Hlong Hst Hne Hl. unfold add_sentence.
  destruct st as [chunks cur]. destruct (Z.leb_spec (len cur + len sentence + 1) chunkSize).
  - destruct Hst as [Hc Hcur]. split; [assumption|]. intros _. cbn [fst snd] in *.
    apply good_sentence; assumption.
  - pose proof (all_good_flush (chunks, cur) Hst) as Hf.
    pose proof (good_after_flush_sentence (chunks, cur) sentence Hst Hne) as Hg.
    destruct (flush overlap (chunks, cur)) as [chunks' cur']. cbn [fst snd] in *.
    destruct (Z.gtb_spec (len sentence) chunkSize).
    + split; cbn [fst snd]; [|contradiction].
      apply List.Forall_app. split; [assumption | repeat constructor; auto].
    + split; cbn [fst snd]; [assumption|]. intros _. apply Hg; lia.
Qed.

Lemma all_good_add_sentences (long : string -> Prop) (sentences : list string) :
  (forall s, long s -> chunkSize < len s -> good s) ->
  List.Forall (fun s => s <> "" /\ long s) sentences ->
  forall st, all_good good st ->
    all_good good (fold_left (add_sentence chunkSize overlap) sentences st).
Proof.
  intros Hlong. induction 1 as [|s rest [Hne Hl] Hrest IH]; intros st Hst; cbn [fold_left];
    [assumption|].
  apply IH. eapply all_good_add_sentence; eassumption.
Qed.

Lemma all_good_add_paragraph (st : chunker) (paragraph : string) :
  (forall s, In s (splitIntoSentences paragraph) -> chunkSize < len paragraph ->
     chunkSize < len s -> good s) ->
  all_good good st -> all_good good (add_paragraph chunkSize overlap st paragraph).
Proof.
  intros Hlong Hst. unfold add_paragraph.
  destruct (Z.gtb_spec (len paragraph) chunkSize) as [Hgt|Hle].
  - apply (all_good_add_sentences (fun s => In s (splitIntoSentences paragraph))); auto.
    pose proof (sentences_nonempty paragraph) as Hne.
    rewrite List.Forall_forall in *. auto.
  - destruct st as [chunks cur].
    destruct (Z.leb_spec (len cur + len paragraph + 2) chunkSize).
    + destruct Hst as [Hc Hcur]. split; [assumption|]. cbn [fst snd] in *.
      intros Hne. apply good_paragraph; assumption.
    + pose proof (all_good_flush (chunks, cur) Hst) as Hf.
      pose proof (good_after_flush_paragraph (chunks, cur) paragraph Hst) as Hg.
      destruct (flush overlap (chunks, cur)) as [chunks' cur']. cbn [fst snd] in *.
      split; cbn [fst snd]; [assumption|]. intros Hne. apply Hg; [assumption | lia | assumption].
Qed.

Lemma all_good_add_paragraphs (paragraphs : list string) :
  (forall p s, In p paragraphs -> In s (splitIntoSentences p) -> chunkSize < len p ->
     chunkSize < len s -> good s) ->
  forall st, all_good good st ->
    all_good good (fold_left (add_paragraph chunkSize overlap) paragraphs st).
Proof.
  induction paragraphs as [|p rest IH]; intros Hlong st Hst; cbn [fold_left]; [assumption|].
  apply IH; [intros q s Hq; apply Hlong; right; assumption|].
  apply all_good_add_paragraph; [|assumption].
  intros s Hs. apply Hlong; [left; reflexivity | assumption].
Qed.

End ChunkInvariant.

Lemma ChunkText_all_good (good : string -> Prop) (text : string) (chunkSize overlap : Z) :
  all_good good
    (fold_left (add_paragraph (normal_size chunkSize) (normal_overlap chunkSize overlap))
       (Split text (LF +:+ LF)) ([], "")) ->
  List.Forall good (ChunkText text chunkSize overlap).
Proof.
  rewrite ChunkText_unfold. cbn zeta.
  destruct (fold_left _ _ _) as [chunks cur]. intros [Hc Hcur]. cbn [fst snd] in *.
  destruct (String.eqb_spec cur ""); [assumption|].
  apply List.Forall_app. split; [assumption | repeat constructor; auto].
Qed.

(** X12.  [ChunkText] never returns an empty fragment, for any text, chunk
    size and overlap. *)
Theorem chunk_text_has_no_empty_fragment (text : string) (chunkSize overlap : Z) :
  List.Forall (fun fragment => fragment <> "") (ChunkText text chunkSize overlap).
Proof.
  apply ChunkText_all_good.
  apply all_good_add_paragraphs; try (split; [constructor | cbn; congruence]); auto.
  - intros cur sentence Hs _ _. apply extend_nonempty. auto.
  - intros st sentence _ Hs _ _. apply extend_nonempty. auto.
  - intros p s _ Hs _ _. pose proof (sentences_nonempty p) as Hne.
    rewrite List.Forall_forall in Hne. auto.
Qed.

(** X13.  Without overlap the chunk size is kept: every fragment of
    [ChunkText text chunkSize 0] is no longer than the chunk size in use,
    unless it is a sentence of a paragraph longer than it, which is emitted
    whole. *)
Theorem chunk_text_without_overlap_keeps_size (text : string) (chunkSize : Z) :
  List.Forall
    (fun fragment =>
       len fragment <= normal_size chunkSize
       \/ exists paragraph,
            In paragraph (Split text (LF +:+ LF))
            /\ normal_size chunkSize < len paragraph
            /\ In fragment (splitIntoSentences paragraph))
    (ChunkText text chunkSize 0).
Proof.
  apply ChunkText_all_good.
  assert (Hov : normal_overlap chunkSize 0 = 0).
  { unfold normal_overlap, normal_size. destruct (chunkSize <=? 0) eqn:Hc; cbn.
    - reflexivity.
    - apply Z.leb_gt in Hc. destruct (Z.geb_spec 0 chunkSize); [lia | reflexivity]. }
  rewrite Hov.
  apply all_good_add_paragraphs; try (split; [constructor | cbn; congruence]).
  - intros cur sentence _ _ Hfit. left.
    pose proof (len_extend cur " " sentence). change (len " ") with 1 in *. lia.
  - intros cur paragraph _ _ Hfit _. left.
    pose proof (len_extend cur (LF +:+ LF) paragraph). change (len (LF +:+ LF)) with 2 in *. lia.
  - intros [chunks cur] sentence _ _ Hle _. left. rewrite flush_no_overlap.
    pose proof (len_extend "" " " sentence). unfold extend in *. cbn [String.eqb] in *.
    change ("" +:+ sentence) with sentence in *. lia.
  - intros [chunks cur] paragraph _ Hle _ _. left. rewrite flush_no_overlap.
    change ("" +:+ paragraph) with paragraph. assumption.
  - intros p s Hp Hs Hlong _. right. exists p. auto.
Qed.

(** X14.  [ExtractRecentChat] keeps the title and the id and returns a
    suffix of the messages: all of them when [n <= 0] or when there are at
    most [n], the last [n] otherwise. *)
Theorem extract_recent_chat_keeps_last (chat : ChatHistory) (n : Z) :
  Processor.Title (ExtractRecentChat chat n) = Processor.Title chat
  /\ Processor.ID (ExtractRecentChat chat n) = Processor.ID chat
  /\ (exists earlier, Messages chat = earlier ++ Messages (ExtractRecentChat chat n))
  /\ Z.of_nat (length (Messages (ExtractRecentChat chat n)))
     = if (0 <? n) && (n <? Z.of_nat (length (Messages chat)))
       then n else Z.of_nat (length (Messages chat)).
Proof.
  unfold ExtractRecentChat.
  destruct (Z.leb_spec n 0); cbn [orb].
  - repeat split; [exists []; reflexivity|].
    destruct (Z.ltb_spec 0 n); [lia | reflexivity].
  - destruct (Z.leb_spec (Z.of_nat (length (Messages chat))) n).
    + repeat split; [exists []; reflexivity|].
      destruct (Z.ltb_spec 0 n); [|lia]. destruct (Z.ltb_spec n (Z.of_nat (length (Messages chat))));
        [lia | reflexivity].
    + cbn [Messages Processor.Title Processor.ID]. repeat split.
      * eexists. symmetry. apply take_drop.
      * rewrite length_drop. destruct (Z.ltb_spec 0 n); [|lia].
        destruct (Z.ltb_spec n (Z.of_nat (length (Messages chat)))); [cbn; lia | lia].
Qed.

(** ** The chat archive: save, read, list, delete *)

Lemma ChatHistory_eta (chat : ChatHistory) :
  {| Messages := Messages chat; Processor.Title := Processor.Title chat;
     Processor.ID := Processor.ID chat |} = chat.
Proof. destruct chat. reflexivity. Qed.

Lemma updateCharacterInfo_Ok_In (cs cs' : ChatStore) (character : string) (chatInfo : ChatInfo) :
  updateCharacterInfo cs character chatInfo = (Ok tt, cs') ->
  exists chats,
    In chatInfo chats
    /\ cs' = {| dirs := dirs cs;
                files := <[getCharacterInfoPath character :=
                             {| content := IndexJSON chats; accessible := true |}]> (files cs);
                root_writable := root_writable cs |}.
Proof.
  unfold updateCharacterInfo.
  assert (Hin : forall chats,
             In chatInfo (match replace_info chatInfo chats with
                          | Some updatedChats => updatedChats
                          | None => chats ++ [chatInfo]
                          end)).
  { intros chats. destruct (replace_info chatInfo chats) eqn:Hrep.
    - eapply replace_info_In; eassumption.
    - apply in_or_app. right. left. reflexivity. }
  destruct (Stat cs (getCharacterInfoPath character)).
  - destruct (ChatArchive.ReadFile cs (getCharacterInfoPath character)) as [data|e|];
      try discriminate.
    destruct (Unmarshal_index data) as [chats|e|]; intros H; apply WriteFile_Ok in H; eauto.
  - intros H. apply WriteFile_Ok in H. eauto.
  - intros H. apply WriteFile_Ok in H. eauto.
Qed.

(** What a successful [SaveChat] leaves: the transcript file with an info
    block [info] of the chat, and an index that lists [info]. *)
Lemma SaveChat_Ok (cs cs' : ChatStore) (now1 now2 : Z) (character : string) (chat : ChatHistory) :
  SaveChat cs now1 now2 character chat = (Ok tt, cs') ->
  exists info chats,
    InfoID info = Processor.ID chat
    /\ InfoTitle info = Processor.Title chat
    /\ Character info = character
    /\ UpdatedAt info = now2
    /\ MessageCount info = Z.of_nat (length (Messages chat))
    /\ In info chats
    /\ files cs'
       = <[getCharacterInfoPath character := {| content := IndexJSON chats; accessible := true |}]>
           (<[getChatPath character (Processor.ID chat) :=
                {| content := ChatJSON info (Messages chat); accessible := true |}]> (files cs)).
Proof.
  intros Hsave. unfold SaveChat in Hsave.
  destruct (MkdirAll cs character) as [[[]|e|] cs1] eqn:Hmk; try discriminate.
  apply MkdirAll_Ok in Hmk as [Hdir Hfiles].
  match type of Hsave with
  | context [ChatArchive.WriteFile cs1 _ (ChatJSON ?i _)] => set (info := i) in Hsave
  end.
  destruct (ChatArchive.WriteFile cs1 _ _) as [[[]|e|] cs2] eqn:Hw; try discriminate.
  apply WriteFile_Ok in Hw. apply updateCharacterInfo_Ok_In in Hsave as (chats & Hin & Hcs').
  exists info, chats.
  assert (Hfields : InfoID info = Processor.ID chat /\ InfoTitle info = Processor.Title chat
                    /\ Character info = character /\ UpdatedAt info = now2
                    /\ MessageCount info = Z.of_nat (length (Messages chat))).
  { subst info. destruct (Stat cs1 _); [|repeat split..].
    destruct (ChatArchive.ReadFile cs1 _); [|repeat split..].
    destruct (Unmarshal_chat _); repeat split. }
  destruct Hfields as (? & ? & ? & ? & ?). repeat (split; [assumption|]).
  subst cs' cs2. cbn [files]. rewrite Hfiles. reflexivity.
Qed.

(** X15.  A transcript of valid UTF-8 strings saved under plain names, the
    id other than ["_info"], is read back as it was given, and the
    character's index lists it with its id, title, message count and the
    instant of the save. *)
Theorem saved_chat_is_read_back (cs cs' : ChatStore) (now1 now2 : Z) (character : string)
  (chat : ChatHistory) :
  plain_chat character (Processor.ID chat) = true ->
  valid_chat chat = true ->
  SaveChat cs now1 now2 character chat = (Ok tt, cs') ->
  Processor.ID chat <> "_info" ->
  GetChat cs' character (Processor.ID chat) = Ok chat
  /\ exists chats info,
       ListChats cs' character = Ok chats
       /\ In info chats
       /\ InfoID info = Processor.ID chat
       /\ InfoTitle info = Processor.Title chat
       /\ MessageCount info = Z.of_nat (length (Messages chat))
       /\ UpdatedAt info = now2.
Proof.
  intros Hplain _ Hsave Hid.
  apply SaveChat_Ok in Hsave as (info & chats & Hi & Ht & _ & Hu & Hm & Hin & Hfiles).
  split.
  - unfold GetChat, Stat, ChatArchive.ReadFile. rewrite Hfiles.
    rewrite lookup_insert_ne, lookup_insert_eq.
    + cbn. rewrite Hi, Ht. f_equal. apply ChatHistory_eta.
    + intros Heq. symmetry in Heq. apply (chat_path_is_info_path _ _ Hplain) in Heq.
      contradiction.
  - exists chats, info. repeat (split; [|assumption || auto]).
    unfold ListChats, Stat, ChatArchive.ReadFile. rewrite Hfiles, lookup_insert_eq. reflexivity.
Qed.

Lemma saved_chat_is_read_back_witness :
  GetChat aria_store "Aria" (Processor.ID first_chat) = Ok first_chat
  /\ exists chats info,
       ListChats aria_store "Aria" = Ok chats
       /\ In info chats
       /\ InfoID info = Processor.ID first_chat
       /\ InfoTitle info = Processor.Title first_chat
       /\ MessageCount info = Z.of_nat (length (Messages first_chat))
       /\ UpdatedAt info = 101.
Proof.
  apply (saved_chat_is_read_back {| dirs := ∅; files := ∅; root_writable := true |} aria_store
           100 101 "Aria" first_chat).
  - reflexivity.
  - reflexivity.
  - vm_compute. reflexivity.
  - simpl. discriminate.
Defined.

(** X16.  The id ["_info"] names the index file: a transcript saved under it
    is overwritten by the index, and reading it back fails. *)
Theorem chat_saved_as_info_is_not_read_back (cs cs' : ChatStore) (now1 now2 : Z)
  (character : string) (chat : ChatHistory) :
  SaveChat cs now1 now2 character chat = (Ok tt, cs') ->
  Processor.ID chat = "_info" ->
  GetChat cs' character (Processor.ID chat) = Fail (Wrap "无法解析聊天记录" ErrSyntax).
Proof.
  intros Hsave Hid.
  apply SaveChat_Ok in Hsave as (info & chats & _ & _ & _ & _ & _ & _ & Hfiles).
  unfold GetChat, Stat, ChatArchive.ReadFile. rewrite Hfiles, Hid.
  change (getChatPath character "_info") with (getCharacterInfoPath character).
  rewrite lookup_insert_eq. reflexivity.
Qed.

Lemma chat_saved_as_info_is_not_read_back_witness :
  GetChat (SaveChat {| dirs := ∅; files := ∅; root_writable := true |} 100 101 "Aria" reserved_chat).2
    "Aria" (Processor.ID reserved_chat)
  = Fail (Wrap "无法解析聊天记录" ErrSyntax).
Proof.
  apply (chat_saved_as_info_is_not_read_back {| dirs := ∅; files := ∅; root_writable := true |} _
           100 101 "Aria" reserved_chat).
  - vm_compute. reflexivity.
  - reflexivity.
Defined.

(** [SaveChat] and [DeleteChat] write to two files only. *)
Lemma WriteFile_files (cs : ChatStore) (path other : string * string) (data : jsonData) :
  other <> path -> files (ChatArchive.WriteFile cs path data).2 !! other = files cs !! other.
Proof.
  intros Hne. unfold ChatArchive.WriteFile.
  destruct (files cs !! path) as [f|]; [destruct (accessible f) | destruct (decide _)];
    cbn [snd files]; try reflexivity; apply lookup_insert_ne; congruence.
Qed.

Lemma updateCharacterInfo_files (cs : ChatStore) (character : string) (chatInfo : ChatInfo)
  (other : string * string) :
  other <> getCharacterInfoPath character ->
  files (updateCharacterInfo cs character chatInfo).2 !! other = files cs !! other.
Proof.
  intros Hne. unfold updateCharacterInfo.
  destruct (Stat cs (getCharacterInfoPath character)).
  - destruct (ChatArchive.ReadFile cs (getCharacterInfoPath character)) as [data|e|];
      try reflexivity.
    destruct (Unmarshal_index data) as [chats|e|]; apply WriteFile_files; assumption.
  - apply WriteFile_files; assumption.
  - apply WriteFile_files; assumption.
Qed.

Lemma MkdirAll_files (cs : ChatStore) (character : string) :
  files (MkdirAll cs character).2 = files cs.
Proof.
  unfold MkdirAll. destruct (decide _); [reflexivity|]. destruct (root_writable cs); reflexivity.
Qed.

Lemma SaveChat_files (cs : ChatStore) (now1 now2 : Z) (character : string) (chat : ChatHistory)
  (other : string * string) :
  other <> getChatPath character (Processor.ID chat) ->
  other <> getCharacterInfoPath character ->
  files (SaveChat cs now1 now2 character chat).2 !! other = files cs !! other.
Proof.
  intros Hchat Hinfo. unfold SaveChat.
  pose proof (MkdirAll_files cs character) as Hmk.
  destruct (MkdirAll cs character) as [[[]|e|] cs1]; cbn [snd] in *; try (rewrite Hmk; reflexivity).
  match goal with
  | |- context [ChatArchive.WriteFile cs1 ?p ?d] =>
      pose proof (WriteFile_files cs1 p other d Hchat) as Hw;
      destruct (ChatArchive.WriteFile cs1 p d) as [[[]|e|] cs2]
  end; cbn [snd] in *; try (rewrite Hw, Hmk; reflexivity).
  rewrite updateCharacterInfo_files by assumption. rewrite Hw, Hmk. reflexivity.
Qed.

Lemma Remove_files (cs : ChatStore) (path other : string * string) :
  other <> path -> files (ChatArchive.Remove cs path).2 !! other = files cs !! other.
Proof.
  intros Hne. unfold ChatArchive.Remove. destruct (files cs !! path); cbn [snd files];
    [apply lookup_delete_ne; congruence | reflexivity].
Qed.

Lemma DeleteChat_files (cs : ChatStore) (character chatID : string) (other : string * string) :
  other <> getChatPath character chatID ->
  other <> getCharacterInfoPath character ->
  files (DeleteChat cs character chatID).2 !! other = files cs !! other.
Proof.
  intros Hchat Hinfo. unfold DeleteChat.
  assert (Hrest :
    files (match ChatArchive.Remove cs (getChatPath character chatID) with
           | (Fail e, cs1) => (Fail (Wrap "无法删除聊天记录" e), cs1)
           | (Panic, cs1) => (Panic, cs1)
           | (Ok _, cs1) =>
               match Stat cs1 (getCharacterInfoPath character) with
               | Ok _ =>
                   match ChatArchive.ReadFile cs1 (getCharacterInfoPath character) with
                   | Fail e => (Fail (Wrap "无法读取角色信息" e), cs1)
                   | Panic => (Panic, cs1)
                   | Ok data =>
                       match Unmarshal_index data with
                       | Fail e => (Fail (Wrap "无法解析角色信息" e), cs1)
                       | Panic => (Panic, cs1)
                       | Ok chats =>
                           match ChatArchive.WriteFile cs1 (getCharacterInfoPath character)
                                   (IndexJSON (List.filter
                                      (fun info => negb (String.eqb (InfoID info) chatID)) chats)) with
                           | (Fail e, cs2) => (Fail (Wrap "无法保存角色信息" e), cs2)
                           | (Panic, cs2) => (Panic, cs2)
                           | (Ok _, cs2) => (Ok tt, cs2)
                           end
                       end
                   end
               | _ => (Ok tt, cs1)
               end
           end).2 !! other = files cs !! other).
  { pose proof (Remove_files cs (getChatPath character chatID) other Hchat) as Hrm.
    destruct (ChatArchive.Remove cs (getChatPath character chatID)) as [[[]|e|] cs1];
      cbn [snd] in *; try assumption.
    destruct (Stat cs1 (getCharacterInfoPath character)); try assumption.
    destruct (ChatArchive.ReadFile cs1 (getCharacterInfoPath character)) as [data|e|];
      try assumption.
    destruct (Unmarshal_index data) as [chats|e|]; try assumption.
    match goal with
    | |- context [ChatArchive.WriteFile cs1 ?p ?d] =>
        pose proof (WriteFile_files cs1 p other d Hinfo) as Hw;
        destruct (ChatArchive.WriteFile cs1 p d) as [[[]|e|] cs2]
    end; cbn [snd] in *; congruence. }
  destruct (Stat cs (getChatPath character chatID)) as [[]|[]|]; try exact Hrest. reflexivity.
Qed.

Lemma GetChat_congr (cs cs' : ChatStore) (character chatID : string) :
  files cs' !! getChatPath character chatID = files cs !! getChatPath character chatID ->
  GetChat cs' character chatID = GetChat cs character chatID.
Proof. intros H. unfold GetChat, Stat, ChatArchive.ReadFile. rewrite H. reflexivity. Qed.

Lemma ListChats_congr (cs cs' : ChatStore) (character : string) :
  files cs' !! getCharacterInfoPath character = files cs !! getCharacterInfoPath character ->
  ListChats cs' character = ListChats cs character.
Proof. intros H. unfold ListChats, Stat, ChatArchive.ReadFile. rewrite H. reflexivity. Qed.

Lemma chat_path_inj (character character' chatID chatID' : string) :
  plain_chat character chatID = true ->
  plain_chat character' chatID' = true ->
  getChatPath character' chatID' = getChatPath character chatID ->
  character' = character /\ chatID' = chatID.
Proof.
  intros _ _. unfold getChatPath. intros [= -> Heq]. split; [reflexivity|].
  apply (append_cancel_r ".json"). exact Heq.
Qed.

(** X17.  Among plain names, saving or deleting one transcript, whether it
    succeeds or fails, leaves what is read of the others: a transcript of
    another character, or of the same character under another id (other
    than ["_info"]), and the index of another character. *)
Theorem save_and_delete_leave_other_chats (cs : ChatStore) (now1 now2 : Z) (character : string)
  (chat : ChatHistory) (character' chatID' : string) :
  plain_chat character (Processor.ID chat) = true ->
  plain_chat character' chatID' = true ->
  character' <> character \/ (chatID' <> Processor.ID chat /\ chatID' <> "_info") ->
  GetChat (SaveChat cs now1 now2 character chat).2 character' chatID'
    = GetChat cs character' chatID'
  /\ GetChat (DeleteChat cs character (Processor.ID chat)).2 character' chatID'
     = GetChat cs character' chatID'
  /\ (character' <> character ->
      ListChats (SaveChat cs now1 now2 character chat).2 character' = ListChats cs character'
      /\ ListChats (DeleteChat cs character (Processor.ID chat)).2 character'
         = ListChats cs character').
Proof.
  intros Hplain Hplain' Hother.
  assert (Hchat : getChatPath character' chatID' <> getChatPath character (Processor.ID chat)).
  { intros Heq. apply (chat_path_inj _ _ _ _ Hplain Hplain') in Heq as [-> ->].
    destruct Hother as [H|[H _]]; congruence. }
  assert (Hinfo : getChatPath character' chatID' <> getCharacterInfoPath character).
  { intros Heq. assert (character' = character) as -> by (injection Heq; auto).
    apply (chat_path_is_info_path _ _ Hplain') in Heq.
    destruct Hother as [H|[_ H]]; congruence. }
  split; [|split].
  - apply GetChat_congr, SaveChat_files; assumption.
  - apply GetChat_congr, DeleteChat_files; assumption.
  - intros Hne.
    assert (H1 : getCharacterInfoPath character' <> getChatPath character (Processor.ID chat))
      by (intros [= ? _]; contradiction).
    assert (H2 : getCharacterInfoPath character' <> getCharacterInfoPath character)
      by (intros [= ?]; contradiction).
    split; [apply ListChats_congr, SaveChat_files | apply ListChats_congr, DeleteChat_files];
      assumption.
Qed.

Lemma save_and_delete_leave_other_chats_witness :
  GetChat (SaveChat aria_store 200 201 "Bea" first_chat).2 "Aria" "c1"
    = GetChat aria_store "Aria" "c1"
  /\ GetChat (DeleteChat aria_store "Bea" (Processor.ID first_chat)).2 "Aria" "c1"
     = GetChat aria_store "Aria" "c1"
  /\ ("Aria" <> "Bea" ->
      ListChats (SaveChat aria_store 200 201 "Bea" first_chat).2 "Aria"
        = ListChats aria_store "Aria"
      /\ ListChats (DeleteChat aria_store "Bea" (Processor.ID first_chat)).2 "Aria"
         = ListChats aria_store "Aria").
Proof.
  apply (save_and_delete_leave_other_chats aria_store 200 201 "Bea" first_chat "Aria" "c1").
  - reflexivity.
  - reflexivity.
  - left. discriminate.
Defined.

Lemma Stat_lookup (cs : ChatStore) (path : string * string) :
  Stat cs path = match files cs !! path with Some _ => Ok tt | None => Fail ErrNotExist end.
Proof. reflexivity. Qed.

(** X18.  After a successful [DeleteChat] the transcript is reported as not
    existing, by [GetChat] and by a second [DeleteChat] (which changes
    nothing), and the character's index can be listed and has no entry of
    the id. *)
Theorem deleted_chat_is_gone (cs cs' : ChatStore) (character chatID : string) :
  DeleteChat cs character chatID = (Ok tt, cs') ->
  GetChat cs' character chatID = Fail (Errorf "聊天记录不存在" chatID)
  /\ DeleteChat cs' character chatID = (Fail (Errorf "聊天记录不存在" chatID), cs')
  /\ exists chats,
       ListChats cs' character = Ok chats
       /\ forall info, In info chats -> InfoID info <> chatID.
Proof.
  intros Hdel.
  assert (Hgone : files cs' !! getChatPath character chatID = None
                  /\ exists chats,
                       ListChats cs' character = Ok chats
                       /\ forall info, In info chats -> InfoID info <> chatID).
  { unfold DeleteChat in Hdel. rewrite Stat_lookup in Hdel. unfold ChatArchive.Remove in Hdel.
    destruct (files cs !! getChatPath character chatID) as [g|] eqn:Hg; [|discriminate].
    set (cs1 := {| dirs := dirs cs; files := delete (getChatPath character chatID) (files cs);
                   root_writable := root_writable cs |}) in Hdel.
    assert (H1 : files cs1 !! getChatPath character chatID = None) by apply lookup_delete_eq.
    rewrite Stat_lookup in Hdel. unfold ListChats. rewrite Stat_lookup.
    destruct (files cs1 !! getCharacterInfoPath character) as [f|] eqn:Hf.
    - assert (Hne : getCharacterInfoPath character <> getChatPath character chatID)
        by congruence.
      unfold ChatArchive.ReadFile in Hdel. rewrite Hf in Hdel.
      destruct (accessible f) eqn:Hacc; [|discriminate].
      destruct (content f) as [| chats |] eqn:Hcontent; try discriminate.
      cbn [Unmarshal_index] in Hdel.
      destruct (ChatArchive.WriteFile cs1 _ _) as [[[]|e|] cs2] eqn:Hw; try discriminate.
      apply WriteFile_Ok in Hw. injection Hdel as <-. subst cs2. cbn [files]. split.
      + rewrite lookup_insert_ne by assumption. exact H1.
      + eexists. unfold ChatArchive.ReadFile. cbn [files]. rewrite lookup_insert_eq.
        split; [reflexivity|]. intros info Hin. apply List.filter_In in Hin as [_ Hin].
        apply negb_true_iff, String.eqb_neq in Hin. exact Hin.
    - injection Hdel as <-. split; [exact H1|]. rewrite Hf. exists []. split; [reflexivity|].
      intros info []. }
  destruct Hgone as [Hnone Hlist]. split; [|split; [|exact Hlist]].
  - unfold GetChat. rewrite Stat_lookup, Hnone. reflexivity.
  - unfold DeleteChat. rewrite Stat_lookup, Hnone. reflexivity.
Qed.

Lemma deleted_chat_is_gone_witness :
  GetChat (DeleteChat aria_store "Aria" "c1").2 "Aria" "c1" = Fail (Errorf "聊天记录不存在" "c1")
  /\ DeleteChat (DeleteChat aria_store "Aria" "c1").2 "Aria" "c1"
     = (Fail (Errorf "聊天记录不存在" "c1"), (DeleteChat aria_store "Aria" "c1").2)
  /\ exists chats,
       ListChats (DeleteChat aria_store "Aria" "c1").2 "Aria" = Ok chats
       /\ forall info, In info chats -> InfoID info <> "c1".
Proof.
  apply (deleted_chat_is_gone aria_store _ "Aria" "c1"). vm_compute. reflexivity.
Defined.

(** X19.  [DeleteChat] removes the transcript before it touches the index:
    when the index of the character cannot be listed, deleting an existing
    transcript (plain names, the id other than ["_info"]) fails with the
    error of the listing, the transcript is gone all the same, and the index
    is as it was. *)
Theorem failed_index_update_still_deletes_transcript (cs : ChatStore)
  (character chatID : string) (g : file) (e : error) :
  plain_chat character chatID = true ->
  files cs !! getChatPath character chatID = Some g ->
  chatID <> "_info" ->
  ListChats cs character = Fail e ->
  exists cs',
    DeleteChat cs character chatID = (Fail e, cs')
    /\ GetChat cs' character chatID = Fail (Errorf "聊天记录不存在" chatID)
    /\ ListChats cs' character = Fail e.
Proof.
  intros Hplain Hg Hid Hlist.
  assert (Hne : getCharacterInfoPath character <> getChatPath character chatID).
  { intros Heq. symmetry in Heq. apply (chat_path_is_info_path _ _ Hplain) in Heq.
    contradiction. }
  set (cs1 := {| dirs := dirs cs; files := delete (getChatPath character chatID) (files cs);
                 root_writable := root_writable cs |}).
  assert (Hinfo : files cs1 !! getCharacterInfoPath character
                  = files cs !! getCharacterInfoPath character)
    by (apply lookup_delete_ne; congruence).
  exists cs1. split; [|split].
  - unfold DeleteChat. rewrite Stat_lookup, Hg. unfold ChatArchive.Remove. rewrite Hg.
    fold cs1. unfold ListChats in Hlist. rewrite Stat_lookup in *.
    unfold ChatArchive.ReadFile in *. rewrite Hinfo.
    destruct (files cs !! getCharacterInfoPath character) as [f|]; [|discriminate].
    destruct (accessible f); [|congruence].
    destruct (Unmarshal_index (content f)); congruence.
  - unfold GetChat. rewrite Stat_lookup. cbn [cs1 files]. rewrite lookup_delete_eq. reflexivity.
  - rewrite <- Hlist. apply ListChats_congr. exact Hinfo.
Qed.

Lemma failed_index_update_still_deletes_transcript_witness :
  exists cs',
    DeleteChat locked_index_store "Aria" "c1" = (Fail (Wrap "无法读取角色信息" ErrPermission), cs')
    /\ GetChat cs' "Aria" "c1" = Fail (Errorf "聊天记录不存在" "c1")
    /\ ListChats cs' "Aria" = Fail (Wrap "无法读取角色信息" ErrPermission).
Proof.
  apply (failed_index_update_still_deletes_transcript locked_index_store "Aria" "c1"
           {| content := ChatJSON first_info (Messages first_chat); accessible := true |}).
  - reflexivity.
  - vm_compute. reflexivity.
  - discriminate.
  - vm_compute. reflexivity.
Defined.

(** The ids of an index after [updateCharacterInfo]. *)
Lemma replace_info_ids (chatInfo : ChatInfo) (chats : list ChatInfo) :
  match replace_info chatInfo chats with
  | Some updated =>
      List.map InfoID updated = List.map InfoID chats
      /\ In (InfoID chatInfo) (List.map InfoID chats)
  | None => ~ In (InfoID chatInfo) (List.map InfoID chats)
  end.
Proof.
  induction chats as [|info rest IH]; cbn [replace_info]; [intros []|].
  destruct (String.eqb_spec (InfoID info) (InfoID chatInfo)) as [Heq|Hne].
  - cbn [List.map]. split; [congruence | left; assumption].
  - destruct (replace_info chatInfo rest) as [rest'|].
    + destruct IH as [IH1 IH2]. cbn [List.map]. split; [congruence | right; assumption].
    + cbn [List.map]. intros [H|H]; [congruence | contradiction].
Qed.

Lemma updateCharacterInfo_index (cs cs' : ChatStore) (character : string) (chatInfo : ChatInfo)
  (chats : list ChatInfo) :
  ListChats cs character = Ok chats ->
  updateCharacterInfo cs character chatInfo = (Ok tt, cs') ->
  ListChats cs' character
  = Ok (match replace_info chatInfo chats with
        | Some updated => updated
        | None => chats ++ [chatInfo]
        end).
Proof.
  unfold ListChats, updateCharacterInfo. rewrite !Stat_lookup. unfold ChatArchive.ReadFile.
  destruct (files cs !! getCharacterInfoPath character) as [f|] eqn:Hf.
  - destruct (accessible f); [|discriminate].
    destruct (Unmarshal_index (content f)) as [chats0|e|]; try discriminate.
    intros [= ->] Hw. apply WriteFile_Ok in Hw. subst cs'. cbn [files].
    rewrite lookup_insert_eq. reflexivity.
  - intros [= <-] Hw. apply WriteFile_Ok in Hw. subst cs'. cbn [files].
    rewrite lookup_insert_eq. reflexivity.
Qed.

(** X20.  [SaveChat] keeps one index entry per id: for plain names, the id
    valid UTF-8 and not ["_info"], when the index can be listed the ids
    listed after a successful save are those listed before, in the same
    order, with the id of the chat appended when it was not among them; ids
    that were distinct stay distinct. *)
Theorem save_keeps_one_entry_per_id (cs cs' : ChatStore) (now1 now2 : Z) (character : string)
  (chat : ChatHistory) (chats : list ChatInfo) :
  plain_chat character (Processor.ID chat) = true ->
  ValidString (Processor.ID chat) = true ->
  ListChats cs character = Ok chats ->
  Processor.ID chat <> "_info" ->
  SaveChat cs now1 now2 character chat = (Ok tt, cs') ->
  exists chats',
    ListChats cs' character = Ok chats'
    /\ List.map InfoID chats'
       = (if in_dec string_dec (Processor.ID chat) (List.map InfoID chats)
          then List.map InfoID chats
          else List.map InfoID chats ++ [Processor.ID chat])
    /\ (List.NoDup (List.map InfoID chats) -> List.NoDup (List.map InfoID chats')).
Proof.
  intros Hplain _ Hlist Hid Hsave. unfold SaveChat in Hsave.
  pose proof (MkdirAll_files cs character) as Hmk.
  destruct (MkdirAll cs character) as [[[]|e|] cs1]; try discriminate. cbn [snd] in Hmk.
  match type of Hsave with
  | context [ChatArchive.WriteFile cs1 _ (ChatJSON ?i _)] =>
      assert (Hinfo : InfoID i = Processor.ID chat);
      [|set (info := i) in *]
  end.
  { destruct (Stat cs1 _); [|reflexivity..].
    destruct (ChatArchive.ReadFile cs1 _); [|reflexivity..].
    destruct (Unmarshal_chat _); reflexivity. }
  assert (Hne : getCharacterInfoPath character <> getChatPath character (Processor.ID chat)).
  { intros Heq. symmetry in Heq. apply (chat_path_is_info_path _ _ Hplain) in Heq.
    contradiction. }
  match type of Hsave with
  | context [ChatArchive.WriteFile cs1 ?p ?d] =>
      pose proof (WriteFile_files cs1 p (getCharacterInfoPath character) d Hne) as Hw;
      destruct (ChatArchive.WriteFile cs1 p d) as [[[]|e|] cs2]
  end; try discriminate. cbn [snd] in Hw.
  assert (Hlist2 : ListChats cs2 character = Ok chats).
  { rewrite <- Hlist. apply ListChats_congr. rewrite Hw, Hmk. reflexivity. }
  pose proof (updateCharacterInfo_index _ _ _ _ _ Hlist2 Hsave) as Hafter.
  pose proof (replace_info_ids info chats) as Hids. rewrite Hinfo in Hids.
  eexists. split; [exact Hafter|].
  destruct (replace_info info chats) as [updated|].
  - destruct Hids as [Hsame Hin].
    destruct (in_dec string_dec _ _); [|contradiction]. rewrite Hsame. auto.
  - destruct (in_dec string_dec _ _); [contradiction|].
    rewrite List.map_app. cbn [List.map]. rewrite Hinfo. split; [reflexivity|].
    intros Hnd. apply NoDup_ListNoDup. apply NoDup_ListNoDup in Hnd.
    apply NoDup_app. split; [assumption|]. split.
    + intros x Hx Hx'. apply list_elem_of_In in Hx. apply list_elem_of_In in Hx'.
      destruct Hx' as [<-|[]]. contradiction.
    + apply NoDup_singleton.
Qed.

Lemma save_keeps_one_entry_per_id_witness :
  exists chats',
    ListChats (SaveChat aria_store 200 201 "Aria" first_chat).2 "Aria" = Ok chats'
    /\ List.map InfoID chats'
       = (if in_dec string_dec (Processor.ID first_chat) (List.map InfoID [first_info])
          then List.map InfoID [first_info]
          else List.map InfoID [first_info] ++ [Processor.ID first_chat])
    /\ (List.NoDup (List.map InfoID [first_info]) -> List.NoDup (List.map InfoID chats')).
Proof.
  apply (save_keeps_one_entry_per_id aria_store _ 200 201 "Aria" first_chat [first_info]).
  - reflexivity.
  - reflexivity.
  - vm_compute. reflexivity.
  - simpl. discriminate.
  - vm_compute. reflexivity.
Defined.

(** ** The search handlers *)

Lemma results_loop_spec (mkRow : Document -> float32 -> row) (h2 : list (Document * float32)) :
  forall h1 : list (Document * float32),
    results_loop mkRow (map fst h2) (map snd (h1 ++ h2)) (length h1)
      (map (fun ds => Some (mkRow ds.1 ds.2)) h1 ++ replicate (length h2) None)
    = Ok (map (fun ds => Some (mkRow ds.1 ds.2)) (h1 ++ h2)).
Proof.
  induction h2 as [|[doc score] rest IH]; intros h1.
  - cbn. rewrite !app_nil_r. reflexivity.
  - cbn [map results_loop fst snd length replicate].
    assert (Hidx : index (map snd (h1 ++ (doc, score) :: rest)) (length h1) = Ok score).
    { unfold index. rewrite map_app. cbn [map snd].
      rewrite lookup_app_r by (rewrite length_map; lia).
      rewrite length_map. replace (length h1 - length h1)%nat with 0%nat by lia. reflexivity. }
    rewrite Hidx. cbn [Go.bind].
    pose proof (assign_middle (map (fun ds => Some (mkRow ds.1 ds.2)) h1)
                  (replicate (length rest) None) None (Some (mkRow doc score))) as Ha.
    rewrite length_map in Ha. rewrite Ha. cbn [Go.bind].
    specialize (IH (h1 ++ [(doc, score)])).
    rewrite <- (app_assoc h1 [(doc, score)] rest) in IH.
    rewrite length_app in IH. cbn [length] in IH.
    replace (length h1 + 1)%nat with (S (length h1)) in IH by lia.
    rewrite (map_app _ h1 [(doc, score)]) in IH. rewrite <- app_assoc in IH.
    cbn [map app fst snd] in IH. exact IH.
Qed.

(** The search handlers on a request that binds: the rows are those of the
    hits of the store, in their order. *)
Lemma search_rows_spec `{SliceSort} (w : World) (vs : VectorStore) (req : SearchRequest)
  (filter : option (Document -> bool)) (mkRow : Document -> float32 -> row) :
  search_rows w (Some req)
    (fun queryVector limit => SearchSimilarWithFilter vs queryVector limit filter) mkRow
  = if String.eqb (Query req) ""
    then Some (Refused {| status := 400; body := [("error", JString "查询不能为空")] |})
    else
      match GetEmbedding w 0 (Query req) with
      | Fail err => Some (Refused (error_response "生成查询向量失败" err))
      | Panic => None
      | Ok queryVector =>
          if db_closed vs
          then Some (Refused (error_response "搜索失败" (Wrap "获取文档列表失败" ErrDBClosed)))
          else Some (Served (Query req,
                             map (fun ds => Some (mkRow ds.1 ds.2))
                               (hits vs queryVector (if Limit req <=? 0 then 5 else Limit req))))
      end.
Proof.
  unfold search_rows. destruct (String.eqb (Query req) ""); [reflexivity|]. cbn zeta.
  destruct (GetEmbedding w 0 (Query req)) as [queryVector|err|]; try reflexivity.
  rewrite Search_spec. destruct (db_closed vs); [reflexivity|].
  pose proof (results_loop_spec mkRow
                (hits vs queryVector (if Limit req <=? 0 then 5 else Limit req)) []) as Hloop.
  cbn [app length map] in Hloop. rewrite length_map. rewrite Hloop. reflexivity.
Qed.

Lemma length_hits `{SliceSort} (vs : VectorStore) (q : list float32) (limit : Z) :
  0 < limit -> Z.of_nat (length (hits vs q limit)) <= limit.
Proof.
  intros Hpos. unfold hits.
  pose proof (length_omap_le (detail vs) (cut limit (ranked vs q))).
  pose proof (length_cut limit (ranked vs q) Hpos). lia.
Qed.

(** X21.  The search handlers answer with at most [limit] rows, five when
    the request gives no positive limit, and every row is filled. *)
Theorem search_handlers_bound_their_rows `{SliceSort} (w : World) (vs : VectorStore)
  (req : SearchRequest) (q : string) (rows : list (option row)) :
  handleSearch w vs (Some req) = Some (Served (q, rows))
  \/ handleChatSearch w vs (Some req) = Some (Served (q, rows))
  \/ handleDatabankSearch w vs (Some req) = Some (Served rows) ->
  Z.of_nat (length rows) <= (if Limit req <=? 0 then 5 else Limit req)
  /\ List.Forall (fun r => r <> None) rows.
Proof.
  assert (Hpos : 0 < (if Limit req <=? 0 then 5 else Limit req))
    by (destruct (Z.leb_spec (Limit req) 0); lia).
  assert (Hrows : forall (mkRow : Document -> float32 -> row) filter q',
    search_rows w (Some req)
      (fun queryVector limit => SearchSimilarWithFilter vs queryVector limit filter) mkRow
    = Some (Served (q', rows)) ->
    Z.of_nat (length rows) <= (if Limit req <=? 0 then 5 else Limit req)
    /\ List.Forall (fun r => r <> None) rows).
  { intros mkRow filter q'. rewrite search_rows_spec.
    destruct (String.eqb (Query req) ""); [discriminate|].
    destruct (GetEmbedding w 0 (Query req)) as [queryVector|err|]; try discriminate.
    destruct (db_closed vs); [discriminate|]. intros [= _ <-]. split.
    - rewrite length_map. apply length_hits. exact Hpos.
    - apply List.Forall_forall. intros r Hr. apply List.in_map_iff in Hr as (ds & <- & _).
      discriminate. }
  intros [Hs|[Hs|Hs]].
  - eapply Hrows. exact Hs.
  - eapply Hrows. exact Hs.
  - unfold handleDatabankSearch in Hs.
    match type of Hs with
    | context [search_rows w (Some req) ?s ?m] =>
        destruct (search_rows w (Some req) s m) as [[r|[q' rows']]|] eqn:Hsr
    end; try discriminate.
    injection Hs as ->. eapply (Hrows _ None). exact Hsr.
Qed.

Lemma search_handlers_bound_their_rows_witness :
  Z.of_nat (length [Some (<["document" := RDocument (sample_doc "a" [])]>
                            (<["score" := RNumber one]> (∅ : row)));
                    Some (<["document" := RDocument (sample_doc "b" [])]>
                            (<["score" := RNumber one]> (∅ : row)))])
    <= (if Limit {| Query := "alpha"; Limit := 0 |} <=? 0
        then 5 else Limit {| Query := "alpha"; Limit := 0 |})
  /\ List.Forall (fun r => r <> None)
       [Some (<["document" := RDocument (sample_doc "a" [])]>
                (<["score" := RNumber one]> (∅ : row)));
        Some (<["document" := RDocument (sample_doc "b" [])]>
                (<["score" := RNumber one]> (∅ : row)))].
Proof.
  apply (search_handlers_bound_their_rows (H := insertion_sorter) steady_world tie_store
           {| Query := "alpha"; Limit := 0 |} "alpha").
  left. vm_compute. reflexivity.
Defined.

(** X22.  [handleChatSearch] answers as [handleSearch] does: the same
    refusals, and for every row of [handleSearch] a row with the id, the
    content and the score of that document, whether the document carries the
    tag ["chat"] or not. *)
Theorem chat_search_answers_as_plain_search `{SliceSort} (w : World) (vs : VectorStore)
  (req : option SearchRequest) :
  match handleSearch w vs req, handleChatSearch w vs req with
  | Some (Served (q, rows)), Some (Served (q', rows')) =>
      q' = q
      /\ Forall2
           (fun plain chat =>
              exists doc,
                row_document plain = Some doc
                /\ row_string "id" chat = Some (Storage.ID doc)
                /\ row_string "content" chat = Some (Content doc)
                /\ row_score chat = row_score plain)
           rows rows'
  | Some (Refused r), Some (Refused r') => r' = r
  | None, None => True
  | _, _ => False
  end.
Proof.
  unfold handleSearch, handleChatSearch. destruct req as [req|]; [|reflexivity].
  unfold SearchSimilar. rewrite !search_rows_spec.
  destruct (String.eqb (Query req) ""); [reflexivity|].
  destruct (GetEmbedding w 0 (Query req)) as [queryVector|err|]; try reflexivity; try exact I.
  destruct (db_closed vs); [reflexivity|]. split; [reflexivity|].
  induction (hits vs queryVector _) as [|[doc score] rest IH]; cbn [map]; constructor.
  - exists doc. repeat split.
  - exact IH.
Qed.

(** ** The upload handlers: what a completed upload leaves *)

Lemma AddDocument_Ok (vs vs' : VectorStore) (doc : Document) (vector : list float32) :
  AddDocument vs doc vector = (Ok tt, vs') ->
  db_closed vs = false
  /\ db_closed vs' = false
  /\ db vs' = db_set (Storage.ID doc) (DocJSON doc) (db vs)
  /\ vectors vs' = <[Storage.ID doc := VData (flat_map le_bytes vector)]> (vectors vs).
Proof.
  rewrite AddDocument_spec. destruct (db_closed vs); [discriminate|]. cbn zeta.
  destruct (vectors vs !! Storage.ID doc) as [[bytes|]|]; intros [= <-]; auto.
Qed.

Lemma decodable_set (k : string) (doc : Document) (l : list (string * docData)) :
  decodable l -> decodable (db_set k (DocJSON doc) l).
Proof.
  unfold decodable. rewrite !List.Forall_forall. intros Hl kv Hin.
  apply In_db_set in Hin as [->|Hin]; [discriminate | auto].
Qed.

Lemma decodable_mapM (l : list (string * docData)) :
  decodable l <-> exists docs, mapM record_doc l = Some docs.
Proof.
  induction l as [|[k [d|]] rest IH]; simpl.
  - split; [intros _; exists []; reflexivity | constructor].
  - split.
    + intros H. inversion H as [|? ? Hv Hrest]; subst. apply IH in Hrest as [docs Hdocs].
      rewrite Hdocs. eexists. reflexivity.
    + intros [docs Hdocs].
      destruct (mapM record_doc rest) as [docs'|] eqn:Hrest; [|discriminate].
      constructor; [discriminate | apply IH; eauto].
  - split; [|intros [docs Hdocs]; discriminate].
    intros H. inversion H as [|? ? Hv Hrest]; subst. contradiction.
Qed.

Section UploadLoop.
Variable w : World.
Variable mkDoc : nat -> string -> string -> Document.
Variable storeMsg : string.
Hypothesis mkDoc_ID : forall i id chunk, Storage.ID (mkDoc i id chunk) = id.

(** A completed loop leaves the other ids alone and keeps the shape of the
    table. *)
Lemma upload_loop_frame (chunks : list string) :
  forall (i : nat) (docIDs docIDs' : list string) (vs vs' : VectorStore),
    upload_loop w mkDoc storeMsg chunks i docIDs vs = (Completed docIDs', vs') ->
    db_closed vs' = db_closed vs
    /\ (sorted_keys (db vs) -> sorted_keys (db vs'))
    /\ (keys_match vs -> keys_match vs')
    /\ (decodable (db vs) -> decodable (db vs'))
    /\ forall id, ~ In id (map (doc_uuid w) (seq i (length chunks))) ->
         db_get id (db vs') = db_get id (db vs) /\ vectors vs' !! id = vectors vs !! id.
Proof.
  induction chunks as [|chunk rest IH]; intros i docIDs docIDs' vs vs';
    cbn [upload_loop length seq map].
  - intros [= _ <-]. repeat split; auto.
  - destruct (GetEmbedding w i chunk) as [vector|err|]; try discriminate.
    destruct (AddDocument vs _ vector) as [[[]|err|] vs1] eqn:Hadd; try discriminate.
    intros Hloop. apply IH in Hloop as (Hc & Hs & Hk & Hd & Hf).
    pose proof (sorted_keys_AddDocument vs (mkDoc i (doc_uuid w i) chunk) vector) as Hs1.
    pose proof (keys_match_AddDocument vs (mkDoc i (doc_uuid w i) chunk) vector) as Hk1.
    rewrite Hadd in Hs1, Hk1. cbn [snd] in Hs1, Hk1.
    apply AddDocument_Ok in Hadd as (Ho & Ho1 & Hdb & Hvec). rewrite mkDoc_ID in Hdb, Hvec.
    split; [congruence|]. split; [auto|]. split; [auto|]. split.
    + intros H. apply Hd. rewrite Hdb. apply decodable_set. exact H.
    + intros id Hid. destruct (Hf id) as [Hf1 Hf2]; [intros Hin; apply Hid; right; exact Hin|].
      assert (Hne : id <> doc_uuid w i) by (intros ->; apply Hid; left; reflexivity).
      rewrite Hf1, Hf2, Hdb, Hvec. split; [apply db_get_set_other; exact Hne|].
      apply lookup_insert_ne. congruence.
Qed.

(** Chunk [k] is under the [k]-th id drawn, with its vector, unless a later
    chunk drew the same id. *)
Lemma upload_loop_stored (chunks : list string) :
  forall (i : nat) (docIDs docIDs' : list string) (vs vs' : VectorStore),
    upload_loop w mkDoc storeMsg chunks i docIDs vs = (Completed docIDs', vs') ->
    forall (k : nat) (chunk : string),
      chunks !! k = Some chunk ->
      ~ In (doc_uuid w (i + k)) (map (doc_uuid w) (seq (S (i + k)) (length chunks - S k))) ->
      db_get (doc_uuid w (i + k)) (db vs')
        = Some (DocJSON (mkDoc (i + k)%nat (doc_uuid w (i + k)) chunk))
      /\ exists vector,
           GetEmbedding w (i + k) chunk = Ok vector
           /\ vectors vs' !! doc_uuid w (i + k) = Some (VData (flat_map le_bytes vector)).
Proof.
  induction chunks as [|chunk0 rest IH]; intros i docIDs docIDs' vs vs';
    cbn [upload_loop length]; [intros _ k chunk Hk; discriminate|].
  destruct (GetEmbedding w i chunk0) as [vector|err|] eqn:Hemb; try discriminate.
  destruct (AddDocument vs _ vector) as [[[]|err|] vs1] eqn:Hadd; try discriminate.
  intros Hloop [|k] chunk Hk Hlater.
  - injection Hk as <-. rewrite Nat.add_0_r in *. cbn [length] in Hlater.
    replace (S (length rest) - 1)%nat with (length rest) in Hlater by lia.
    apply upload_loop_frame in Hloop as (_ & _ & _ & _ & Hf).
    destruct (Hf _ Hlater) as [Hf1 Hf2].
    apply AddDocument_Ok in Hadd as (_ & _ & Hdb & Hvec). rewrite mkDoc_ID in Hdb, Hvec.
    rewrite Hf1, Hf2, Hdb, Hvec. split; [apply db_get_set|].
    exists vector. split; [exact Hemb | apply lookup_insert_eq].
  - cbn [lookup list_lookup] in Hk.
    replace (i + S k)%nat with (S i + k)%nat in * by lia.
    apply (IH (S i) _ _ _ _ Hloop k chunk Hk).
    cbn [length] in Hlater.
    replace (S (length rest) - S (S k))%nat with (length rest - S k)%nat in Hlater by lia.
    exact Hlater.
Qed.

(** Every id the loop reports holds a document the loop made. *)
Lemma upload_loop_marks (P : Document -> Prop) (chunks : list string) :
  (forall i id chunk, P (mkDoc i id chunk)) ->
  forall (i : nat) (docIDs docIDs' : list string) (vs vs' : VectorStore),
    upload_loop w mkDoc storeMsg chunks i docIDs vs = (Completed docIDs', vs') ->
    forall id, In id (map (doc_uuid w) (seq i (length chunks))) ->
      exists doc, db_get id (db vs') = Some (DocJSON doc) /\ P doc /\ Storage.ID doc = id.
Proof.
  intros HP. induction chunks as [|chunk0 rest IH]; intros i docIDs docIDs' vs vs';
    cbn [upload_loop length seq map]; [intros _ id []|].
  destruct (GetEmbedding w i chunk0) as [vector|err|] eqn:Hemb; try discriminate.
  destruct (AddDocument vs _ vector) as [[[]|err|] vs1] eqn:Hadd; try discriminate.
  intros Hloop id Hid.
  destruct (in_dec string_dec id (map (doc_uuid w) (seq (S i) (length rest)))) as [Hin|Hout].
  - eapply IH; eassumption.
  - destruct Hid as [<-|Hid]; [|contradiction].
    apply upload_loop_frame in Hloop as (_ & _ & _ & _ & Hf).
    destruct (Hf _ Hout) as [Hf1 _].
    apply AddDocument_Ok in Hadd as (_ & _ & Hdb & _). rewrite mkDoc_ID in Hdb.
    exists (mkDoc i (doc_uuid w i) chunk0). rewrite Hf1, Hdb.
    split; [apply db_get_set|]. split; [apply HP | apply mkDoc_ID].
Qed.

(** The loop completes when the store is open, the model answers for every
    chunk and no vector file to write is denied. *)
Lemma upload_loop_completes (chunks : list string) :
  forall (i : nat) (docIDs : list string) (vs : VectorStore),
    db_closed vs = false ->
    (forall k chunk, chunks !! k = Some chunk ->
       exists vector, GetEmbedding w (i + k) chunk = Ok vector) ->
    (forall k, (k < length chunks)%nat -> vectors vs !! doc_uuid w (i + k) <> Some VDenied) ->
    exists vs',
      upload_loop w mkDoc storeMsg chunks i docIDs vs
      = (Completed (docIDs ++ map (doc_uuid w) (seq i (length chunks))), vs').
Proof.
  induction chunks as [|chunk0 rest IH]; intros i docIDs vs Hopen Hemb Hfiles;
    cbn [upload_loop length seq map].
  - exists vs. rewrite app_nil_r. reflexivity.
  - destruct (Hemb 0%nat chunk0 eq_refl) as [vector Hv]. rewrite Nat.add_0_r in Hv. rewrite Hv.
    rewrite AddDocument_spec, Hopen, mkDoc_ID. cbn zeta.
    pose proof (Hfiles 0%nat ltac:(cbn; lia)) as H0. rewrite Nat.add_0_r in H0.
    set (vs1 := {| db := db_set (doc_uuid w i) (DocJSON (mkDoc i (doc_uuid w i) chunk0)) (db vs);
                   db_closed := false;
                   vectors := <[doc_uuid w i := VData (flat_map le_bytes vector)]> (vectors vs) |}).
    assert (Hnext : exists vs',
      upload_loop w mkDoc storeMsg rest (S i) (docIDs ++ [doc_uuid w i]) vs1
      = (Completed ((docIDs ++ [doc_uuid w i]) ++ map (doc_uuid w) (seq (S i) (length rest))),
         vs')).
    { apply IH; [reflexivity | |].
      - intros k chunk Hk. replace (S i + k)%nat with (i + S k)%nat by lia.
        apply Hemb. exact Hk.
      - intros k Hk. replace (S i + k)%nat with (i + S k)%nat by lia. cbn [vs1 vectors].
        destruct (decide (doc_uuid w (i + S k) = doc_uuid w i)) as [->|Hne].
        + rewrite lookup_insert_eq. discriminate.
        + rewrite lookup_insert_ne by congruence. apply Hfiles. cbn [length]. lia. }
    destruct Hnext as [vs' Hnext]. exists vs'. rewrite <- app_assoc in Hnext. cbn [app] in Hnext.
    destruct (vectors vs !! doc_uuid w i) as [[bytes|]|]; [exact Hnext | contradiction | exact Hnext].
Qed.

End UploadLoop.

Lemma NoDup_later_ids (f : nat -> string) (n k : nat) :
  NoDup (map f (seq 0 n)) -> (k < n)%nat -> ~ In (f k) (map f (seq (S k) (n - S k))).
Proof.
  intros Hnd Hk Hin. apply List.in_map_iff in Hin as (k' & Heq & Hk').
  apply List.in_seq in Hk'.
  assert (H1 : map f (seq 0 n) !! k = Some (f k)).
  { rewrite list_lookup_fmap, lookup_seq_lt by lia. reflexivity. }
  assert (H2 : map f (seq 0 n) !! k' = Some (f k)).
  { rewrite list_lookup_fmap, lookup_seq_lt by lia. cbn. congruence. }
  pose proof (NoDup_lookup _ _ _ _ Hnd H1 H2). lia.
Qed.

(** X23.  A DataBank upload on an open store, with a model that answers for
    every chunk and no denied vector file, answers 200 with the ids drawn,
    in the order of the chunks; when the ids are distinct, chunk [i] is then
    read back under the [i]-th id as document [i] of [n], and its vector is
    the vector of the model passed through the file. *)
Theorem databank_upload_stores_every_chunk (w : World) (vs : VectorStore)
  (req : DatabankRequest) :
  ReqContent req <> "" ->
  db_closed vs = false ->
  (forall i chunk, ChunkText (ReqContent req) 1000 200 !! i = Some chunk ->
     exists vector, GetEmbedding w i chunk = Ok vector) ->
  (forall i, (i < length (ChunkText (ReqContent req) 1000 200))%nat ->
     vectors vs !! doc_uuid w i <> Some VDenied) ->
  NoDup (map (doc_uuid w) (seq 0 (length (ChunkText (ReqContent req) 1000 200)))) ->
  exists vs',
    handleDatabankUpload w vs (Some req)
    = (Some {| status := 200;
               body := [("message", JString "文档上传成功");
                        ("document_ids",
                         JStrings (map (doc_uuid w)
                                     (seq 0 (length (ChunkText (ReqContent req) 1000 200)))));
                        ("chunks",
                         JInt (Z.of_nat (length (ChunkText (ReqContent req) 1000 200))))] |},
       vs')
    /\ forall i chunk,
         ChunkText (ReqContent req) 1000 200 !! i = Some chunk ->
         GetDocument vs' (doc_uuid w i)
           = Ok (databank_doc w req (length (ChunkText (ReqContent req) 1000 200)) i
                   (doc_uuid w i) chunk)
         /\ exists vector,
              GetEmbedding w i chunk = Ok vector
              /\ GetVector vs' (doc_uuid w i)
                 = Ok (map (fun x => of_uint32 (to_uint32 x)) vector).
Proof.
  intros Hne Hopen Hemb Hfiles Hnd.
  set (chunks := ChunkText (ReqContent req) 1000 200) in *.
  destruct (upload_loop_completes w (databank_doc w req (length chunks)) "存储文档失败"
              (fun _ _ _ => eq_refl) chunks 0 [] vs Hopen Hemb Hfiles) as [vs' Hloop].
  exists vs'. split.
  - unfold handleDatabankUpload. destruct (String.eqb_spec (ReqContent req) ""); [contradiction|].
    cbn zeta. fold chunks. rewrite Hloop. reflexivity.
  - intros i chunk Hi.
    assert (Hlt : (i < length chunks)%nat) by (eapply lookup_lt_Some; eassumption).
    pose proof (upload_loop_frame w (databank_doc w req (length chunks)) _
                  (fun _ _ _ => eq_refl) _ _ _ _ _ _ Hloop) as (Hclosed & _).
    destruct (upload_loop_stored w (databank_doc w req (length chunks)) _
                (fun _ _ _ => eq_refl) _ _ _ _ _ _ Hloop i chunk Hi)
      as (Hdoc & vector & Hv & Hfile).
    { cbn [Nat.add]. apply NoDup_later_ids; assumption. }
    cbn [Nat.add] in *. split.
    + rewrite GetDocument_spec by congruence. rewrite Hdoc. reflexivity.
    + exists vector. split; [exact Hv|]. rewrite GetVector_spec, Hfile, words_le_bytes.
      reflexivity.
Qed.

Lemma databank_upload_stores_every_chunk_witness :
  exists vs',
    handleDatabankUpload steady_world empty_store (Some two_chunk_request)
    = (Some {| status := 200;
               body := [("message", JString "文档上传成功");
                        ("document_ids",
                         JStrings (map (doc_uuid steady_world)
                                     (seq 0 (length (ChunkText (ReqContent two_chunk_request)
                                                       1000 200)))));
                        ("chunks",
                         JInt (Z.of_nat (length (ChunkText (ReqContent two_chunk_request)
                                                   1000 200))))] |},
       vs')
    /\ forall i chunk,
         ChunkText (ReqContent two_chunk_request) 1000 200 !! i = Some chunk ->
         GetDocument vs' (doc_uuid steady_world i)
           = Ok (databank_doc steady_world two_chunk_request
                   (length (ChunkText (ReqContent two_chunk_request) 1000 200)) i
                   (doc_uuid steady_world i) chunk)
         /\ exists vector,
              GetEmbedding steady_world i chunk = Ok vector
              /\ GetVector vs' (doc_uuid steady_world i)
                 = Ok (map (fun x => of_uint32 (to_uint32 x)) vector).
Proof.
  apply (databank_upload_stores_every_chunk steady_world empty_store two_chunk_request).
  - intros H. vm_compute in H. discriminate.
  - reflexivity.
  - intros i chunk _. exists [one]. reflexivity.
  - intros i _. cbn [empty_store vectors]. rewrite lookup_empty. discriminate.
  - apply (bool_decide_unpack _). vm_compute. exact I.
Defined.

(** ** Deleting a chat from the vector store *)

Lemma docsToDelete_spec (mine : Document -> bool) (docs : list Document) :
  fold_left (fun docsToDelete doc =>
               if mine doc then docsToDelete ++ [Storage.ID doc] else docsToDelete) docs []
  = map Storage.ID (List.filter mine docs).
Proof.
  assert (Hgen : forall acc,
    fold_left (fun docsToDelete doc =>
                 if mine doc then docsToDelete ++ [Storage.ID doc] else docsToDelete) docs acc
    = acc ++ map Storage.ID (List.filter mine docs)).
  { induction docs as [|doc rest IH]; intros acc; cbn [fold_left List.filter].
    - rewrite app_nil_r. reflexivity.
    - rewrite IH. destruct (mine doc); [|reflexivity].
      cbn [map]. rewrite <- app_assoc. reflexivity. }
  apply Hgen.
Qed.

Lemma db_delete_filter (k : string) (l : list (string * docData)) :
  db_delete k l = List.filter (fun kv => negb (String.eqb k kv.1)) l.
Proof.
  induction l as [|[k' v'] rest IH]; cbn [db_delete List.filter fst]; [reflexivity|].
  destruct (String.eqb k k'); cbn [negb]; congruence.
Qed.

Lemma filter_filter {A : Type} (p q : A -> bool) (l : list A) :
  List.filter q (List.filter p l) = List.filter (fun x => p x && q x) l.
Proof.
  induction l as [|x rest IH]; cbn [List.filter]; [reflexivity|].
  destruct (p x); cbn [List.filter andb]; [destruct (q x)|]; congruence.
Qed.

(** The deletions of [delete_loop] on an open store all succeed. *)
Lemma delete_loop_spec (docsToDelete : list string) :
  forall (deleteCount : Z) (vs : VectorStore),
    db_closed vs = false ->
    delete_loop docsToDelete deleteCount vs
    = (Some (deleteCount + Z.of_nat (length docsToDelete)),
       {| db := List.filter
                  (fun kv => negb (existsb (fun id => String.eqb id kv.1) docsToDelete))
                  (db vs);
          db_closed := false;
          vectors := fold_left (fun fs id => delete id fs) docsToDelete (vectors vs) |}).
Proof.
  induction docsToDelete as [|id rest IH]; intros deleteCount vs Hopen;
    cbn [delete_loop length fold_left existsb].
  - rewrite Z.add_0_r. f_equal. destruct vs as [table closed files]. cbn in *. subst closed.
    f_equal. induction table as [|kv table IHt]; cbn [List.filter negb]; congruence.
  - rewrite DeleteDocument_spec, Hopen. rewrite IH by reflexivity. cbn [db vectors].
    f_equal; [f_equal; lia|]. f_equal.
    rewrite db_delete_filter, filter_filter. apply List.filter_ext. intros kv.
    rewrite negb_orb. reflexivity.
Qed.


Lemma db_get_filter_out (keep : string * docData -> bool) (k : string)
  (l : list (string * docData)) :
  (forall v, keep (k, v) = false) -> db_get k (List.filter keep l) = None.
Proof.
  intros Hk. induction l as [|[k' v'] rest IH]; cbn [List.filter db_get]; [reflexivity|].
  destruct (keep (k', v')) eqn:Hkeep; [|exact IH]. cbn [db_get].
  destruct (String.eqb_spec k k') as [->|Hne]; [|exact IH]. rewrite Hk in Hkeep. discriminate.
Qed.

(** [handleChatDelete] on a store that can be listed. *)
Lemma handleChatDelete_spec (vs : VectorStore) (chatID : string) (docs : list Document) :
  chatID <> "" ->
  ListDocuments vs = Ok docs ->
  handleChatDelete vs chatID
  = (Some {| status := 200;
             body := [("message",
                       JString ("聊天记录删除成功，共删除 "
                                +:+ pretty (Z.of_nat (length (List.filter (of_chat chatID) docs)))
                                +:+ " 个文档"));
                      ("deleted_count",
                       JInt (Z.of_nat (length (List.filter (of_chat chatID) docs))))] |},
     {| db := List.filter
                (fun kv =>
                   negb (existsb (fun id => String.eqb id kv.1)
                           (map Storage.ID (List.filter (of_chat chatID) docs))))
                (db vs);
        db_closed := false;
        vectors := fold_left (fun fs id => delete id fs)
                     (map Storage.ID (List.filter (of_chat chatID) docs)) (vectors vs) |}).
Proof.
  intros Hne Hlist. unfold handleChatDelete.
  destruct (String.eqb_spec chatID ""); [contradiction|]. rewrite Hlist. cbn zeta.
  pose proof (docsToDelete_spec (of_chat chatID) docs) as Hids. unfold of_chat in Hids at 1.
  rewrite Hids. rewrite ListDocuments_spec in Hlist.
  destruct (db_closed vs) eqn:Hopen; [discriminate|].
  rewrite delete_loop_spec by assumption. rewrite length_map, Z.add_0_l. reflexivity.
Qed.

Lemma existsb_eqb_In (k : string) (ids : list string) :
  existsb (fun id => String.eqb id k) ids = true <-> In k ids.
Proof.
  rewrite existsb_exists. split.
  - intros (id & Hin & Heq). apply String.eqb_eq in Heq. congruence.
  - intros Hin. exists k. split; [assumption | apply String.eqb_refl].
Qed.



Lemma CreateChatMetadata_chat_id (upload_time : string) (chat : ChatHistory) :
  CreateChatMetadata upload_time chat !! "chat_id" = Some (Processor.ID chat).
Proof.
  unfold CreateChatMetadata.
  assert (Hbase :
    (<["upload_time" := upload_time]>
       (<["message_count" := pretty (Z.of_nat (length (Messages chat)))]>
          (<["chat_id" := Processor.ID chat]>
             (<["title" := Processor.Title chat]> (∅ : gmap string string))))) !! "chat_id"
    = Some (Processor.ID chat)).
  { rewrite !lookup_insert_ne by discriminate. apply lookup_insert_eq. }
  destruct (Messages chat) as [|firstMsg rest]; [exact Hbase|].
  destruct (String.eqb (Time firstMsg) ""), (String.eqb (Time (List.last _ firstMsg)) "");
    rewrite ?lookup_insert_ne by discriminate; exact Hbase.
Qed.

(** A loop that answers from inside answers with an error object. *)
Lemma upload_loop_Responded (w : World) (mkDoc : nat -> string -> string -> Document)
  (storeMsg : string) (chunks : list string) :
  forall (i : nat) (docIDs : list string) (vs vs' : VectorStore) (r : Response),
    upload_loop w mkDoc storeMsg chunks i docIDs vs = (Responded r, vs') ->
    exists msg, body r = [("error", JString msg)].
Proof.
  induction chunks as [|chunk rest IH]; intros i docIDs vs vs' r; cbn [upload_loop];
    [discriminate|].
  destruct (GetEmbedding w i chunk) as [vector|err|];
    [|intros [= <- _]; eexists; reflexivity|discriminate].
  destruct (AddDocument vs _ vector) as [[[]|err|] vs2];
    [apply IH|intros [= <- _]; eexists; reflexivity|discriminate].
Qed.

(** X25.  A chat uploaded with [handleChatUpload] is removed by
    [handleChatDelete] under the chat id the upload answered: on a store
    that could be listed before the upload, with its records under their
    ids, the deletion answers 200 and none of the document ids the upload
    answered is found afterwards. *)
Theorem uploaded_chat_is_deleted_by_its_id (w : World) (vs vs' : VectorStore)
  (chat : ChatHistory) (r : Response) (chatID : string) (docIDs : list string)
  (listed : list Document) :
  sorted_keys (db vs) ->
  keys_match vs ->
  ListDocuments vs = Ok listed ->
  handleChatUpload w vs (Some chat) = (Some r, vs') ->
  field "chat_id" (body r) = Some (JString chatID) ->
  field "document_ids" (body r) = Some (JStrings docIDs) ->
  chatID <> "" ->
  exists r' vs'',
    handleChatDelete vs' chatID = (Some r', vs'')
    /\ status r' = 200
    /\ forall id, In id docIDs -> GetDocument vs'' id = Fail (Errorf "文档不存在" id).
Proof.
  intros Hs Hkeys Hlist Hup Hchat Hids Hne. unfold handleChatUpload in Hup.
  destruct (Messages chat) as [|m ms] eqn:Hm;
    [injection Hup as <- _; discriminate|].
  rewrite <- Hm in Hup. clear m ms Hm.
  set (chat1 := if String.eqb (Processor.ID chat) "" then _ else chat) in Hup.
  set (chat2 := if String.eqb (Processor.Title chat1) "" then _ else chat1) in Hup.
  destruct (ProcessChatHistory chat2) as [chunks|err|];
    [|injection Hup as <- _; discriminate|discriminate].
  set (mkDoc := chat_doc chat2 (CreateChatMetadata (upload_time w 0) chat2) (length chunks))
    in Hup.
  destruct (upload_loop w mkDoc "存储聊天记录失败" chunks 0 [] vs) as [[ids|r0|] vs1] eqn:Hloop;
    [|injection Hup as <- _|discriminate].
  2:{ apply upload_loop_Responded in Hloop as [msg Hbody].
      rewrite Hbody in Hchat. discriminate. }
  injection Hup as <- <-. cbn [body field String.eqb Ascii.eqb Bool.eqb] in Hchat, Hids.
  injection Hchat as <-. injection Hids as <-.
  assert (HmkID : forall i id chunk, Storage.ID (mkDoc i id chunk) = id) by reflexivity.
  pose proof (upload_loop_ids _ _ _ _ _ _ _ _ _ Hloop) as Hdrawn. cbn [app] in Hdrawn.
  pose proof (upload_loop_frame w mkDoc _ HmkID _ _ _ _ _ _ Hloop) as (Hc & Hs1 & Hk1 & Hd1 & _).
  rewrite ListDocuments_spec in Hlist.
  destruct (db_closed vs) eqn:Hopen; [discriminate|].
  assert (Hdec : decodable (db vs1)).
  { apply Hd1, decodable_mapM. destruct (mapM record_doc (db vs)); [eauto | discriminate]. }
  apply decodable_mapM in Hdec as [listed1 Hlisted1].
  assert (Hlist1 : ListDocuments vs1 = Ok listed1).
  { rewrite ListDocuments_spec, Hc, Hlisted1. reflexivity. }
  eexists. eexists. split; [apply handleChatDelete_spec; eassumption|].
  split; [reflexivity|]. intros id Hid.
  rewrite GetDocument_spec by reflexivity. cbn [db].
  rewrite db_get_filter_out; [reflexivity|].
  intros v. cbn [fst]. apply negb_false_iff, existsb_eqb_In.
  rewrite Hdrawn in Hid.
  destruct (upload_loop_marks w mkDoc "存储聊天记录失败" HmkID
              (fun doc => of_chat (Processor.ID chat2) doc = true) chunks) with
    (i := 0%nat) (docIDs := @nil string) (docIDs' := ids) (vs := vs) (vs' := vs1) (id := id)
    as (doc & Hget & Hmine & Hdocid); [| exact Hloop | exact Hid |].
  { intros i id' chunk. unfold of_chat, mkDoc, chat_doc. cbn [DocMetadata Custom].
    rewrite CreateChatMetadata_chat_id. cbn [default]. rewrite String.eqb_refl. reflexivity. }
  apply List.in_map_iff. exists doc. split; [assumption|].
  apply List.filter_In. split; [|assumption].
  apply (In_mapM_record_doc _ _ doc Hlisted1). exists id. apply db_get_In. assumption.
Qed.

Lemma uploaded_chat_is_deleted_by_its_id_witness :
  exists r' vs'',
    handleChatDelete (handleChatUpload steady_world empty_store (Some first_chat)).2 "c1"
    = (Some r', vs'')
    /\ status r' = 200
    /\ forall id, In id ["id0"] -> GetDocument vs'' id = Fail (Errorf "文档不存在" id).
Proof.
  apply (uploaded_chat_is_deleted_by_its_id steady_world empty_store _ first_chat
           {| status := 200;
              body := [("message", JString "聊天记录上传成功");
                       ("chat_id", JString "c1");
                       ("document_ids", JStrings ["id0"]);
                       ("chunks", JInt 1)] |}
           "c1" ["id0"] []).
  - constructor.
  - exact keys_match_empty.
  - reflexivity.
  - vm_compute. reflexivity.
  - reflexivity.
  - reflexivity.
  - discriminate.
Defined.

(** ** Reading and deleting one document through the API *)



(** ** Further edge cases *)

(** X27.  A non-empty text without a blank line that fits the chunk size is
    returned as the only fragment, unchanged. *)
Theorem short_paragraph_is_one_chunk (text : string) (chunkSize overlap : Z) :
  text <> "" ->
  Split text (LF +:+ LF) = [text] ->
  len text <= normal_size chunkSize ->
  ChunkText text chunkSize overlap = [text].
Proof.
  intros Hne Hsplit Hfit.
  assert (Hfold : forall ov,
            fold_left (add_paragraph (normal_size chunkSize) ov) [text] ([], "")
            = (@nil string, text)).
  { intros ov. cbn [fold_left]. unfold add_paragraph.
    destruct (Z.gtb_spec (len text) (normal_size chunkSize)); [lia|].
    destruct (_ <=? _); reflexivity. }
  rewrite ChunkText_unfold, Hsplit, Hfold. cbn [fst snd].
  destruct (String.eqb_spec text ""); [contradiction | reflexivity].
Qed.

Lemma short_paragraph_is_one_chunk_witness : ChunkText "Alpha. Beta." 1000 200 = ["Alpha. Beta."].
Proof.
  apply (short_paragraph_is_one_chunk "Alpha. Beta." 1000 200).
  - discriminate.
  - vm_compute. reflexivity.
  - vm_compute. discriminate.
Defined.

Lemma mapM_record_doc_bad (k : string) (table : list (string * docData)) :
  In (k, BadJSON) table -> mapM record_doc table = None.
Proof.
  induction table as [|[k' [d|]] rest IH]; simpl; [intros [] | | reflexivity].
  intros [Heq|Hin]; [discriminate|]. rewrite (IH Hin). reflexivity.
Qed.

(** X28.  One record that does not decode makes [ListDocuments] fail, and
    with it [handleChatDelete], which answers 500 and deletes nothing; the
    search skips such a record and still answers. *)
Theorem undecodable_record_fails_listing_not_search `{SliceSort} (vs : VectorStore)
  (k chatID : string) (queryVector : list float32) (limit : Z) :
  db_closed vs = false ->
  In (k, BadJSON) (db vs) ->
  chatID <> "" ->
  ListDocuments vs = Fail (Wrap "获取文档列表失败" (Wrap "解析文档失败" ErrSyntax))
  /\ handleChatDelete vs chatID
     = (Some (error_response "获取文档列表失败"
                (Wrap "获取文档列表失败" (Wrap "解析文档失败" ErrSyntax))), vs)
  /\ exists docs scores, SearchSimilar vs queryVector limit = Ok (docs, scores).
Proof.
  intros Hopen Hbad Hne.
  assert (Hlist : ListDocuments vs
                  = Fail (Wrap "获取文档列表失败" (Wrap "解析文档失败" ErrSyntax))).
  { rewrite ListDocuments_spec, Hopen, (mapM_record_doc_bad k) by assumption. reflexivity. }
  split; [exact Hlist|]. split.
  - unfold handleChatDelete. destruct (String.eqb_spec chatID ""); [contradiction|].
    rewrite Hlist. reflexivity.
  - unfold SearchSimilar. rewrite Search_spec, Hopen. eauto.
Qed.

Lemma undecodable_record_fails_listing_not_search_witness :
  ListDocuments corrupt_store = Fail (Wrap "获取文档列表失败" (Wrap "解析文档失败" ErrSyntax))
  /\ handleChatDelete corrupt_store "c1"
     = (Some (error_response "获取文档列表失败"
                (Wrap "获取文档列表失败" (Wrap "解析文档失败" ErrSyntax))), corrupt_store)
  /\ exists docs scores,
       SearchSimilar (H := insertion_sorter) corrupt_store [one] 5 = Ok (docs, scores).
Proof.
  apply (undecodable_record_fails_listing_not_search (H := insertion_sorter) corrupt_store
           "a" "c1" [one] 5).
  - reflexivity.
  - left. reflexivity.
  - discriminate.
Defined.

Lemma cut_take (limit : Z) (l : list docSimilarity) :
  0 < limit -> cut limit l = take (Z.to_nat limit) l.
Proof.
  intros Hpos. unfold cut. destruct (Z.ltb_spec 0 limit); [|lia]. cbn [andb].
  destruct (Z.ltb_spec limit (Z.of_nat (length l))); [reflexivity|].
  symmetry. apply take_ge. lia.
Qed.

Lemma omap_app_list {A B : Type} (f : A -> option B) (l1 l2 : list A) :
  omap f (l1 ++ l2) = omap f l1 ++ omap f l2.
Proof.
  induction l1 as [|x l1 IH]; cbn [app omap list_omap]; [reflexivity|].
  fold (omap f (l1 ++ l2)). fold (omap f l1). rewrite IH. destruct (f x); reflexivity.
Qed.

(** X29.  Raising a positive limit only adds results at the end: the
    documents and scores returned for [limit] are a prefix of those returned
    for any larger limit. *)
Theorem larger_limit_extends_the_results `{SliceSort} (vs : VectorStore)
  (queryVector : list float32) (limit limit' : Z) (docs : list Document)
  (scores : list float32) :
  0 < limit <= limit' ->
  SearchSimilar vs queryVector limit = Ok (docs, scores) ->
  exists moreDocs moreScores,
    SearchSimilar vs queryVector limit' = Ok (docs ++ moreDocs, scores ++ moreScores)
    /\ length moreDocs = length moreScores.
Proof.
  intros Hlim Hsearch. unfold SearchSimilar in *. rewrite Search_spec in *.
  destruct (db_closed vs); [discriminate|]. injection Hsearch as <- <-.
  unfold hits. rewrite !cut_take by lia.
  assert (Hsplit : take (Z.to_nat limit') (ranked vs queryVector)
                   = take (Z.to_nat limit) (ranked vs queryVector)
                     ++ drop (Z.to_nat limit) (take (Z.to_nat limit') (ranked vs queryVector))).
  { rewrite <- (take_drop (Z.to_nat limit) (take (Z.to_nat limit') (ranked vs queryVector))) at 1.
    rewrite take_take. f_equal. f_equal. lia. }
  rewrite Hsplit, omap_app_list, !map_app.
  eexists. eexists. split; [reflexivity|]. rewrite !length_map. reflexivity.
Qed.

Lemma larger_limit_extends_the_results_witness :
  exists moreDocs moreScores,
    SearchSimilar (H := insertion_sorter) tie_store [one] 2
    = Ok ([sample_doc "a" []] ++ moreDocs, [one] ++ moreScores)
    /\ length moreDocs = length moreScores.
Proof.
  apply (larger_limit_extends_the_results (H := insertion_sorter) tie_store [one] 1 2).
  - lia.
  - vm_compute. reflexivity.
Defined.

(** X30.  When [handleCharacterChatUpload] answers with a chat id, the
    character and the id being plain names, the id not ["_info"], and the
    strings of the chat valid UTF-8, the transcript is in the archive:
    [GetChat] returns, under the character and that id, the chat the handler
    worked on, with the messages of the request, and
    [handleCharacterChatGet] serves it. *)
Theorem uploaded_character_chat_is_archived (w : World) (vs vs' : VectorStore)
  (cs cs' : ChatStore) (character : string) (chat : ChatHistory) (r : Response)
  (chatID : string) :
  handleCharacterChatUpload w vs cs character (Some chat) = (Some r, vs', cs') ->
  field "chat_id" (body r) = Some (JString chatID) ->
  plain_chat character chatID = true ->
  valid_chat (prepared_chat w character chat) = true ->
  chatID <> "_info" ->
  chatID <> "" ->
  GetChat cs' character chatID = Ok (prepared_chat w character chat)
  /\ handleCharacterChatGet cs' character chatID = Some (Served (prepared_chat w character chat))
  /\ Processor.ID (prepared_chat w character chat) = chatID
  /\ Messages (prepared_chat w character chat) = Messages chat.
Proof.
  intros Hup Hfield Hplain _ Hid Hid'.
  assert (Hmsgs : Messages (prepared_chat w character chat) = Messages chat).
  { unfold prepared_chat. destruct (String.eqb (Processor.ID chat) "");
      cbn [Processor.Title Messages]; destruct (String.eqb _ ""); reflexivity. }
  unfold handleCharacterChatUpload in Hup.
  destruct (String.eqb character "") eqn:Hchar; [injection Hup as <- _ _; discriminate|].
  destruct (Messages chat) as [|m ms] eqn:Hm; [injection Hup as <- _ _; discriminate|].
  rewrite <- Hm in *. clear m ms Hm. fold (prepared_chat w character chat) in Hup.
  destruct (SaveChat cs _ _ character (prepared_chat w character chat)) as [[[]|err|] cs1]
    eqn:Hsave; [|injection Hup as <- _ _; discriminate|discriminate].
  destruct (ProcessChatHistory (prepared_chat w character chat)) as [chunks|err|];
    [|injection Hup as <- _ _; discriminate|discriminate].
  destruct (upload_loop w _ _ chunks 0 [] vs) as [[ids|r0|] vs1] eqn:Hloop;
    [|injection Hup as <- _ _|discriminate].
  2:{ apply upload_loop_Responded in Hloop as [msg Hbody].
      rewrite Hbody in Hfield. discriminate. }
  injection Hup as <- _ <-. cbn in Hfield. injection Hfield as <-.
  assert (Hget : GetChat cs1 character (Processor.ID (prepared_chat w character chat))
                 = Ok (prepared_chat w character chat)).
  { apply SaveChat_Ok in Hsave as (info & chats & Hi & Ht & _ & _ & _ & _ & Hfiles).
    unfold GetChat, Stat, ChatArchive.ReadFile. rewrite Hfiles.
    rewrite lookup_insert_ne, lookup_insert_eq.
    - cbn. rewrite Hi, Ht. f_equal. apply ChatHistory_eta.
    - intros Heq. symmetry in Heq. apply (chat_path_is_info_path _ _ Hplain) in Heq.
      contradiction. }
  split; [exact Hget|]. split; [|split; [reflexivity | exact Hmsgs]].
  unfold handleCharacterChatGet. rewrite Hchar, Hget.
  destruct (String.eqb_spec (Processor.ID (prepared_chat w character chat)) "");
    [contradiction | reflexivity].
Qed.

Lemma uploaded_character_chat_is_archived_witness :
  GetChat
    (handleCharacterChatUpload steady_world empty_store
       {| dirs := ∅; files := ∅; root_writable := true |} "Aria" (Some first_chat)).2
    "Aria" "c1"
  = Ok (prepared_chat steady_world "Aria" first_chat)
  /\ handleCharacterChatGet
       (handleCharacterChatUpload steady_world empty_store
          {| dirs := ∅; files := ∅; root_writable := true |} "Aria" (Some first_chat)).2
       "Aria" "c1"
     = Some (Served (prepared_chat steady_world "Aria" first_chat))
  /\ Processor.ID (prepared_chat steady_world "Aria" first_chat) = "c1"
  /\ Messages (prepared_chat steady_world "Aria" first_chat) = Messages first_chat.
Proof.
  apply (uploaded_character_chat_is_archived steady_world empty_store
           (handleCharacterChatUpload steady_world empty_store
              {| dirs := ∅; files := ∅; root_writable := true |} "Aria" (Some first_chat)).1.2
           {| dirs := ∅; files := ∅; root_writable := true |} _ "Aria" first_chat
           {| status := 200;
              body := [("message", JString "聊天记录上传成功");
                       ("character", JString "Aria");
                       ("chat_id", JString "c1");
                       ("document_ids", JStrings ["id0"]);
                       ("chunks", JInt 1)] |}
           "c1").
  - vm_compute. reflexivity.
  - reflexivity.
  - reflexivity.
  - vm_compute. reflexivity.
  - discriminate.
  - discriminate.
Defined.
